(** * Knowledge-base retriever: a Rocq model of the search route

    The development follows the TypeScript module that serves
    [POST /api/knowledge]: the tokenizer, the index builder, the Markdown
    parser, the index cache, query expansion, the eighteen-factor scorer,
    the fallback search, the request handler and the information endpoint
    [GET /api/knowledge].

    Conventions of the model.
    - Strings are [string]s of 7-bit characters; the character classes [\w]
      and [\s] of the regular expressions are the ASCII ones.  Each regular
      expression of the code is a function that finds its match at the head
      of a string, run over the string the way the engine does.
    - JavaScript numbers are modelled by exact rationals ([Q]) and, where the
      code only ever holds an integer, by [Z] or [nat].  [Math.log] and
      [Math.sqrt] are parameters: the theorems hold for every choice of the
      two functions, and the sample inputs are run with rational
      approximations of them.
    - [Set]s and [Map]s are duplicate-free lists in insertion order, which is
      the order JavaScript iterates them in.
    - Plain objects used as dictionaries are association lists.  Every plain
      object inherits the keys [constructor] and [__proto__] from
      [Object.prototype]; the lookups that can meet them are modelled with
      the [TypeError] they end in.
    - An exception is [None]; a [try]/[catch] is a match on it.
    - [Date.now()] is an input of the functions that read the clock, and the
      file system is a value with the three operations the loader calls.
    - The request body is a JSON object; the elapsed time and the
      [matchDetails] labels of the answer are left out. *)

From Stdlib Require Import String Ascii List Bool Arith ZArith QArith Qround Qminmax.
From Stdlib Require Import Lia Lqa DecimalString DecimalPos.
From Stdlib Require Import Permutation Sorted.
Import ListNotations.

Local Open Scope string_scope.
Local Open Scope list_scope.
Local Open Scope Z_scope.

(** ** Characters and strings *)

Module Str.

Definition code (c : ascii) : N := N_of_ascii c.

Definition isDigit (c : ascii) : bool := (48 <=? code c)%N && (code c <=? 57)%N.
Definition isUpper (c : ascii) : bool := (65 <=? code c)%N && (code c <=? 90)%N.
Definition isLower (c : ascii) : bool := (97 <=? code c)%N && (code c <=? 122)%N.

(** [\w]: letters, digits and the underscore. *)
Definition isWordChar (c : ascii) : bool :=
  isDigit c || isUpper c || isLower c || (code c =? 95)%N.

(** [\s]: tab, line feed, vertical tab, form feed, carriage return, space. *)
Definition isSpace (c : ascii) : bool :=
  ((9 <=? code c)%N && (code c <=? 13)%N) || (code c =? 32)%N.

(** The line terminators [.] refuses and [^]/[$] look at under the [m] flag. *)
Definition isLineTerminator (c : ascii) : bool :=
  (code c =? 10)%N || (code c =? 13)%N.

Definition lowerChar (c : ascii) : ascii :=
  if isUpper c then ascii_of_N (code c + 32) else c.

Fixpoint map_string (f : ascii -> ascii) (s : string) : string :=
  match s with
  | EmptyString => EmptyString
  | String c t => String (f c) (map_string f t)
  end.

Definition toLowerCase (s : string) : string := map_string lowerChar s.

Fixpoint rev_string_onto (s acc : string) : string :=
  match s with
  | EmptyString => acc
  | String c t => rev_string_onto t (String c acc)
  end.

Definition rev_string (s : string) : string := rev_string_onto s EmptyString.

Fixpoint dropWhile (p : ascii -> bool) (s : string) : string :=
  match s with
  | EmptyString => EmptyString
  | String c t => if p c then dropWhile p t else s
  end.

Definition trimStart (s : string) : string := dropWhile isSpace s.
Definition trimEnd (s : string) : string := rev_string (dropWhile isSpace (rev_string s)).
Definition trim (s : string) : string := trimEnd (trimStart s).

Definition startsWith (s p : string) : bool := prefix p s.

Definition endsWith (s p : string) : bool := prefix (rev_string p) (rev_string s).

(** [s.includes(sub)] *)
Fixpoint includes (s sub : string) : bool :=
  prefix sub s ||
  match s with
  | EmptyString => false
  | String _ t => includes t sub
  end.

Fixpoint dropChars (n : nat) (s : string) : string :=
  match n, s with
  | O, _ => s
  | S _, EmptyString => EmptyString
  | S k, String _ t => dropChars k t
  end.

(** [s.replace(pat, '')] with a string pattern: the first occurrence only. *)
Fixpoint removeFirst (pat s : string) : string :=
  if prefix pat s then dropChars (String.length pat) s
  else match s with
       | EmptyString => EmptyString
       | String c t => String c (removeFirst pat t)
       end.

(** [s.substring(0, n)] *)
Definition substring0 (n : nat) (s : string) : string := substring 0 n s.

(** [s.split(/sep+/)]: the pieces between the maximal runs of separator
    characters; a leading or trailing run leaves an empty piece, and the
    empty string splits into one empty piece. *)
Fixpoint splitRuns (sep : ascii -> bool) (inRun : bool) (s : string) : list string :=
  match s with
  | EmptyString => [EmptyString]
  | String c t =>
      if sep c then
        if inRun then splitRuns sep true t
        else EmptyString :: splitRuns sep true t
      else
        match splitRuns sep false t with
        | p :: ps => String c p :: ps
        | [] => [String c EmptyString]
        end
  end.

Definition split (sep : ascii -> bool) (s : string) : list string :=
  splitRuns sep false s.

Definition mem (x : string) (l : list string) : bool := existsb (String.eqb x) l.

(** [Array.from(new Set(l))]: first occurrences, in order. *)
Fixpoint dedup_onto (seen : list string) (l : list string) : list string :=
  match l with
  | [] => []
  | x :: t => if mem x seen then dedup_onto seen t else x :: dedup_onto (x :: seen) t
  end.

Definition dedup (l : list string) : list string := dedup_onto [] l.

(** [set.add(x)] on a set kept as a list in insertion order. *)
Definition set_add (x : string) (s : list string) : list string :=
  if mem x s then s else s ++ [x].

End Str.

(** ** The tokenizer *)

Definition stopWords : list string :=
  [ "what"; "is"; "are"; "the"; "how"; "why"; "when"; "where"; "can"; "could"; "would"; "should";
    "do"; "does"; "did"; "a"; "an"; "and"; "or"; "but"; "in"; "on"; "at"; "to"; "for"; "of";
    "with"; "by"; "from"; "about"; "search"; "find"; "tell"; "me"; "give"; "show"; "explain";
    "describe"; "want"; "know"; "need"; "help"; "this"; "that"; "these"; "those"; "i"; "you";
    "he"; "she"; "it"; "we"; "they" ].

(** [.replace(/[^\w\s]/g, ' ')] *)
Definition blankPunctuation (c : ascii) : ascii :=
  if Str.isWordChar c || Str.isSpace c then c else " "%char.

Definition keepWord (stop : list string) (word : string) : bool :=
  (2 <? String.length word)%nat && negb (Str.mem word stop).

Definition tokenizeAndNormalize (text : string) : list string :=
  firstn 1000
    (filter (keepWord stopWords)
       (Str.split Str.isSpace
          (Str.map_string blankPunctuation (Str.toLowerCase text)))).

(** ** Dictionaries

    A plain object used as a dictionary: an association list in insertion
    order.  Assigning to a key that is present replaces its value in place. *)

Module Dict.
Section Dict.
Context {V : Type}.

Fixpoint get (k : string) (d : list (string * V)) : option V :=
  match d with
  | [] => None
  | (k', v) :: t => if String.eqb k k' then Some v else get k t
  end.

Fixpoint set (k : string) (v : V) (d : list (string * V)) : list (string * V) :=
  match d with
  | [] => [(k, v)]
  | (k', v') :: t => if String.eqb k k' then (k, v) :: t else (k', v') :: set k v t
  end.

Definition keys (d : list (string * V)) : list string := map fst d.

End Dict.

(** [Object.values] lists the keys that are array indices first, in
    ascending numeric order, and the remaining keys in insertion order. *)

Fixpoint digitsValue (s : string) (acc : N) : option N :=
  match s with
  | EmptyString => Some acc
  | String c t =>
      if Str.isDigit c then digitsValue t (10 * acc + (Str.code c - 48))%N else None
  end.

Definition arrayIndex (k : string) : option N :=
  match k with
  | EmptyString => None
  | String c t =>
      if (Str.code c =? 48)%N && negb (String.eqb t EmptyString) then None
      else match digitsValue k 0%N with
           | Some n => if (n <? 4294967295)%N then Some n else None
           | None => None
           end
  end.

Section Values.
Context {V : Type}.

Fixpoint insertIndexed (n : N) (v : V) (l : list (N * V)) : list (N * V) :=
  match l with
  | [] => [(n, v)]
  | (m, w) :: t => if (n <? m)%N then (n, v) :: l else (m, w) :: insertIndexed n v t
  end.

Fixpoint indexedEntries (d : list (string * V)) : list (N * V) :=
  match d with
  | [] => []
  | (k, v) :: t =>
      match arrayIndex k with
      | Some n => insertIndexed n v (indexedEntries t)
      | None => indexedEntries t
      end
  end.

Fixpoint namedEntries (d : list (string * V)) : list V :=
  match d with
  | [] => []
  | (k, v) :: t =>
      match arrayIndex k with
      | Some _ => namedEntries t
      | None => v :: namedEntries t
      end
  end.

Definition values (d : list (string * V)) : list V :=
  map snd (indexedEntries d) ++ namedEntries d.

End Values.
End Dict.

(** The lowercase keys every plain object inherits from [Object.prototype].
    A dictionary lookup [dict[word]] with one of them finds the inherited
    value, which is truthy and is not an entry of the dictionary. *)
Definition inheritedKeys : list string := ["constructor"; "__proto__"].

Definition isInheritedKey (k : string) : bool := Str.mem k inheritedKeys.

(** ** The data model *)

Module KnowledgeDocument.
Record t : Type := mk {
  id : string;
  title : string;
  content : string;
  tags : list string;
  source : string;
  relevance : Q
}.
End KnowledgeDocument.

Module SearchResult.
(** [KnowledgeDocument & { searchScore }]; the [matchDetails] strings, which
    only label the factors that fired, are left out. *)
Record t : Type := mk {
  doc : KnowledgeDocument.t;
  searchScore : Z
}.
End SearchResult.

Module InvertedIndexEntry.
Record t : Type := mk {
  documents : list string;
  frequency : nat;
  idf : Q
}.
End InvertedIndexEntry.

Module DocumentIndexEntry.
Record t : Type := mk {
  document : KnowledgeDocument.t;
  termFrequency : list (string * nat);
  tfidfVector : list (string * Q);
  length : nat;
  topics : list string;
  embeddings : list Q
}.
End DocumentIndexEntry.

(** [invertedIndex] is a plain object keyed by term, and the code only looks
    terms up in it.  The list keeps the terms in the order of their first
    assignment, which is not the order in which JavaScript enumerates the
    keys of an object (array-index keys such as [2024] come first there): the
    statements read lookups and the set of keys off the list, not its order. *)
Definition InvertedIndex : Type := list (string * InvertedIndexEntry.t).

(** [documentIndex] is a plain object keyed by document id.  Assigning to
    its key [__proto__] does not create a property: it installs the value as
    the object's prototype, where a later read of [__proto__] finds it and
    [Object.values] does not. *)
Module DocumentIndex.
Record t : Type := mk {
  own : list (string * DocumentIndexEntry.t);
  proto : option DocumentIndexEntry.t
}.

Definition empty : t := mk [] None.

Definition set (docId : string) (e : DocumentIndexEntry.t) (di : t) : t :=
  if String.eqb docId "__proto__" then mk (own di) (Some e)
  else mk (Dict.set docId e (own di)) (proto di).

(** Reads are only made at ids of indexed documents, so the keys the
    prototype chain would add are not part of the lookup. *)
Definition get (docId : string) (di : t) : option DocumentIndexEntry.t :=
  if String.eqb docId "__proto__" then proto di else Dict.get docId (own di).

Definition values (di : t) : list DocumentIndexEntry.t := Dict.values (own di).
End DocumentIndex.

Module KnowledgeBaseIndex.
(** [averageDocumentLength] is [None] where the code holds [NaN] (the
    quotient [0 / 0] of an index built from no document). *)
Record t : Type := mk {
  invertedIndex : InvertedIndex;
  documentIndex : DocumentIndex.t;
  totalDocuments : nat;
  vocabulary : list string;
  averageDocumentLength : option Q;
  lastIndexed : Z
}.
End KnowledgeBaseIndex.

Definition Qnat (n : nat) : Q := inject_Z (Z.of_nat n).

Definition createEmptyIndex (lastIndexed : Z) : KnowledgeBaseIndex.t :=
  KnowledgeBaseIndex.mk [] DocumentIndex.empty 0%nat [] (Some 0%Q) lastIndexed.

(** ** The index builder *)

Definition extractTopicsFromFilename (filename : string) : list string :=
  let baseName := Str.removeFirst ".md" (Str.toLowerCase filename) in
  let parts :=
    Str.split (fun c => (Str.code c =? 45)%N || (Str.code c =? 95)%N || Str.isSpace c) baseName in
  filter (fun part => (3 <? String.length part)%nat) parts.

(** [(map.get(word) || 0)] on a [Map] of counts. *)
Definition countOf (word : string) (m : list (string * nat)) : nat :=
  match Dict.get word m with
  | Some n => n
  | None => 0%nat
  end.

Definition countWords (words : list string) : list (string * nat) :=
  fold_left (fun m word => Dict.set word (S (countOf word m)) m) words [].

Definition createSimpleEmbeddings (words : list string) (vocabulary : list string) : list Q :=
  let wordFreq := countWords words in
  map (fun term => Qnat (countOf term wordFreq)) (firstn 50 vocabulary).

(** The state of the first pass: the locals [invertedIndex], [documentIndex],
    [vocabulary] and [totalDocumentLength] of [buildKnowledgeBaseIndex]. *)
Record BuildState : Type := mkBuildState {
  bs_invertedIndex : InvertedIndex;
  bs_documentIndex : DocumentIndex.t;
  bs_vocabulary : list string;
  bs_totalDocumentLength : nat
}.

(** The state of the inner loop over the words of one document. *)
Record WordState : Type := mkWordState {
  ws_termFrequency : list (string * nat);
  ws_vocabulary : list string;
  ws_invertedIndex : InvertedIndex
}.

(** One round of [words.forEach].  The test [!invertedIndex[word]] is false
    for an inherited key, no entry is created, and [.documents.add] is then
    called on [undefined]: the round throws ([None]). *)
Definition indexWord (docId : string) (st : WordState) (word : string) : option WordState :=
  let termFrequency := Dict.set word (S (countOf word (ws_termFrequency st))) (ws_termFrequency st) in
  let vocabulary := Str.set_add word (ws_vocabulary st) in
  if isInheritedKey word then None
  else
    let entry :=
      match Dict.get word (ws_invertedIndex st) with
      | Some e => e
      | None => InvertedIndexEntry.mk [] 0 0%Q
      end in
    let entry' :=
      InvertedIndexEntry.mk
        (Str.set_add docId (InvertedIndexEntry.documents entry))
        (S (InvertedIndexEntry.frequency entry))
        (InvertedIndexEntry.idf entry) in
    Some (mkWordState termFrequency vocabulary (Dict.set word entry' (ws_invertedIndex st))).

(** A loop whose body may throw. *)
Fixpoint forEachM {S A : Type} (body : S -> A -> option S) (l : list A) (st : S) : option S :=
  match l with
  | [] => Some st
  | x :: t =>
      match body st x with
      | Some st' => forEachM body t st'
      | None => None
      end
  end.

Definition documentWords (doc : KnowledgeDocument.t) : list string :=
  tokenizeAndNormalize
    (Str.toLowerCase (KnowledgeDocument.title doc ++ " " ++ KnowledgeDocument.content doc)).

(** One round of [documents.forEach]. *)
Definition indexDocument (st : BuildState) (doc : KnowledgeDocument.t) : option BuildState :=
  let docId := KnowledgeDocument.id doc in
  let words := documentWords doc in
  match forEachM (indexWord docId) words
          (mkWordState [] (bs_vocabulary st) (bs_invertedIndex st)) with
  | None => None
  | Some ws =>
      let docLength := List.length words in
      let topics := extractTopicsFromFilename (KnowledgeDocument.source doc) in
      let embeddings := createSimpleEmbeddings words (ws_vocabulary ws) in
      let entry :=
        DocumentIndexEntry.mk doc (ws_termFrequency ws) [] docLength topics embeddings in
      Some (mkBuildState (ws_invertedIndex ws)
              (DocumentIndex.set docId entry (bs_documentIndex st))
              (ws_vocabulary ws)
              (bs_totalDocumentLength st + docLength))
  end.

(** ** Query processing *)

Definition synonymMap : list (string * list string) :=
  [ ("ai", ["artificial intelligence"; "machine learning"; "neural networks"; "intelligent systems"]);
    ("ml", ["machine learning"; "artificial intelligence"; "algorithms"; "predictive models"]);
    ("data", ["data science"; "analytics"; "datasets"; "information"]);
    ("cloud", ["cloud computing"; "aws"; "azure"; "scalability"; "distributed"]);
    ("security", ["cybersecurity"; "infosec"; "encryption"; "threats"; "protection"]);
    ("web", ["web development"; "frontend"; "backend"; "javascript"; "html"; "css"]);
    ("mobile", ["mobile development"; "ios"; "android"; "react native"; "apps"]);
    ("database", ["data storage"; "sql"; "nosql"; "mongodb"; "postgresql"]);
    ("api", ["rest"; "graphql"; "web services"; "integration"; "microservices"]);
    ("devops", ["ci/cd"; "automation"; "deployment"; "monitoring"; "infrastructure"]) ].

(** One round of [queryWords.forEach] in [expandQueryForSmallKb].  For an
    inherited key [synonymMap[word]] is truthy and has no [forEach]: the
    call throws ([None]). *)
Definition addSynonyms (expanded : list string) (word : string) : option (list string) :=
  if isInheritedKey word then None
  else match Dict.get word synonymMap with
       | Some synonyms => Some (fold_left (fun acc synonym => Str.set_add synonym acc) synonyms expanded)
       | None => Some expanded
       end.

Definition expandQueryForSmallKb (queryWords : list string) (index : KnowledgeBaseIndex.t)
  : option (list string) :=
  forEachM addSynonyms queryWords (Str.dedup queryWords).

Definition termMap : list (string * list string) :=
  [ ("ai", ["artificial intelligence"; "machine learning"; "neural networks"; "deep learning"]);
    ("ml", ["machine learning"; "algorithms"; "predictive models"; "data science"]);
    ("data", ["analytics"; "database"; "big data"; "information"]);
    ("cloud", ["aws"; "azure"; "scalability"; "distributed systems"]);
    ("security", ["cybersecurity"; "encryption"; "authentication"; "threats"]);
    ("web", ["frontend"; "backend"; "javascript"; "html"; "css"; "react"]);
    ("mobile", ["ios"; "android"; "react native"; "flutter"; "app development"]);
    ("database", ["sql"; "nosql"; "mongodb"; "postgresql"; "data storage"]);
    ("api", ["rest"; "graphql"; "microservices"; "integration"]);
    ("devops", ["ci/cd"; "docker"; "kubernetes"; "automation"]) ].

(** [getRelatedTerms] runs inside the scoring loop, on query words that
    [expandQueryForSmallKb] has already looked up without throwing. *)
Definition getRelatedTerms (queryWords : list string) : list string :=
  flat_map (fun word => match Dict.get word termMap with
                        | Some related => related
                        | None => []
                        end) queryWords.

Definition someIn (words : list string) (cues : list string) : bool :=
  existsb (fun word => Str.mem word cues) words.

Definition analyzeQueryIntent (queryWords : list string) (doc : KnowledgeDocument.t) : Z :=
  let title := KnowledgeDocument.title doc in
  let content := KnowledgeDocument.content doc in
  let tags := KnowledgeDocument.tags doc in
  let howTo :=
    if someIn queryWords ["how"; "guide"; "tutorial"; "steps"; "process"; "method"]
       && (Str.includes content "##" || Str.includes content "###" || Str.includes content "- ")
    then 15 else 0 in
  let definition :=
    if someIn queryWords ["what"; "definition"; "meaning"; "explain"; "overview"]
       && (Str.includes title "Fundamentals" || Str.includes title "Overview"
           || Str.includes content "## What")
    then 12 else 0 in
  let comparison :=
    if someIn queryWords ["vs"; "versus"; "compare"; "difference"; "better"; "best"]
       && (Str.includes content "vs" || Str.includes content "versus"
           || Str.includes content "Advantages:" || Str.includes content "Disadvantages:")
    then 18 else 0 in
  let technical :=
    if someIn queryWords ["code"; "implementation"; "api"; "framework"; "library"; "architecture"]
       && (Str.includes content "```" || Str.includes content "`"
           || Str.mem "api" tags || Str.mem "framework" tags)
    then 20 else 0 in
  howTo + definition + comparison + technical.

(** ** The regular expressions of the scorer

    A global ([g]) regular expression is run from left to right: a match is
    tried at every position from the end of the previous match on. *)

Section Scan.
(** [matchAt atLineStart s]: the text the match at the head of [s] hands to
    the scorer and the length of the match, when there is one. *)
Variable matchAt : bool -> string -> option (string * nat).

Fixpoint scanMatches (atLineStart : bool) (skip : nat) (s : string) {struct s} : list string :=
  match s with
  | EmptyString =>
      match skip, matchAt atLineStart s with
      | O, Some (found, _) => [found]
      | _, _ => []
      end
  | String c t =>
      match skip with
      | S k => scanMatches (Str.isLineTerminator c) k t
      | O =>
          match matchAt atLineStart s with
          | Some (found, len) => found :: scanMatches (Str.isLineTerminator c) (len - 1) t
          | None => scanMatches (Str.isLineTerminator c) 0 t
          end
      end
  end.

Definition allMatches (s : string) : list string := scanMatches true 0 s.
End Scan.

Fixpoint takeWhile (p : ascii -> bool) (s : string) : string :=
  match s with
  | EmptyString => EmptyString
  | String c t => if p c then String c (takeWhile p t) else EmptyString
  end.

Definition notLineTerminator (c : ascii) : bool := negb (Str.isLineTerminator c).

(** [word1.{0,50}word2]: after [word1], the longest run of at most [limit]
    characters other than line terminators that [word2] follows. *)
Fixpoint gapThen (word2 : string) (limit : nat) (s : string) : option nat :=
  match limit, s with
  | S l, String c t =>
      if Str.isLineTerminator c then (if prefix word2 s then Some O else None)
      else match gapThen word2 l t with
           | Some k => Some (S k)
           | None => if prefix word2 s then Some O else None
           end
  | _, _ => if prefix word2 s then Some O else None
  end.

Definition proximityAt (word1 word2 : string) (_ : bool) (s : string) : option (string * nat) :=
  if prefix word1 s then
    match gapThen word2 50 (Str.dropChars (String.length word1) s) with
    | Some k => Some (EmptyString, (String.length word1 + k + String.length word2)%nat)
    | None => None
    end
  else None.

(** [(lowerContent.match(new RegExp(word1 + '.{0,50}' + word2, 'gi')) || []).length];
    the words are lowercase tokens and the content is lowercased. *)
Definition proximityMatches (word1 word2 lowerContent : string) : nat :=
  List.length (allMatches (proximityAt word1 word2) lowerContent).

(** [\s+(.+)$]: the whitespace run gives back characters until a character
    other than a line terminator follows it; the offset of that character. *)
Fixpoint spacesThenText (r : string) : option nat :=
  match r with
  | EmptyString => None
  | String c t =>
      if Str.isSpace c then
        match spacesThenText t with
        | Some j => Some (S j)
        | None =>
            match t with
            | String d _ => if Str.isLineTerminator d then None else Some 1%nat
            | EmptyString => None
            end
        end
      else None
  end.

(** The capture of [(.+)$] after [\s+], and the length matched from [r] on. *)
Definition spacedLine (r : string) : option (string * nat) :=
  match spacesThenText r with
  | Some j =>
      let line := takeWhile notLineTerminator (Str.dropChars j r) in
      Some (line, (j + String.length line)%nat)
  | None => None
  end.

Definition isHash (c : ascii) : bool := (Str.code c =? 35)%N.

(** [/^#{1,6}\s+(.+)$/gm] *)
Definition headerAt (atLineStart : bool) (s : string) : option (string * nat) :=
  if atLineStart then
    let hashes := String.length (takeWhile isHash s) in
    if ((1 <=? hashes) && (hashes <=? 6))%nat then
      match spacedLine (Str.dropChars hashes s) with
      | Some (line, len) => Some (line, (hashes + len)%nat)
      | None => None
      end
    else None
  else None.

Definition isBullet (c : ascii) : bool :=
  (Str.code c =? 45)%N || (Str.code c =? 42)%N || (Str.code c =? 43)%N.

(** [/^[\s]*[-*+]\s+(.+)$/gm] *)
Definition listItemAt (atLineStart : bool) (s : string) : option (string * nat) :=
  if atLineStart then
    let indent := String.length (takeWhile Str.isSpace s) in
    match Str.dropChars indent s with
    | String c r =>
        if isBullet c then
          match spacedLine r with
          | Some (line, len) => Some (line, (indent + 1 + len)%nat)
          | None => None
          end
        else None
    | EmptyString => None
    end
  else None.

(** The offset of the first occurrence of [pat] in [s]. *)
Fixpoint indexOfString (pat s : string) : option nat :=
  if prefix pat s then Some O
  else match s with
       | EmptyString => None
       | String _ t => match indexOfString pat t with
                       | Some n => Some (S n)
                       | None => None
                       end
       end.

Definition isBacktick (c : ascii) : bool := (Str.code c =? 96)%N.

Definition fence : string := "```".

(** [/```[\s\S]*?```|`[^`\n]+`/g] *)
Definition codeSpanAt (_ : bool) (s : string) : option (string * nat) :=
  let fenced :=
    if prefix fence s then
      match indexOfString fence (Str.dropChars 3 s) with
      | Some m => Some (Str.substring0 (3 + m + 3) s, (3 + m + 3)%nat)
      | None => None
      end
    else None in
  match fenced with
  | Some found => Some found
  | None =>
      match s with
      | String c r =>
          if isBacktick c then
            let inner := takeWhile (fun d => negb (isBacktick d || (Str.code d =? 10)%N)) r in
            let len := String.length inner in
            if (1 <=? len)%nat && prefix "`" (Str.dropChars len r)
            then Some (Str.substring0 (len + 2) s, (len + 2)%nat)
            else None
          else None
      | EmptyString => None
      end
  end.

(** The shape shared by factors 9, 10 and 11: every match, every query word,
    one bonus when the lowercased match includes the word. *)
Definition countIncluded (found : list string) (queryWords : list string) : nat :=
  List.length
    (flat_map (fun text => filter (fun word => Str.includes (Str.toLowerCase text) word) queryWords)
       found).

(** ** The Markdown parser *)

(** The first match of a regular expression without the [g] flag: the
    matched text and what [matchAt] hands over for it. *)
Fixpoint firstMatch (matchAt : bool -> string -> option (string * nat))
    (atLineStart : bool) (s : string) : option (string * string) :=
  match matchAt atLineStart s with
  | Some (found, len) => Some (Str.substring0 len s, found)
  | None =>
      match s with
      | String c t => firstMatch matchAt (Str.isLineTerminator c) t
      | EmptyString => None
      end
  end.

(** [/^#\s+(.+)$/m] *)
Definition titleLineAt (atLineStart : bool) (s : string) : option (string * nat) :=
  if atLineStart then
    match s with
    | String c r =>
        if isHash c then
          match spacedLine r with
          | Some (line, len) => Some (line, (1 + len)%nat)
          | None => None
          end
        else None
    | EmptyString => None
    end
  else None.

(** [s.replace(regex, replacement)] with the [g] flag: [matchAt] gives the
    text that replaces the match at the head of the string and the length of
    the match, which is never empty here. *)
Fixpoint replaceMatches (matchAt : string -> option (string * nat)) (skip : nat) (s : string)
  : string :=
  match s with
  | EmptyString => EmptyString
  | String c t =>
      match skip with
      | S k => replaceMatches matchAt k t
      | O =>
          match matchAt s with
          | Some (replacement, len) => (replacement ++ replaceMatches matchAt (len - 1) t)%string
          | None => String c (replaceMatches matchAt 0 t)
          end
      end
  end.

Definition isNewline (c : ascii) : bool := (Str.code c =? 10)%N.
Definition isStar (c : ascii) : bool := (Str.code c =? 42)%N.

(** [/\n{3,}/g] to two line feeds *)
Definition blankLinesAt (s : string) : option (string * nat) :=
  let run := String.length (takeWhile isNewline s) in
  if (3 <=? run)%nat
  then Some (String (ascii_of_nat 10) (String (ascii_of_nat 10) EmptyString), run)
  else None.

(** [/\*{1,2}([^*]+)\*{1,2}/g] to its group *)
Definition emphasisAt (s : string) : option (string * nat) :=
  let stars := String.length (takeWhile isStar s) in
  if ((1 <=? stars) && (stars <=? 2))%nat then
    let rest := Str.dropChars stars s in
    let inner := takeWhile (fun c => negb (isStar c)) rest in
    let len := String.length inner in
    let closing := String.length (takeWhile isStar (Str.dropChars len rest)) in
    if ((1 <=? len) && (1 <=? closing))%nat
    then Some (inner, (stars + len + Nat.min 2 closing)%nat)
    else None
  else None.

(** [/`([^`]+)`/g] to its group *)
Definition codeTicksAt (s : string) : option (string * nat) :=
  match s with
  | String c rest =>
      if isBacktick c then
        let inner := takeWhile (fun d => negb (isBacktick d)) rest in
        let len := String.length inner in
        if (1 <=? len)%nat && prefix "`" (Str.dropChars len rest)
        then Some (inner, (len + 2)%nat)
        else None
      else None
  | EmptyString => None
  end.

Definition techKeywords : list string :=
  [ "ai"; "artificial intelligence"; "machine learning"; "ml"; "deep learning";
    "data science"; "analytics"; "python"; "javascript"; "typescript"; "react";
    "cloud"; "aws"; "azure"; "docker"; "kubernetes"; "blockchain"; "crypto";
    "cybersecurity"; "security"; "quantum"; "computing"; "algorithm"; "database";
    "api"; "web"; "mobile"; "devops"; "agile"; "scrum" ].

Definition isNameSeparator (c : ascii) : bool :=
  (Str.code c =? 45)%N || (Str.code c =? 95)%N || Str.isSpace c.

Definition extractTags (title content filename : string) : list string :=
  let filenameTags :=
    filter (fun tag => (2 <? String.length tag)%nat)
      (Str.split isNameSeparator (Str.removeFirst ".md" (Str.toLowerCase filename))) in
  let titleWords :=
    filter (fun word => (3 <? String.length word)%nat)
      (Str.split Str.isSpace (Str.toLowerCase title)) in
  let lowerContent := Str.toLowerCase content in
  let keywords := filter (Str.includes lowerContent) techKeywords in
  firstn 10 (Str.dedup (filenameTags ++ titleWords ++ keywords)).

Definition calculateRelevance (title content : string) (tags : list string) : Q :=
  let contentLength := String.length content in
  let score :=
    ((1 # 2)
     + (if (10 <? String.length title)%nat then 1 # 10 else 0)
     + (if Str.includes title "Fundamentals" || Str.includes title "Guide" then 1 # 10 else 0)
     + (if (500 <? contentLength)%nat then 1 # 10 else 0)
     + (if (1000 <? contentLength)%nat then 1 # 10 else 0)
     + (if (2000 <? contentLength)%nat then 1 # 10 else 0)
     + Qmin (inject_Z (Z.of_nat (List.length tags)) * (2 # 100)) (2 # 10))%Q in
  Qmin score 1.

(** [.replace(/[^a-z0-9]/g, '_')] *)
Definition idChar (c : ascii) : ascii :=
  if Str.isLower c || Str.isDigit c then c else "_"%char.

(** No step of the parser can throw: it always returns a document. *)
Definition parseMarkdownDocument (content filename : string) : option KnowledgeDocument.t :=
  let titleMatch := firstMatch titleLineAt true content in
  let title :=
    match titleMatch with
    | Some (_, heading) => Str.trim heading
    | None => Str.removeFirst ".md" filename
    end in
  let withoutTitle :=
    match titleMatch with
    | Some (matched, _) => Str.trim (Str.removeFirst matched content)
    | None => content
    end in
  let cleanContent :=
    Str.trim
      (replaceMatches codeTicksAt 0
         (replaceMatches emphasisAt 0
            (replaceMatches blankLinesAt 0 withoutTitle))) in
  let tags := extractTags title cleanContent filename in
  let relevance := calculateRelevance title cleanContent tags in
  let id := Str.map_string idChar (Str.toLowerCase (Str.removeFirst ".md" filename)) in
  Some (KnowledgeDocument.mk id title cleanContent tags filename relevance).

Section Retriever.

(** [Math.log] and [Math.sqrt] *)
Variable Math_log : Q -> Q.
Variable Math_sqrt : Q -> Q.

(** One round of the pass over [vocabulary] that fills in [idf]. *)
Definition setIdf (documentCount : nat) (inv : InvertedIndex) (term : string)
  : option InvertedIndex :=
  match Dict.get term inv with
  | None => None
  | Some e =>
      let df := List.length (InvertedIndexEntry.documents e) in
      Some (Dict.set term
              (InvertedIndexEntry.mk (InvertedIndexEntry.documents e)
                 (InvertedIndexEntry.frequency e)
                 (Math_log (Qnat documentCount / (1 + Qnat df))%Q))
              inv)
  end.

(** One round of [docEntry.termFrequency.forEach]. *)
Definition setTfidf (inv : InvertedIndex) (docLength : nat)
    (vector : list (string * Q)) (tf_term : string * nat) : option (list (string * Q)) :=
  let (term, tf) := tf_term in
  match Dict.get term inv with
  | None => None
  | Some e =>
      let idf := InvertedIndexEntry.idf e in
      let tfidf := ((Qnat tf / Qnat docLength) * idf)%Q in
      Some (Dict.set term tfidf vector)
  end.

Definition fillTfidf (inv : InvertedIndex) (e : DocumentIndexEntry.t)
  : option DocumentIndexEntry.t :=
  match forEachM (setTfidf inv (DocumentIndexEntry.length e))
          (DocumentIndexEntry.termFrequency e) (DocumentIndexEntry.tfidfVector e) with
  | None => None
  | Some vector =>
      Some (DocumentIndexEntry.mk (DocumentIndexEntry.document e)
              (DocumentIndexEntry.termFrequency e) vector (DocumentIndexEntry.length e)
              (DocumentIndexEntry.topics e) (DocumentIndexEntry.embeddings e))
  end.

(** The entries [Object.values(documentIndex)] visits are the object's own
    properties; each is updated in place. *)
Fixpoint fillTfidfAll (inv : InvertedIndex) (own : list (string * DocumentIndexEntry.t))
  : option (list (string * DocumentIndexEntry.t)) :=
  match own with
  | [] => Some []
  | (k, e) :: t =>
      match fillTfidf inv e, fillTfidfAll inv t with
      | Some e', Some t' => Some ((k, e') :: t')
      | _, _ => None
      end
  end.

Definition buildKnowledgeBaseIndex (documents : list KnowledgeDocument.t) (lastIndexed : Z)
  : option KnowledgeBaseIndex.t :=
  match forEachM indexDocument documents (mkBuildState [] DocumentIndex.empty [] 0) with
  | None => None
  | Some st =>
      match forEachM (setIdf (List.length documents)) (bs_vocabulary st) (bs_invertedIndex st) with
      | None => None
      | Some invertedIndex =>
          match fillTfidfAll invertedIndex (DocumentIndex.own (bs_documentIndex st)) with
          | None => None
          | Some own =>
              let averageDocumentLength :=
                match documents with
                | [] => None
                | _ => Some (Qnat (bs_totalDocumentLength st) / Qnat (List.length documents))%Q
                end in
              Some (KnowledgeBaseIndex.mk invertedIndex
                      (DocumentIndex.mk own (DocumentIndex.proto (bs_documentIndex st)))
                      (List.length documents)
                      (bs_vocabulary st)
                      averageDocumentLength
                      lastIndexed)
          end
      end
  end.

(** *** Numbers *)

Definition Qgtb (x y : Q) : bool := (Qnum y * QDen x <? Qnum x * QDen y)%Z.

(** [Math.round]: the nearest integer, halves upwards. *)
Definition Math_round (x : Q) : Z := Qfloor (x + (1 # 2))%Q.

Definition Qsum (l : list Q) : Q := fold_left Qplus l 0%Q.

Definition Qcount (n : nat) (bonus : Z) : Q := inject_Z (Z.of_nat n * bonus).

(** *** Embeddings *)

Fixpoint indexOf (x : string) (l : list string) : option nat :=
  match l with
  | [] => None
  | y :: t => if String.eqb x y then Some O
              else match indexOf x t with
                   | Some n => Some (S n)
                   | None => None
                   end
  end.

Fixpoint setNth {A : Type} (n : nat) (v : A) (l : list A) : list A :=
  match n, l with
  | _, [] => []
  | O, _ :: t => v :: t
  | S k, x :: t => x :: setNth k v t
  end.

Definition createQueryEmbedding (queryWords : list string) (vocabulary : list string) : list Q :=
  let embeddingSize := Nat.min 50 (List.length vocabulary) in
  fold_left
    (fun embedding word =>
       match indexOf word vocabulary with
       | Some index => if (index <? embeddingSize)%nat then setNth index 1%Q embedding else embedding
       | None => embedding
       end)
    queryWords (repeat 0%Q embeddingSize).

(** The three sums of the loop over [i < Math.min(a.length, b.length)]. *)
Fixpoint dotNorms (a b : list Q) (acc : Q * Q * Q) : Q * Q * Q :=
  match a, b with
  | x :: a', y :: b' =>
      let '(dotProduct, normA, normB) := acc in
      dotNorms a' b' (dotProduct + x * y, normA + x * x, normB + y * y)%Q
  | _, _ => acc
  end.

Definition cosineSimilarity (a b : list Q) : Q :=
  let '(dotProduct, normA, normB) := dotNorms a b (0, 0, 0)%Q in
  if Qeq_bool normA 0 || Qeq_bool normB 0 then 0%Q
  else (dotProduct / (Math_sqrt normA * Math_sqrt normB))%Q.

(** *** The eighteen factors

    Each factor is the amount the scoring loop adds to [score] for one
    candidate.  [query] is the request's trimmed query, [queryWords] its
    tokens and [expandedQuery] the tokens with their synonyms. *)

Section Factors.
Variable index : KnowledgeBaseIndex.t.
Variable query : string.
Variable queryWords : list string.
Variable expandedQuery : list string.
Variable docEntry : DocumentIndexEntry.t.

Let doc := DocumentIndexEntry.document docEntry.
Let lowerTitle := Str.toLowerCase (KnowledgeDocument.title doc).
Let lowerContent := Str.toLowerCase (KnowledgeDocument.content doc).
Let lowerQuery := Str.toLowerCase query.

(** [docEntry.tfidfVector.get(term) || 0] *)
Definition tfidfOf (term : string) : Q :=
  match Dict.get term (DocumentIndexEntry.tfidfVector docEntry) with
  | Some x => x
  | None => 0%Q
  end.

(** 1. TF-IDF *)
Definition tfidfFactor : Q :=
  let positive := filter (fun x => Qgtb x 0) (map tfidfOf expandedQuery) in
  match positive with
  | [] => 0%Q
  | _ => (Qsum positive * 150)%Q
  end.

(** 2. Topics *)
Definition topicFactor : Q :=
  Qcount
    (List.length
       (filter (fun word =>
                  existsb (fun topic => Str.includes topic word || Str.includes word topic)
                    (DocumentIndexEntry.topics docEntry))
          expandedQuery))
    50.

(** 3. The exact phrase, in the title and in the content *)
Definition exactTitleFactor : Q := if Str.includes lowerTitle lowerQuery then 120%Q else 0%Q.
Definition exactContentFactor : Q := if Str.includes lowerContent lowerQuery then 80%Q else 0%Q.

(** 4. Two-word phrases: [queryWords[i] + ' ' + queryWords[i + 1]] *)
Fixpoint phrases (words : list string) : list string :=
  match words with
  | w1 :: ((w2 :: _) as t) => (w1 ++ " " ++ w2)%string :: phrases t
  | _ => []
  end.

Definition phraseTitleFactor : Q :=
  Qcount (List.length (filter (Str.includes lowerTitle) (phrases queryWords))) 40.

Definition phraseContentFactor : Q :=
  Qcount (List.length (filter (Str.includes lowerContent) (phrases queryWords))) 25.

(** 5. Tags *)
Definition tagMatches (word tag : string) : bool :=
  let lowerTag := Str.toLowerCase tag in
  String.eqb lowerTag word || Str.includes lowerTag word || Str.includes word lowerTag.

Definition tagFactor : Q :=
  Qcount
    (List.length
       (flat_map (fun word => filter (tagMatches word) (KnowledgeDocument.tags doc))
          expandedQuery))
    15.

(** 6. Similarity of the embeddings *)
Definition similarityFactor : Q :=
  let queryEmbedding := createQueryEmbedding expandedQuery (KnowledgeBaseIndex.vocabulary index) in
  let similarity := cosineSimilarity queryEmbedding (DocumentIndexEntry.embeddings docEntry) in
  if Qgtb similarity (1 # 10) then (similarity * 35)%Q else 0%Q.

(** 7. Coverage of the query *)
Definition coverageFactor : Q :=
  let uniqueQueryWords := Str.dedup queryWords in
  let queryCoverage := List.length (filter (Str.includes lowerContent) uniqueQueryWords) in
  let coverageRatio := (Qnat queryCoverage / Qnat (List.length uniqueQueryWords))%Q in
  if Qgtb coverageRatio 0 then (coverageRatio * 30)%Q else 0%Q.

(** 8. Proximity of consecutive query words *)
Fixpoint proximityCount (words : list string) : nat :=
  match words with
  | w1 :: ((w2 :: _) as t) => (proximityMatches w1 w2 lowerContent + proximityCount t)%nat
  | _ => O
  end.

Definition proximityFactor : Q := Qcount (proximityCount queryWords) 8.

(** 9. Section headers, 10. code spans, 11. list items *)
Definition headerFactor : Q :=
  Qcount (countIncluded (allMatches headerAt (KnowledgeDocument.content doc)) queryWords) 12.

Definition codeFactor : Q :=
  Qcount (countIncluded (allMatches codeSpanAt (KnowledgeDocument.content doc)) queryWords) 10.

Definition listFactor : Q :=
  Qcount (countIncluded (allMatches listItemAt (KnowledgeDocument.content doc)) queryWords) 6.

(** 12. Density, 13. length *)
Definition wordCount : nat :=
  List.length (Str.split Str.isSpace (KnowledgeDocument.content doc)).

Definition densityFactor : Q :=
  let uniqueWords := Str.dedup (Str.split Str.isSpace lowerContent) in
  let densityRatio := (Qnat (List.length uniqueWords) / Qnat wordCount)%Q in
  if Qgtb densityRatio (3 # 10) then (densityRatio * 15)%Q else 0%Q.

Definition lengthFactor : Q :=
  ((if (500 <? wordCount)%nat then 10 else 0)
   + (if (1000 <? wordCount)%nat then 15 else 0)
   + (if (2000 <? wordCount)%nat then 20 else 0))%Q.

(** 14. The file name *)
Definition filenameFactor : Q :=
  let lowerFilename := Str.toLowerCase (KnowledgeDocument.source doc) in
  Qcount (List.length (filter (Str.includes lowerFilename) queryWords)) 8.

(** 15. Temporal queries *)
Definition temporalTerms : list string :=
  ["recent"; "latest"; "new"; "current"; "modern"; "2024"; "2025"].

Definition temporalKeywords : list string :=
  ["recent"; "latest"; "new"; "current"; "modern"; "2024"; "2025"; "advances"; "breakthroughs";
   "developments"; "trends"; "emerging"; "cutting-edge"; "state-of-the-art"].

Definition futureTerms : list string :=
  ["future"; "emerging"; "evolving"; "advancing"; "progress"; "innovation"; "next-generation";
   "upcoming"].

Definition hasTemporalQuery : bool := someIn queryWords temporalTerms.

Definition temporalContentScore : Z :=
  Z.of_nat (List.length (filter (Str.includes lowerContent) temporalKeywords)) * 20
  + Z.of_nat (List.length (filter (Str.includes lowerContent) futureTerms)) * 12.

Definition temporalTitleScore : Z :=
  Z.of_nat (List.length (filter (Str.includes lowerTitle) temporalKeywords)) * 30.

Definition temporalFactor : Q :=
  if hasTemporalQuery then inject_Z (temporalContentScore + temporalTitleScore) else 0%Q.

(** 16. Intent, 17. cross references, 18. the document's own relevance *)
Definition intentFactor : Q := inject_Z (analyzeQueryIntent queryWords doc).

Definition crossRefFactor : Q :=
  Qcount (List.length (filter (Str.includes lowerContent) (getRelatedTerms queryWords))) 5.

Definition relevanceFactor : Q := (KnowledgeDocument.relevance doc * 8)%Q.

(** The value of [score] when the loop body reaches the threshold test.  The
    sum is exact here, where the code rounds to a double at every addition:
    the theorems about it state orderings and bounds, which the rounding
    keeps. *)
Definition rawScore : Q :=
  Qsum [ tfidfFactor; topicFactor; exactTitleFactor; exactContentFactor;
         phraseTitleFactor; phraseContentFactor; tagFactor; similarityFactor;
         coverageFactor; proximityFactor; headerFactor; codeFactor; listFactor;
         densityFactor; lengthFactor; filenameFactor; temporalFactor; intentFactor;
         crossRefFactor; relevanceFactor ].

(** [Math.min(Math.round((score / 2000) * 100), 100)] *)
Definition normalizeScore (score : Q) : Z := Z.min (Math_round ((score / 2000) * 100)%Q) 100.

(** The candidate's result, when its score passes the threshold. *)
Definition scoreCandidate : list SearchResult.t :=
  if Qgtb rawScore 8 then [SearchResult.mk doc (normalizeScore rawScore)] else [].

End Factors.

(** *** Ranking *)

(** [results.sort((a, b) => b.searchScore - a.searchScore)]: the stable sort
    by descending score.  An element goes in front of the elements that
    followed it in the input and score no more than it. *)
Fixpoint insertByScore (r : SearchResult.t) (l : list SearchResult.t) : list SearchResult.t :=
  match l with
  | [] => [r]
  | x :: t =>
      if SearchResult.searchScore x <=? SearchResult.searchScore r then r :: l
      else x :: insertByScore r t
  end.

Definition sortByScore (l : list SearchResult.t) : list SearchResult.t :=
  fold_right insertByScore [] l.

(** [array.slice(0, end)]: a negative [end] counts from the end of the array. *)
Definition slice0 {A : Type} (end_ : Z) (l : list A) : list A :=
  if end_ <? 0 then firstn (Z.to_nat (Z.of_nat (List.length l) + end_)) l
  else firstn (Z.to_nat end_) l.

(** *** The fallback search *)

Definition basicStopWords : list string :=
  [ "what"; "is"; "are"; "the"; "how"; "why"; "when"; "where"; "can"; "could"; "would"; "should";
    "do"; "does"; "did"; "a"; "an"; "and"; "or"; "but"; "in"; "on"; "at"; "to"; "for"; "of";
    "with"; "by"; "from"; "about"; "search"; "find"; "tell"; "me"; "give"; "show"; "explain";
    "describe"; "want"; "know"; "need"; "help" ].

Definition basicQueryWords (query : string) : list string :=
  filter (keepWord basicStopWords) (Str.split Str.isSpace (Str.toLowerCase query)).

Definition basicScore (queryWords : list string) (doc : KnowledgeDocument.t) : Z :=
  let lowerTitle := Str.toLowerCase (KnowledgeDocument.title doc) in
  let lowerContent := Str.toLowerCase (KnowledgeDocument.content doc) in
  fold_left
    (fun score word =>
       score + (if Str.includes lowerTitle word then 10 else 0)
             + (if Str.includes lowerContent word then 5 else 0))
    queryWords 0.

Definition basicCandidate (queryWords : list string) (doc : KnowledgeDocument.t)
  : list SearchResult.t :=
  let score := basicScore queryWords doc in
  if 0 <? score
  then [SearchResult.mk doc (Z.min (Math_round ((inject_Z score / 50) * 100)%Q) 100)]
  else [].

Definition searchDocumentsBasic (query : string) (documents : list KnowledgeDocument.t)
    (maxResults : Z) : list SearchResult.t :=
  let queryWords := basicQueryWords query in
  match queryWords with
  | [] => []
  | _ => slice0 maxResults (sortByScore (flat_map (basicCandidate queryWords) documents))
  end.

(** *** The indexed search *)

(** [candidateDocIds]: the ids the inverted index lists under the expanded
    terms, in the order they are first met. *)
Definition candidateDocIds (index : KnowledgeBaseIndex.t) (expandedQuery : list string)
  : list string :=
  fold_left
    (fun candidates term =>
       match Dict.get term (KnowledgeBaseIndex.invertedIndex index) with
       | Some termEntry =>
           fold_left (fun acc docId => Str.set_add docId acc)
             (InvertedIndexEntry.documents termEntry) candidates
       | None => candidates
       end)
    expandedQuery [].

(** The results pushed by [candidateDocIds.forEach], before sorting. *)
Definition scoredCandidates (index : KnowledgeBaseIndex.t) (query : string)
    (queryWords expandedQuery : list string) : list SearchResult.t :=
  flat_map
    (fun docId =>
       match DocumentIndex.get docId (KnowledgeBaseIndex.documentIndex index) with
       | Some docEntry => scoreCandidate index query queryWords expandedQuery docEntry
       | None => []
       end)
    (candidateDocIds index expandedQuery).

(** [knowledgeBaseIndex] is the module's cache, read by [searchDocuments].
    An exception inside the [try] block, which only query expansion can
    raise, is answered by the fallback search. *)
Definition searchDocuments (knowledgeBaseIndex : option KnowledgeBaseIndex.t)
    (query : string) (documents : list KnowledgeDocument.t) (maxResults : Z)
  : list SearchResult.t :=
  match knowledgeBaseIndex with
  | None => searchDocumentsBasic query documents maxResults
  | Some index =>
      let queryWords := tokenizeAndNormalize query in
      match queryWords with
      | [] => []
      | _ =>
          match expandQueryForSmallKb queryWords index with
          | None => searchDocumentsBasic query documents maxResults
          | Some expandedQuery =>
              match candidateDocIds index expandedQuery with
              | [] => []
              | _ =>
                  slice0 maxResults
                    (sortByScore (scoredCandidates index query queryWords expandedQuery))
              end
          end
      end
  end.

(** ** The index cache and the loader *)

Definition CACHE_TTL : Z := 5 * 60 * 1000.
Definition MAX_RESULTS : Z := 5.
Definition MAX_CONTENT_LENGTH : nat := 4000.

(** The knowledge-base directory as the loader sees it: [fs.existsSync],
    [fs.readdirSync] and [fs.readFileSync]; [None] is a thrown error. *)
Record FileSystem : Type := mkFileSystem {
  existsSync : bool;
  readdirSync : option (list string);
  readFileSync : string -> option string
}.

(** [files.sort()]: ascending by character codes. *)
Fixpoint insertName (x : string) (l : list string) : list string :=
  match l with
  | [] => [x]
  | y :: t => if String.leb x y then x :: l else y :: insertName x t
  end.

Definition sortNames (l : list string) : list string := fold_right insertName [] l.

(** One round of [for (const file of files)]: a file that cannot be read or
    parsed is skipped. *)
Definition loadFile (fs : FileSystem) (file : string) : list KnowledgeDocument.t :=
  match readFileSync fs file with
  | Some content =>
      match parseMarkdownDocument content file with
      | Some doc => [doc]
      | None => []
      end
  | None => []
  end.

(** [loadKnowledgeBaseDocuments]: the documents it returns and the value it
    leaves in [knowledgeBaseIndex]. *)
Definition loadKnowledgeBaseDocuments (fs : FileSystem) (now : Z)
    (knowledgeBaseIndex : option KnowledgeBaseIndex.t)
  : list KnowledgeDocument.t * option KnowledgeBaseIndex.t :=
  let rebuild :=
    if negb (existsSync fs) then ([], Some (createEmptyIndex now))
    else
      match readdirSync fs with
      | None => ([], Some (createEmptyIndex now))
      | Some names =>
          let files := sortNames (filter (fun file => Str.endsWith file ".md") names) in
          match files with
          | [] => ([], Some (createEmptyIndex now))
          | _ =>
              let documents := flat_map (loadFile fs) files in
              match buildKnowledgeBaseIndex documents now with
              | Some index => (documents, Some index)
              | None => ([], Some (createEmptyIndex now))
              end
          end
      end in
  match knowledgeBaseIndex with
  | Some index =>
      if now - KnowledgeBaseIndex.lastIndexed index <? CACHE_TTL
      then (map DocumentIndexEntry.document
              (DocumentIndex.values (KnowledgeBaseIndex.documentIndex index)),
            knowledgeBaseIndex)
      else rebuild
  | None => rebuild
  end.

(** ** The request handler *)

(** The values a field of the request's JSON body can hold, as far as the
    handler tells them apart.  A number is an integer of at most twenty
    digits, which [ToString] prints in decimal. *)
Inductive JSValue : Type :=
| JSUndefined
| JSNull
| JSBoolean (b : bool)
| JSNumber (n : Z)
| JSString (s : string).

Definition ToString (v : JSValue) : string :=
  match v with
  | JSUndefined => "undefined"
  | JSNull => "null"
  | JSBoolean true => "true"
  | JSBoolean false => "false"
  | JSNumber n => NilZero.string_of_int (Z.to_int n)
  | JSString s => s
  end.

Definition truthy (v : JSValue) : bool :=
  match v with
  | JSUndefined | JSNull => false
  | JSBoolean b => b
  | JSNumber n => negb (n =? 0)
  | JSString s => negb (String.eqb s EmptyString)
  end.

Definition digitValue (radix : N) (c : ascii) : option N :=
  let v :=
    if Str.isDigit c then Some (Str.code c - 48)%N
    else if Str.isLower c then Some (Str.code c - 87)%N
    else if Str.isUpper c then Some (Str.code c - 55)%N
    else None in
  match v with
  | Some d => if (d <? radix)%N then Some d else None
  | None => None
  end.

(** The value of the longest prefix of digits, and whether there was one. *)
Fixpoint readDigits (radix : N) (s : string) (acc : N) (seen : bool) : option N :=
  match s with
  | EmptyString => if seen then Some acc else None
  | String c t =>
      match digitValue radix c with
      | Some d => readDigits radix t (radix * acc + d)%N true
      | None => if seen then Some acc else None
      end
  end.

(** [parseInt(text)] without a radix: leading whitespace, a sign, a [0x]
    prefix for base sixteen, then digits; [None] is [NaN]. *)
Definition parseInt (text : string) : option Z :=
  let s1 := Str.trimStart text in
  let '(negative, s2) :=
    match s1 with
    | String "-"%char t => (true, t)
    | String "+"%char t => (false, t)
    | _ => (false, s1)
    end in
  let '(radix, s3) :=
    if prefix "0x" s2 || prefix "0X" s2 then (16%N, Str.dropChars 2 s2) else (10%N, s2) in
  match readDigits radix s3 0%N false with
  | Some n => Some (if negative then - Z.of_N n else Z.of_N n)
  | None => None
  end.

(** [Math.min(parseInt(body.maxResults) || MAX_RESULTS, 10)] *)
Definition effectiveMaxResults (maxResults : JSValue) : Z :=
  let parsed :=
    match parseInt (ToString maxResults) with
    | Some n => if n =? 0 then MAX_RESULTS else n
    | None => MAX_RESULTS
    end in
  Z.min parsed 10.

Record SearchRequest : Type := mkSearchRequest {
  req_query : JSValue;
  req_maxResults : JSValue
}.

(** The JSON body of the answer and its HTTP status; the elapsed time
    [searchTime] is left out. *)
Record SearchResponse : Type := mkSearchResponse {
  results : list SearchResult.t;
  totalDocuments : nat;
  success : bool;
  error : option string;
  status : Z
}.

Definition failure (message : string) (code : Z) : SearchResponse :=
  mkSearchResponse [] 0 false (Some message) code.

Definition trimContent (r : SearchResult.t) : SearchResult.t :=
  let doc := SearchResult.doc r in
  let content := KnowledgeDocument.content doc in
  let trimmed :=
    if (MAX_CONTENT_LENGTH <? String.length content)%nat
    then (Str.substring0 MAX_CONTENT_LENGTH content ++ "...")%string
    else content in
  SearchResult.mk
    (KnowledgeDocument.mk (KnowledgeDocument.id doc) (KnowledgeDocument.title doc) trimmed
       (KnowledgeDocument.tags doc) (KnowledgeDocument.source doc)
       (KnowledgeDocument.relevance doc))
    (SearchResult.searchScore r).

(** [(body.query || '').toString().trim()] *)
Definition requestQuery (body : SearchRequest) : string :=
  Str.trim (if truthy (req_query body) then ToString (req_query body) else EmptyString).

(** [POST]: the answer and the value left in [knowledgeBaseIndex].  The
    search is synchronous, so the race against the timeout is won by the
    search; and no step of the [try] block raises on a body that is a JSON
    object, so the handler's own [catch] is not reached. *)
Definition POST (fs : FileSystem) (now : Z) (knowledgeBaseIndex : option KnowledgeBaseIndex.t)
    (body : SearchRequest) : SearchResponse * option KnowledgeBaseIndex.t :=
  let query := requestQuery body in
  let maxResults := effectiveMaxResults (req_maxResults body) in
  if (String.length query <? 2)%nat then
    (failure "Query must be at least 2 characters long" 400, knowledgeBaseIndex)
  else if (500 <? String.length query)%nat then
    (failure "Query is too long (max 500 characters)" 400, knowledgeBaseIndex)
  else
    let '(documents, cache) := loadKnowledgeBaseDocuments fs now knowledgeBaseIndex in
    match documents with
    | [] => (failure "No documents available in knowledge base" 503, cache)
    | _ =>
        let searchResults := searchDocuments cache query documents maxResults in
        (mkSearchResponse (map trimContent searchResults) (List.length documents) true None 200,
         cache)
    end.

End Retriever.

(** ** The information endpoint *)

Definition SEARCH_TIMEOUT : Z := 5000.

Module IndexStatus.
Record t : Type := mk {
  isIndexed : bool;
  indexedDocuments : nat;
  vocabularySize : nat;
  averageDocLength : option Q;
  indexAge : Z;
  indexTTL : Z
}.
End IndexStatus.

Module ApiInformation.
(** The fields of the answer that are computed; the descriptive texts and
    the [lastUpdated] time stamp are left out. *)
Record t : Type := mk {
  documentsAvailable : nat;
  indexStatus : IndexStatus.t;
  maxContentLength : nat;
  searchTimeout : Z;
  maxResults : Z
}.
End ApiInformation.

(** [GET]: it lists the directory outside any [try] block, so a directory
    that cannot be listed makes it throw ([None]).  It reads the cached
    index and leaves it as it is. *)
Definition GET (fs : FileSystem) (now : Z) (knowledgeBaseIndex : option KnowledgeBaseIndex.t)
  : option ApiInformation.t :=
  let documentsCount :=
    if existsSync fs then
      match readdirSync fs with
      | Some names => Some (List.length (filter (fun f => Str.endsWith f ".md") names))
      | None => None
      end
    else Some 0%nat in
  let indexStatus :=
    match knowledgeBaseIndex with
    | Some index =>
        IndexStatus.mk true
          (KnowledgeBaseIndex.totalDocuments index)
          (List.length (KnowledgeBaseIndex.vocabulary index))
          (KnowledgeBaseIndex.averageDocumentLength index)
          (now - KnowledgeBaseIndex.lastIndexed index)
          CACHE_TTL
    | None => IndexStatus.mk false 0 0 (Some 0%Q) 0 CACHE_TTL
    end in
  match documentsCount with
  | Some count =>
      Some (ApiInformation.mk count indexStatus MAX_CONTENT_LENGTH SEARCH_TIMEOUT MAX_RESULTS)
  | None => None
  end.

(** ** Concrete instances

    Rational approximations of [Math.log] and [Math.sqrt], used to run the
    model on sample inputs. *)

Module Approx.

Fixpoint atanhSeries (terms : nat) (z zk : Q) (k : positive) : Q :=
  match terms with
  | O => 0%Q
  | S n => (zk * (1 # k) + atanhSeries n z (zk * z * z) (k + 2)%positive)%Q
  end.

(** [ln x = 2 * atanh ((x - 1) / (x + 1))], six terms of the series. *)
Definition log (x : Q) : Q :=
  let z := Qred ((x - 1) / (x + 1))%Q in
  Qred (2 * atanhSeries 6 z z 1)%Q.

(** The square root to six decimal places. *)
Definition sqrt (x : Q) : Q :=
  (Z.sqrt (Qnum x * QDen x * 1000000000000) # (Qden x * 1000000))%Q.

End Approx.

(** ** Vocabulary of the statements *)

Section Statements.
Variable Math_sqrt : Q -> Q.

(** The results the fallback search pushes, before it sorts them. *)
Definition basicPassing (query : string) (documents : list KnowledgeDocument.t)
  : list SearchResult.t :=
  match basicQueryWords query with
  | [] => []
  | queryWords => flat_map (basicCandidate queryWords) documents
  end.

(** The candidates that pass the minimum-score threshold, each with its
    normalized score, in the order [searchDocuments] pushes them. *)
Definition passingCandidates (knowledgeBaseIndex : option KnowledgeBaseIndex.t)
    (query : string) (documents : list KnowledgeDocument.t) : list SearchResult.t :=
  match knowledgeBaseIndex with
  | None => basicPassing query documents
  | Some index =>
      match tokenizeAndNormalize query with
      | [] => []
      | queryWords =>
          match expandQueryForSmallKb queryWords index with
          | None => basicPassing query documents
          | Some expandedQuery => scoredCandidates Math_sqrt index query queryWords expandedQuery
          end
      end
  end.

End Statements.

(** A document contains a term when the term is among the tokens the
    index builder reads from its title and content. *)
Definition containsTerm (term : string) (doc : KnowledgeDocument.t) : bool :=
  Str.mem term (documentWords doc).

(** [df]: the number of documents that contain the term. *)
Definition documentFrequency (term : string) (documents : list KnowledgeDocument.t) : nat :=
  List.length (filter (containsTerm term) documents).

(** The ids listed under a term, and none for a term without an entry. *)
Definition postingsOf (inv : InvertedIndex) (term : string) : list string :=
  match Dict.get term inv with
  | Some e => InvertedIndexEntry.documents e
  | None => []
  end.

(** The query's terms: its tokens, and the synonyms query expansion adds
    for them. *)
Definition isQueryTerm (query : string) (term : string) : Prop :=
  In term (tokenizeAndNormalize query)
  \/ exists word synonyms,
       In word (tokenizeAndNormalize query)
       /\ Dict.get word synonymMap = Some synonyms
       /\ In term synonyms.

(** Query expansion raises on a query with one of these tokens. *)
Definition hasInheritedKey (query : string) : bool :=
  existsb isInheritedKey (tokenizeAndNormalize query).

Definition titleOf (docEntry : DocumentIndexEntry.t) : string :=
  KnowledgeDocument.title (DocumentIndexEntry.document docEntry).

(** The test of factor 3 on the title. *)
Definition hasExactTitle (query : string) (docEntry : DocumentIndexEntry.t) : bool :=
  Str.includes (Str.toLowerCase (titleOf docEntry)) (Str.toLowerCase query).

(** The cosine similarity that factor 6 compares with 0.1. *)
Definition similarityOf (Math_sqrt : Q -> Q) (index : KnowledgeBaseIndex.t)
    (expandedQuery : list string) (docEntry : DocumentIndexEntry.t) : Q :=
  cosineSimilarity Math_sqrt
    (createQueryEmbedding expandedQuery (KnowledgeBaseIndex.vocabulary index))
    (DocumentIndexEntry.embeddings docEntry).

(** Two index entries of documents that agree on every field but the title,
    where the entry [a] is not behind the entry [b] on what else the scorer
    derives from a title without a bound: the title of [a] includes every
    two-word phrase of the query and every temporal keyword that the title of
    [b] includes, and no positive TF-IDF weight of a term of the query is
    smaller for [a].  The two factors left, the similarity of the embedding
    and the title test of a definition query, are bounded: by 35, the cosine
    being at most 1 (which is assumed of [b], [Math.sqrt] being a parameter),
    and by 12. *)
Record AlikeButTitle (Math_sqrt : Q -> Q) (index : KnowledgeBaseIndex.t)
    (queryWords expandedQuery : list string) (a b : DocumentIndexEntry.t) : Prop :=
  mkAlikeButTitle {
  ab_content :
    KnowledgeDocument.content (DocumentIndexEntry.document a)
    = KnowledgeDocument.content (DocumentIndexEntry.document b);
  ab_tags :
    KnowledgeDocument.tags (DocumentIndexEntry.document a)
    = KnowledgeDocument.tags (DocumentIndexEntry.document b);
  ab_source :
    KnowledgeDocument.source (DocumentIndexEntry.document a)
    = KnowledgeDocument.source (DocumentIndexEntry.document b);
  ab_relevance :
    KnowledgeDocument.relevance (DocumentIndexEntry.document a)
    = KnowledgeDocument.relevance (DocumentIndexEntry.document b);
  ab_topics : DocumentIndexEntry.topics a = DocumentIndexEntry.topics b;
  ab_tfidf : forall term,
      In term expandedQuery ->
      (0 < tfidfOf b term)%Q -> (tfidfOf b term <= tfidfOf a term)%Q;
  ab_cosine : (similarityOf Math_sqrt index expandedQuery b <= 1)%Q;
  ab_phrases : forall phrase,
      In phrase (phrases queryWords) ->
      Str.includes (Str.toLowerCase (titleOf b)) phrase = true ->
      Str.includes (Str.toLowerCase (titleOf a)) phrase = true;
  ab_temporal : forall keyword,
      In keyword temporalKeywords ->
      Str.includes (Str.toLowerCase (titleOf b)) keyword = true ->
      Str.includes (Str.toLowerCase (titleOf a)) keyword = true
}.

(** The tokens on which the index builder raises. *)
Definition hasInheritedToken (documents : list KnowledgeDocument.t) : bool :=
  existsb (fun doc => existsb isInheritedKey (documentWords doc)) documents.

(** The order of the result list: scores do not increase. *)
Definition scoreGe (a b : SearchResult.t) : Prop :=
  SearchResult.searchScore b <= SearchResult.searchScore a.

(** The cached index is older than its time to live. *)
Definition cacheExpired (now : Z) (index : KnowledgeBaseIndex.t) : Prop :=
  CACHE_TTL <= now - KnowledgeBaseIndex.lastIndexed index.

(** The handler accepts a trimmed query of this length. *)
Definition validLength (query : string) : Prop :=
  (2 <= String.length query <= 500)%nat.

(** *** Invariants of the index builder *)

(** The state of the first pass after the documents [done], in order. *)
Record FirstPass (done : list KnowledgeDocument.t) (st : BuildState) : Prop := mkFirstPass {
  fp_postings : forall t,
      postingsOf (bs_invertedIndex st) t
      = map KnowledgeDocument.id (filter (containsTerm t) done);
  fp_vocabulary : forall t,
      In t (bs_vocabulary st) <-> In t (Dict.keys (bs_invertedIndex st));
  fp_entries : forall k e,
      DocumentIndex.get k (bs_documentIndex st) = Some e ->
      In (DocumentIndexEntry.document e) done
      /\ KnowledgeDocument.id (DocumentIndexEntry.document e) = k
      /\ DocumentIndexEntry.length e = List.length (documentWords (DocumentIndexEntry.document e))
      /\ DocumentIndexEntry.termFrequency e = countWords (documentWords (DocumentIndexEntry.document e))
      /\ DocumentIndexEntry.tfidfVector e = [];
  fp_indexed : forall d,
      In d done ->
      exists e, DocumentIndex.get (KnowledgeDocument.id d) (bs_documentIndex st) = Some e
                /\ DocumentIndexEntry.document e = d
}.

(** Every term a finished first pass has seen has an entry in the inverted
    index: the terms of the vocabulary and the terms counted for a document. *)
Definition termsIndexed (st : BuildState) : Prop :=
  (forall t, In t (bs_vocabulary st) -> In t (Dict.keys (bs_invertedIndex st)))
  /\ (forall k e t,
         In (k, e) (DocumentIndex.own (bs_documentIndex st)) ->
         In t (Dict.keys (DocumentIndexEntry.termFrequency e)) ->
         In t (Dict.keys (bs_invertedIndex st))).

Section SecondPass.
Variable Math_log : Q -> Q.

(** The value the second pass stores for a term listed under [df] documents. *)
Definition idfFormula (documentCount df : nat) : Q :=
  Math_log (Qnat documentCount / (1 + Qnat df))%Q.

(** How the entry of a term changes over a stretch of the second pass. *)
Definition idfUpdated (documentCount : nat) (visited : list string) (term : string)
    (before after : option InvertedIndexEntry.t) : Prop :=
  match before, after with
  | Some e, Some e' =>
      InvertedIndexEntry.documents e' = InvertedIndexEntry.documents e
      /\ (In term visited ->
          InvertedIndexEntry.idf e'
          = idfFormula documentCount (List.length (InvertedIndexEntry.documents e)))
      /\ (~ In term visited -> InvertedIndexEntry.idf e' = InvertedIndexEntry.idf e)
  | None, None => True
  | _, _ => False
  end.

End SecondPass.

(** *** Strings and tokens *)

(** Every character of a string passes a test. *)
Fixpoint allChars (p : ascii -> bool) (s : string) : bool :=
  match s with
  | EmptyString => true
  | String c t => p c && allChars p t
  end.

(** The characters of a token: [a-z0-9_]. *)
Definition isTokenChar (c : ascii) : bool :=
  Str.isDigit c || Str.isLower c || (Str.code c =? 95)%N.

Definition notUpper (c : ascii) : bool := negb (Str.isUpper c).

(** What the tokenizer lets through: more than two characters, each of them
    a token character, and not a stop word. *)
Definition isToken (word : string) : Prop :=
  (2 < String.length word)%nat
  /\ Str.mem word stopWords = false
  /\ allChars isTokenChar word = true.

(** *** The index *)

(** [frequency] of a term's entry, and 0 for a term without one. *)
Definition frequencyOf (inv : InvertedIndex) (term : string) : nat :=
  match Dict.get term inv with
  | Some e => InvertedIndexEntry.frequency e
  | None => 0%nat
  end.

(** The number of times a term occurs among the tokens of the documents. *)
Definition occurrences (term : string) (documents : list KnowledgeDocument.t) : nat :=
  list_sum (map (fun doc => count_occ string_dec (documentWords doc) term) documents).

(** The number of tokens of the documents. *)
Definition totalLength (documents : list KnowledgeDocument.t) : nat :=
  list_sum (map (fun doc => List.length (documentWords doc)) documents).

(** The tokens of the documents in the order in which they are first met:
    the order of insertion into the [Set] [vocabulary]. *)
Definition firstOccurrences (documents : list KnowledgeDocument.t) : list string :=
  Str.dedup (flat_map documentWords documents).

(** The entries of a document index, by key and document. *)
Definition filedDocuments (own : list (string * DocumentIndexEntry.t))
  : list (string * KnowledgeDocument.t) :=
  map (fun entry => (fst entry, DocumentIndexEntry.document (snd entry))) own.

(** The embedding of a list of words over a vocabulary: for each of the
    first fifty terms, the number of times it occurs among the words. *)
Definition countVector (words vocabulary : list string) : list Q :=
  map (fun term => Qnat (count_occ string_dec words term)) (firstn 50 vocabulary).

(** The binary embedding of a query over a vocabulary. *)
Definition presenceVector (queryWords vocabulary : list string) : list Q :=
  map (fun term => if Str.mem term queryWords then 1%Q else 0%Q) (firstn 50 vocabulary).

(** *** Results *)

Definition resultId (r : SearchResult.t) : string := KnowledgeDocument.id (SearchResult.doc r).

(** A query word occurs in the lowercased title or content of a document. *)
Definition mentions (word : string) (doc : KnowledgeDocument.t) : bool :=
  Str.includes (Str.toLowerCase (KnowledgeDocument.title doc)) word
  || Str.includes (Str.toLowerCase (KnowledgeDocument.content doc)) word.

(** *** The directory *)

(** The order of [files.sort()]. *)
Definition nameLe (a b : string) : Prop := String.leb a b = true.

(** [readFileSync] returns the file's text. *)
Definition readable (fs : FileSystem) (file : string) : bool :=
  match readFileSync fs file with
  | Some _ => true
  | None => false
  end.

(** The Markdown files of a directory listing, in the order the loader reads
    them, and the documents it parses from them. *)
Definition markdownFiles (names : list string) : list string :=
  sortNames (filter (fun file => Str.endsWith file ".md") names).

Definition parsedDocuments (fs : FileSystem) (names : list string) : list KnowledgeDocument.t :=
  flat_map (loadFile fs) (markdownFiles names).

(** *** Numbers in decimal *)

(** The number a string of decimal digits denotes, read from the left. *)
Fixpoint uintValue (d : Decimal.uint) (acc : N) : N :=
  match d with
  | Decimal.Nil => acc
  | Decimal.D0 l => uintValue l (10 * acc)
  | Decimal.D1 l => uintValue l (10 * acc + 1)
  | Decimal.D2 l => uintValue l (10 * acc + 2)
  | Decimal.D3 l => uintValue l (10 * acc + 3)
  | Decimal.D4 l => uintValue l (10 * acc + 4)
  | Decimal.D5 l => uintValue l (10 * acc + 5)
  | Decimal.D6 l => uintValue l (10 * acc + 6)
  | Decimal.D7 l => uintValue l (10 * acc + 7)
  | Decimal.D8 l => uintValue l (10 * acc + 8)
  | Decimal.D9 l => uintValue l (10 * acc + 9)
  end%N.

(** Sample inputs. *)
Module Samples.

Definition newline : string := String (ascii_of_nat 10) EmptyString.

Definition learning : KnowledgeDocument.t :=
  KnowledgeDocument.mk "02_machine_learning_algorithms" "Machine Learning Algorithms"
    ("Machine learning algorithms learn from data." ++ newline ++
     "## Supervised learning" ++ newline ++ "- regression models")
    ["machine"; "learning"] "02-machine-learning-algorithms.md" (7 # 10).

Definition cloud : KnowledgeDocument.t :=
  KnowledgeDocument.mk "04_cloud_computing" "Cloud Computing"
    "Cloud platforms such as aws scale well; learning them takes time."
    ["cloud"] "04-cloud-computing.md" (6 # 10).

Definition storage : KnowledgeDocument.t :=
  KnowledgeDocument.mk "07_database_design" "Database Design"
    "Relational data storage with sql; a category of learning material."
    ["database"] "07-database-design.md" (6 # 10).

Definition corpus : list KnowledgeDocument.t := [learning; cloud; storage].

Definition index : KnowledgeBaseIndex.t :=
  Eval vm_compute in
    match buildKnowledgeBaseIndex Approx.log corpus 0 with
    | Some built => built
    | None => createEmptyIndex 0
    end.

(** A knowledge-base directory with three Markdown files and a stray one. *)
Definition cloudFile : string :=
  "# Cloud Computing" ++ newline ++ newline ++ "Cloud platforms such as **aws** scale well.".

Definition learningFile : string :=
  "# Machine Learning" ++ newline ++ newline ++ "Machine learning algorithms learn from data.".

Definition storageFile : string :=
  "# Data Storage" ++ newline ++ newline ++ "Relational storage; one category of many.".

Definition directory : FileSystem :=
  mkFileSystem true
    (Some ["storage.md"; "notes.txt"; "learning.md"; "cloud.md"])
    (fun file =>
       if String.eqb file "cloud.md" then Some cloudFile
       else if String.eqb file "learning.md" then Some learningFile
       else if String.eqb file "storage.md" then Some storageFile
       else None).

(** The directory is gone. *)
Definition missingDirectory : FileSystem := mkFileSystem false None (fun _ => None).

(** The directory is there and cannot be listed. *)
Definition unreadableDirectory : FileSystem := mkFileSystem true None (fun _ => None).

(** The directory holds no Markdown file. *)
Definition emptyDirectory : FileSystem := mkFileSystem true (Some ["notes.txt"]) (fun _ => None).

(** Two documents that differ in their titles only: two hundred header
    lines that name a cat, under the title [cat] and under the title [dog]. *)
Fixpoint repeated (n : nat) (line : string) : string :=
  match n with
  | O => EmptyString
  | S k => (line ++ newline ++ repeated k line)%string
  end.

Definition catUnderCat : KnowledgeDocument.t :=
  KnowledgeDocument.mk "a" "cat" (repeated 200 "# cat") [] "pets.md" (1 # 2).

Definition catUnderDog : KnowledgeDocument.t :=
  KnowledgeDocument.mk "b" "dog" (repeated 200 "# cat") [] "pets.md" (1 # 2).

Definition pets : list KnowledgeDocument.t := [catUnderCat; catUnderDog].

Definition petsIndex : KnowledgeBaseIndex.t :=
  Eval vm_compute in
    match buildKnowledgeBaseIndex Approx.log pets 0 with
    | Some built => built
    | None => createEmptyIndex 0
    end.

(** Two documents whose titles hold the same words, one of them the query
    [machine-learning] itself. *)
Definition hyphenated : KnowledgeDocument.t :=
  KnowledgeDocument.mk "a" "Machine-Learning" "machine learning explained" [] "ml.md" (1 # 2).

Definition swapped : KnowledgeDocument.t :=
  KnowledgeDocument.mk "b" "Learning-Machine" "machine learning explained" [] "ml.md" (1 # 2).

Definition twins : list KnowledgeDocument.t := [hyphenated; swapped].

Definition twinsIndex : KnowledgeBaseIndex.t :=
  Eval vm_compute in
    match buildKnowledgeBaseIndex Approx.log twins 0 with
    | Some built => built
    | None => createEmptyIndex 0
    end.

(** Two documents whose titles hold the same words, one of them the plain
    query [machine learning]. *)
Definition plainTitled : KnowledgeDocument.t :=
  KnowledgeDocument.mk "a" "Machine Learning" "machine learning explained" [] "ml.md" (1 # 2).

Definition plainSwapped : KnowledgeDocument.t :=
  KnowledgeDocument.mk "b" "Learning Machine" "machine learning explained" [] "ml.md" (1 # 2).

Definition plainPair : list KnowledgeDocument.t := [plainTitled; plainSwapped].

Definition plainIndex : KnowledgeBaseIndex.t :=
  Eval vm_compute in
    match buildKnowledgeBaseIndex Approx.log plainPair 0 with
    | Some built => built
    | None => createEmptyIndex 0
    end.

(** Two documents on a cat: the title of one is the query [newsQuery], the
    title of the other lists eight of the temporal keywords. *)
Definition newsQuery : string := "latest cat".

Definition newsTitled : KnowledgeDocument.t :=
  KnowledgeDocument.mk "a" "Latest cat" "cat" [] "news.md" (1 # 2).

Definition newsKeywords : KnowledgeDocument.t :=
  KnowledgeDocument.mk "b" "Recent latest new current modern 2024 2025 trends" "cat" []
    "news.md" (1 # 2).

Definition news : list KnowledgeDocument.t := [newsTitled; newsKeywords].

Definition newsIndex : KnowledgeBaseIndex.t :=
  Eval vm_compute in
    match buildKnowledgeBaseIndex Approx.log news 0 with
    | Some built => built
    | None => createEmptyIndex 0
    end.

(** Two documents on patterns: the title of one is the query
    [patternsQuery], four hyphenated pairs of words; the title of the other
    holds the eight words with spaces between them. *)
Definition patternsQuery : string :=
  "client-server request-response publish-subscribe master-replica".

Definition patternsTitled : KnowledgeDocument.t :=
  KnowledgeDocument.mk "a" patternsQuery "patterns" [] "patterns.md" (1 # 2).

Definition patternsSpaced : KnowledgeDocument.t :=
  KnowledgeDocument.mk "b" "client server request response publish subscribe master replica"
    "patterns" [] "patterns.md" (1 # 2).

Definition patterns : list KnowledgeDocument.t := [patternsTitled; patternsSpaced].

Definition patternsIndex : KnowledgeBaseIndex.t :=
  Eval vm_compute in
    match buildKnowledgeBaseIndex Approx.log patterns 0 with
    | Some built => built
    | None => createEmptyIndex 0
    end.

(** Twenty documents: a note on rollbacks filed twice, once under a title
    that spells out the query [runbookQuery], and eighteen checklists that
    hold the other four words of that query. *)
Definition runbookQuery : string :=
  "rollback the deploy the release the staging the canary".

Definition rollbackTitled : KnowledgeDocument.t :=
  KnowledgeDocument.mk "a" runbookQuery "rollback" [] "note.md" (1 # 2).

Definition rollbackPlain : KnowledgeDocument.t :=
  KnowledgeDocument.mk "b" "v2" "rollback" [] "note.md" (1 # 2).

Definition checklist (n : nat) : KnowledgeDocument.t :=
  KnowledgeDocument.mk ("f" ++ NilZero.string_of_uint (Nat.to_uint n)) "v2"
    "deploy release staging canary" [] "checklist.md" (1 # 2).

Definition runbooks : list KnowledgeDocument.t :=
  rollbackTitled :: rollbackPlain :: map checklist (seq 1 18).

Definition runbooksIndex : KnowledgeBaseIndex.t :=
  Eval vm_compute in
    match buildKnowledgeBaseIndex Approx.log runbooks 0 with
    | Some built => built
    | None => createEmptyIndex 0
    end.

Definition entryOf (index : KnowledgeBaseIndex.t) (doc : KnowledgeDocument.t)
  : DocumentIndexEntry.t :=
  match DocumentIndex.get (KnowledgeDocument.id doc) (KnowledgeBaseIndex.documentIndex index) with
  | Some docEntry => docEntry
  | None => DocumentIndexEntry.mk doc [] [] 0 [] []
  end.

Definition request (query : string) : SearchRequest :=
  mkSearchRequest (JSString query) JSUndefined.

(** What the loader returns for the directory of three files. *)
Definition loaded : list KnowledgeDocument.t * option KnowledgeBaseIndex.t :=
  Eval vm_compute in loadKnowledgeBaseDocuments Approx.log directory 0 None.

Definition directoryDocuments : list KnowledgeDocument.t := Eval vm_compute in fst loaded.

Definition directoryIndex : KnowledgeBaseIndex.t :=
  Eval vm_compute in
    match snd loaded with
    | Some built => built
    | None => createEmptyIndex 0
    end.

(** A directory one of whose files uses the word [constructor]. *)
Definition classesFile : string :=
  "# Classes" ++ newline ++ newline ++ "The constructor runs first.".

Definition classesDirectory : FileSystem :=
  mkFileSystem true (Some ["cloud.md"; "classes.md"])
    (fun file =>
       if String.eqb file "cloud.md" then Some cloudFile
       else if String.eqb file "classes.md" then Some classesFile
       else None).

(** What the parser makes of a file. *)
Definition parsed (content filename : string) : KnowledgeDocument.t :=
  match parseMarkdownDocument content filename with
  | Some doc => doc
  | None => KnowledgeDocument.mk "" "" "" [] "" 0
  end.

(** The file on classes, parsed. *)
Definition classes : KnowledgeDocument.t := Eval vm_compute in parsed classesFile "classes.md".

(** Two files whose names give the same id, [a_b], and a file whose name
    gives the id [__proto__]. *)
Definition storageNote : string := "# Cloud" ++ newline ++ newline ++ "Cloud storage.".

Definition backupNote : string := "# Cloud" ++ newline ++ newline ++ "Cloud backup.".

Definition dashed : KnowledgeDocument.t := Eval vm_compute in parsed storageNote "a-b.md".

Definition underscored : KnowledgeDocument.t := Eval vm_compute in parsed backupNote "a_b.md".

Definition protoNamed : KnowledgeDocument.t :=
  Eval vm_compute in parsed storageNote "__proto__.md".

End Samples.

(** * Properties *)

(** ** The model on small inputs *)

Example tokenize_sample :
  tokenizeAndNormalize "What is Machine-Learning, the  basics?" = ["machine"; "learning"; "basics"].
Proof. reflexivity. Qed.

Example tokenize_stop_words_only : tokenizeAndNormalize "the is a" = [].
Proof. reflexivity. Qed.

Example split_keeps_outer_empty_pieces :
  Str.split Str.isSpace " a  b " = [""; "a"; "b"; ""].
Proof. reflexivity. Qed.

Example parseInt_samples :
  parseInt "  -12px" = Some (-12) /\ parseInt "0x1f" = Some 31 /\ parseInt "abc" = None.
Proof. repeat split; reflexivity. Qed.

Example round_halves_upwards :
  Math_round (5 # 2) = 3 /\ Math_round (- (5 # 2)) = -2 /\ Math_round (7 # 3) = 2.
Proof. repeat split; reflexivity. Qed.

Example values_lists_array_indices_first :
  Dict.values [("b", 1); ("10", 2); ("2", 3); ("a", 4)] = [3; 2; 1; 4].
Proof. reflexivity. Qed.

Example header_lines :
  allMatches headerAt
    ("# Title" ++ Samples.newline ++ "text" ++ Samples.newline ++ "## Sub one" ++ Samples.newline
     ++ "####### seven" ++ Samples.newline ++ "#no space")
  = ["Title"; "Sub one"].
Proof. vm_compute. reflexivity. Qed.

Example list_items :
  allMatches listItemAt
    ("- a" ++ Samples.newline ++ "  * bb cc" ++ Samples.newline ++ Samples.newline ++ "+ d"
     ++ Samples.newline ++ "-e")
  = ["a"; "bb cc"; "d"].
Proof. vm_compute. reflexivity. Qed.

Example code_spans :
  allMatches codeSpanAt ("x `a b` y ```js" ++ Samples.newline ++ "run``` z `q" ++ Samples.newline ++ "r`")
  = ["`a b`"; ("```js" ++ Samples.newline ++ "run```")%string].
Proof. vm_compute. reflexivity. Qed.

Example proximity_is_greedy_within_a_line :
  proximityMatches "alpha" "beta"
    ("alpha beta alpha xx beta" ++ Samples.newline ++ "alpha" ++ Samples.newline ++ "beta alpha beta")
  = 2%nat.
Proof. vm_compute. reflexivity. Qed.

Example parsed_file :
  parseMarkdownDocument Samples.cloudFile "cloud.md"
  = Some (KnowledgeDocument.mk "cloud" "Cloud Computing"
            "Cloud platforms such as aws scale well." ["cloud"; "computing"; "aws"]
            "cloud.md" (1320 # 2000)).
Proof. vm_compute. reflexivity. Qed.

Example emphasis_is_stripped :
  replaceMatches emphasisAt 0 "***bold*** and **a*b*" = "*bold and ab".
Proof. vm_compute. reflexivity. Qed.

Example sample_search :
  map (fun r => (KnowledgeDocument.id (SearchResult.doc r), SearchResult.searchScore r))
    (searchDocuments Approx.sqrt (Some Samples.index) "learning" Samples.corpus 5)
  = [("02_machine_learning_algorithms", 18); ("04_cloud_computing", 7);
     ("07_database_design", 7)].
Proof. vm_compute. reflexivity. Qed.

(** ** Ranking: the sort and the slice *)

Lemma insertByScore_perm (r : SearchResult.t) (l : list SearchResult.t) :
  Permutation (r :: l) (insertByScore r l).
Proof.
  induction l as [|x t IH]; simpl.
  - apply Permutation_refl.
  - destruct (SearchResult.searchScore x <=? SearchResult.searchScore r).
    + apply Permutation_refl.
    + eapply perm_trans; [apply perm_swap|]. now apply perm_skip.
Qed.

Lemma sortByScore_perm (l : list SearchResult.t) : Permutation l (sortByScore l).
Proof.
  induction l as [|x t IH]; simpl.
  - constructor.
  - eapply perm_trans; [apply perm_skip, IH|]. apply insertByScore_perm.
Qed.

Lemma insertByScore_sorted (r : SearchResult.t) (l : list SearchResult.t) :
  StronglySorted scoreGe l -> StronglySorted scoreGe (insertByScore r l).
Proof.
  induction l as [|x t IH]; simpl; intros Hs.
  - repeat constructor.
  - inversion Hs as [|? ? Ht Hx]; subst.
    destruct (SearchResult.searchScore x <=? SearchResult.searchScore r) eqn:E.
    + apply Z.leb_le in E. constructor; [exact Hs|].
      constructor; [exact E|].
      eapply Forall_impl; [|exact Hx]. unfold scoreGe. intros; lia.
    + apply Z.leb_gt in E. constructor; [now apply IH|].
      eapply Permutation_Forall; [apply insertByScore_perm|].
      constructor; [unfold scoreGe; lia | exact Hx].
Qed.

Lemma sortByScore_sorted (l : list SearchResult.t) : StronglySorted scoreGe (sortByScore l).
Proof.
  induction l; simpl; [constructor | now apply insertByScore_sorted].
Qed.

Lemma StronglySorted_app_inv {A : Type} (R : A -> A -> Prop) (l1 l2 : list A) :
  StronglySorted R (l1 ++ l2) ->
  StronglySorted R l1 /\ forall x y, In x l1 -> In y l2 -> R x y.
Proof.
  induction l1 as [|a l1 IH]; simpl; intros Hs.
  - split; [constructor | intros x y []].
  - inversion Hs as [|? ? Ht Ha]; subst.
    destruct (IH Ht) as [Hs1 Hxy]. split.
    + constructor; [exact Hs1|].
      apply Forall_forall. intros z Hz. rewrite Forall_forall in Ha.
      apply Ha, in_or_app. now left.
    + intros x y [->|Hx] Hy.
      * rewrite Forall_forall in Ha. apply Ha, in_or_app. now right.
      * now apply Hxy.
Qed.

Lemma firstn_sorted {A : Type} (R : A -> A -> Prop) (n : nat) (l : list A) :
  StronglySorted R l -> StronglySorted R (firstn n l).
Proof.
  intros Hs. rewrite <- (firstn_skipn n l) in Hs.
  now apply StronglySorted_app_inv in Hs.
Qed.

Lemma slice0_firstn {A : Type} (k : Z) (l : list A) :
  exists n, slice0 k l = firstn n l.
Proof. unfold slice0. destruct (k <? 0); eexists; reflexivity. Qed.

Lemma slice0_nonneg {A : Type} (k : Z) (l : list A) :
  0 <= k -> slice0 k l = firstn (Z.to_nat k) l.
Proof. intros Hk. unfold slice0. destruct (k <? 0) eqn:E; [lia | reflexivity]. Qed.

Lemma slice0_In {A : Type} (k : Z) (l : list A) (x : A) : In x (slice0 k l) -> In x l.
Proof.
  destruct (slice0_firstn k l) as [n ->]. intros H.
  rewrite <- (firstn_skipn n l). apply in_or_app. now left.
Qed.

Lemma slice0_nil {A : Type} (k : Z) : slice0 k (@nil A) = [].
Proof. destruct (slice0_firstn k (@nil A)) as [n ->]. now destruct n. Qed.

Lemma ranking_sorted (k : Z) (l : list SearchResult.t) :
  StronglySorted scoreGe (slice0 k (sortByScore l)).
Proof.
  destruct (slice0_firstn k (sortByScore l)) as [n ->].
  apply firstn_sorted, sortByScore_sorted.
Qed.

Lemma ranking_In (k : Z) (l : list SearchResult.t) (r : SearchResult.t) :
  In r (slice0 k (sortByScore l)) -> In r l.
Proof.
  intros H. apply slice0_In in H.
  eapply Permutation_in; [apply Permutation_sym, sortByScore_perm | exact H].
Qed.

(** ** Scores *)

Lemma Qgtb_spec (x y : Q) : Qgtb x y = true <-> (y < x)%Q.
Proof. unfold Qgtb, Qlt. apply Z.ltb_lt. Qed.

Lemma Math_round_nonneg (x : Q) : (0 <= x)%Q -> 0 <= Math_round x.
Proof.
  intros Hx. unfold Math_round.
  change 0 with (Qfloor 0). apply Qfloor_resp_le.
  apply Qle_trans with x; [exact Hx|].
  rewrite <- (Qplus_0_r x) at 1. apply Qplus_le_r. discriminate.
Qed.

Lemma normalizeScore_bounds (score : Q) :
  (0 <= score)%Q -> 0 <= normalizeScore score <= 100.
Proof.
  intros Hs. unfold normalizeScore. split; [|apply Z.le_min_r].
  apply Z.min_glb; [|lia]. apply Math_round_nonneg.
  apply Qmult_le_0_compat; [|discriminate].
  unfold Qdiv. apply Qmult_le_0_compat; [exact Hs | discriminate].
Qed.

Lemma basicCandidate_bounds (queryWords : list string) (doc : KnowledgeDocument.t)
    (r : SearchResult.t) :
  In r (basicCandidate queryWords doc) -> 0 <= SearchResult.searchScore r <= 100.
Proof.
  unfold basicCandidate. destruct (0 <? basicScore queryWords doc) eqn:E; [|intros []].
  apply Z.ltb_lt in E. intros [<-|[]]. simpl. split; [|apply Z.le_min_r].
  apply Z.min_glb; [|lia]. apply Math_round_nonneg.
  apply Qmult_le_0_compat; [|discriminate].
  unfold Qdiv. apply Qmult_le_0_compat; [|discriminate].
  unfold Qle. simpl. lia.
Qed.

Lemma basicPassing_bounds (query : string) (documents : list KnowledgeDocument.t)
    (r : SearchResult.t) :
  In r (basicPassing query documents) -> 0 <= SearchResult.searchScore r <= 100.
Proof.
  unfold basicPassing. destruct (basicQueryWords query) as [|w ws]; [intros []|].
  intros H. apply in_flat_map in H. destruct H as [d [_ H]].
  eapply basicCandidate_bounds; exact H.
Qed.

Section RankingProperties.
Variable Math_sqrt : Q -> Q.

Lemma scoreCandidate_bounds index query queryWords expandedQuery docEntry r :
  In r (scoreCandidate Math_sqrt index query queryWords expandedQuery docEntry) ->
  0 <= SearchResult.searchScore r <= 100.
Proof.
  unfold scoreCandidate.
  destruct (Qgtb _ 8) eqn:E; [|intros []].
  apply Qgtb_spec in E. intros [<-|[]]. simpl.
  apply normalizeScore_bounds. apply Qlt_le_weak.
  eapply Qlt_trans; [|exact E]. reflexivity.
Qed.

Lemma passingCandidates_bounds kbi query documents r :
  In r (passingCandidates Math_sqrt kbi query documents) ->
  0 <= SearchResult.searchScore r <= 100.
Proof.
  unfold passingCandidates.
  destruct kbi as [index|]; [|apply basicPassing_bounds].
  destruct (tokenizeAndNormalize query) as [|w ws]; [intros []|].
  destruct (expandQueryForSmallKb (w :: ws) index) as [expanded|];
    [|apply basicPassing_bounds].
  unfold scoredCandidates. intros H. apply in_flat_map in H.
  destruct H as [docId [_ H]].
  destruct (DocumentIndex.get docId _); [|destruct H].
  eapply scoreCandidate_bounds; exact H.
Qed.

(** [searchDocuments] ranks the whole list of passing candidates: it sorts
    them all and only then cuts the list. *)
Lemma searchDocuments_ranking kbi query documents maxResults :
  searchDocuments Math_sqrt kbi query documents maxResults
  = slice0 maxResults (sortByScore (passingCandidates Math_sqrt kbi query documents)).
Proof.
  unfold searchDocuments, passingCandidates, searchDocumentsBasic, basicPassing.
  destruct kbi as [index|].
  - destruct (tokenizeAndNormalize query) as [|w ws]; [simpl; now rewrite slice0_nil|].
    destruct (expandQueryForSmallKb (w :: ws) index) as [expanded|].
    + unfold scoredCandidates.
      destruct (candidateDocIds index expanded); [simpl; now rewrite slice0_nil | reflexivity].
    + destruct (basicQueryWords query); [simpl; now rewrite slice0_nil | reflexivity].
  - destruct (basicQueryWords query); [simpl; now rewrite slice0_nil | reflexivity].
Qed.

End RankingProperties.

(** C3.  Whatever the cache holds, the query, the documents and the bound,
    every score in the list [searchDocuments] returns is an integer between
    0 and 100, and the list is in non-increasing order of score. *)
Theorem search_scores_bounded_and_sorted :
  forall (Math_sqrt : Q -> Q) (knowledgeBaseIndex : option KnowledgeBaseIndex.t)
         (query : string) (documents : list KnowledgeDocument.t) (maxResults : Z),
    let found := searchDocuments Math_sqrt knowledgeBaseIndex query documents maxResults in
    (forall r, In r found -> 0 <= SearchResult.searchScore r <= 100)
    /\ StronglySorted scoreGe found.
Proof.
  intros Math_sqrt kbi query documents maxResults found. subst found.
  rewrite searchDocuments_ranking. split.
  - intros r Hr. apply ranking_In in Hr.
    eapply passingCandidates_bounds; exact Hr.
  - apply ranking_sorted.
Qed.

Lemma trimContent_score (r : SearchResult.t) :
  SearchResult.searchScore (trimContent r) = SearchResult.searchScore r.
Proof. reflexivity. Qed.

Lemma trimmed_sorted (l : list SearchResult.t) :
  StronglySorted scoreGe l -> StronglySorted scoreGe (map trimContent l).
Proof.
  induction 1 as [|x t Ht IH Hx]; simpl; constructor; [exact IH|].
  apply Forall_forall. intros y Hy. apply in_map_iff in Hy. destruct Hy as [z [<- Hz]].
  rewrite Forall_forall in Hx. exact (Hx z Hz).
Qed.

(** The same for the list the handler answers with. *)
Corollary answer_scores_bounded_and_sorted :
  forall (Math_log Math_sqrt : Q -> Q) (fs : FileSystem) (now : Z)
         (cache : option KnowledgeBaseIndex.t) (body : SearchRequest),
    let found := results (fst (POST Math_log Math_sqrt fs now cache body)) in
    (forall r, In r found -> 0 <= SearchResult.searchScore r <= 100)
    /\ StronglySorted scoreGe found.
Proof.
  intros Math_log Math_sqrt fs now cache body found. subst found. unfold POST.
  destruct (String.length (requestQuery body) <? 2)%nat;
    [split; [intros r [] | constructor]|].
  destruct (500 <? String.length (requestQuery body))%nat;
    [split; [intros r [] | constructor]|].
  destruct (loadKnowledgeBaseDocuments Math_log fs now cache) as [documents cache'].
  destruct documents as [|d ds]; [split; [intros r [] | constructor]|].
  cbn [fst results]. rewrite searchDocuments_ranking. split.
  - intros r Hr. apply in_map_iff in Hr. destruct Hr as [x [<- Hx]].
    rewrite trimContent_score. apply ranking_In in Hx.
    eapply passingCandidates_bounds; exact Hx.
  - apply trimmed_sorted, ranking_sorted.
Qed.

(** C7.  When more candidates pass the threshold than [maxResults] (a count,
    so not negative), the returned list is the first [maxResults] elements of
    the sorted list of all passing candidates: it has exactly [maxResults]
    elements, and no passing candidate left out scores more than a returned
    one. *)
Theorem search_returns_top_maxResults :
  forall (Math_sqrt : Q -> Q) (knowledgeBaseIndex : option KnowledgeBaseIndex.t)
         (query : string) (documents : list KnowledgeDocument.t) (maxResults : Z),
    0 <= maxResults ->
    maxResults < Z.of_nat (List.length (passingCandidates Math_sqrt knowledgeBaseIndex query documents)) ->
    let passing := passingCandidates Math_sqrt knowledgeBaseIndex query documents in
    let found := searchDocuments Math_sqrt knowledgeBaseIndex query documents maxResults in
    found = firstn (Z.to_nat maxResults) (sortByScore passing)
    /\ Z.of_nat (List.length found) = maxResults
    /\ exists leftOut,
         Permutation passing (found ++ leftOut)
         /\ forall r x, In r found -> In x leftOut ->
                        SearchResult.searchScore x <= SearchResult.searchScore r.
Proof.
  intros Math_sqrt kbi query documents maxResults Hk Hlen passing found.
  subst found. rewrite searchDocuments_ranking. fold passing in Hlen |- *.
  rewrite slice0_nonneg by exact Hk.
  assert (Hperm : Permutation passing (sortByScore passing)) by apply sortByScore_perm.
  split; [reflexivity|]. split.
  - rewrite length_firstn, <- (Permutation_length Hperm). lia.
  - exists (skipn (Z.to_nat maxResults) (sortByScore passing)). split.
    + now rewrite firstn_skipn.
    + intros r x Hr Hx.
      pose proof (sortByScore_sorted passing) as Hs.
      rewrite <- (firstn_skipn (Z.to_nat maxResults) (sortByScore passing)) in Hs.
      apply StronglySorted_app_inv in Hs. destruct Hs as [_ Hs].
      exact (Hs r x Hr Hx).
Qed.

Lemma search_returns_top_maxResults_witness :
  let passing :=
    passingCandidates Approx.sqrt (Some Samples.index) "learning" Samples.corpus in
  let found := searchDocuments Approx.sqrt (Some Samples.index) "learning" Samples.corpus 2 in
  found = firstn (Z.to_nat 2) (sortByScore passing)
  /\ Z.of_nat (List.length found) = 2
  /\ exists leftOut,
       Permutation passing (found ++ leftOut)
       /\ forall r x, In r found -> In x leftOut ->
                      SearchResult.searchScore x <= SearchResult.searchScore r.
Proof.
  apply (search_returns_top_maxResults Approx.sqrt (Some Samples.index) "learning"
           Samples.corpus 2).
  - lia.
  - vm_compute. reflexivity.
Defined.

(** ** The result-count bound *)

(** C10, as stated, at [maxResults: 0]: the parsed value is 0, whose minimum
    with 10 is 0, and the handler searches with the bound 5. *)
Lemma zero_maxResults_defaults_to_five :
  parseInt (ToString (JSNumber 0)) = Some 0
  /\ Z.min 0 10 = 0
  /\ effectiveMaxResults (JSNumber 0) = 5.
Proof. repeat split; reflexivity. Qed.

(** C10, amended.  The bound the handler searches with is never above 10;
    it is the minimum of the parsed [maxResults] and 10 when [maxResults]
    parses to a number other than 0, so a value above 10 is cut to 10; and
    it is 5 when [maxResults] is missing, does not parse to a number, or
    parses to 0. *)
Theorem effective_maxResults_bound :
  forall maxResults : JSValue,
    effectiveMaxResults maxResults <= 10
    /\ (forall n, parseInt (ToString maxResults) = Some n -> n <> 0 ->
                  effectiveMaxResults maxResults = Z.min n 10)
    /\ (forall n, parseInt (ToString maxResults) = Some n -> 10 < n ->
                  effectiveMaxResults maxResults = 10)
    /\ (parseInt (ToString maxResults) = None -> effectiveMaxResults maxResults = 5)
    /\ (parseInt (ToString maxResults) = Some 0 -> effectiveMaxResults maxResults = 5)
    /\ effectiveMaxResults JSUndefined = 5.
Proof.
  intros v. unfold effectiveMaxResults, MAX_RESULTS. split; [apply Z.le_min_r|].
  split; [|split; [|split; [|split]]].
  - intros n -> Hn. destruct (n =? 0) eqn:E; [apply Z.eqb_eq in E; lia | reflexivity].
  - intros n -> Hn. destruct (n =? 0) eqn:E; [apply Z.eqb_eq in E; lia | lia].
  - intros ->. reflexivity.
  - intros ->. reflexivity.
  - reflexivity.
Qed.

(** ** The handler and the cache *)

Section HandlerProperties.
Variable Math_log : Q -> Q.
Variable Math_sqrt : Q -> Q.
Local Abbreviation load := (loadKnowledgeBaseDocuments Math_log).
Local Abbreviation handle := (POST Math_log Math_sqrt).
Local Abbreviation search := (searchDocuments Math_sqrt).

Lemma load_leaves_an_index fs now cache : snd (load fs now cache) <> None.
Proof.
  unfold loadKnowledgeBaseDocuments.
  destruct cache as [index|].
  - destruct (now - KnowledgeBaseIndex.lastIndexed index <? CACHE_TTL); [discriminate|].
    destruct (negb (existsSync fs)); [discriminate|].
    destruct (readdirSync fs); [|discriminate].
    destruct (sortNames _); [discriminate|].
    destruct (buildKnowledgeBaseIndex _ _ _); discriminate.
  - destruct (negb (existsSync fs)); [discriminate|].
    destruct (readdirSync fs); [|discriminate].
    destruct (sortNames _); [discriminate|].
    destruct (buildKnowledgeBaseIndex _ _ _); discriminate.
Qed.

Lemma handle_valid fs now cache body :
  validLength (requestQuery body) ->
  handle fs now cache body =
    (match fst (load fs now cache) with
     | [] => failure "No documents available in knowledge base" 503
     | documents =>
         mkSearchResponse
           (map trimContent
              (search (snd (load fs now cache)) (requestQuery body) documents
                 (effectiveMaxResults (req_maxResults body))))
           (List.length documents) true None 200
     end, snd (load fs now cache)).
Proof.
  intros [Hlo Hhi]. unfold POST.
  destruct (String.length (requestQuery body) <? 2)%nat eqn:E1;
    [apply Nat.ltb_lt in E1; lia|].
  destruct (500 <? String.length (requestQuery body))%nat eqn:E2;
    [apply Nat.ltb_lt in E2; lia|].
  destruct (load fs now cache) as [documents cache']. simpl.
  destruct documents; reflexivity.
Qed.

(** C6.  A query whose trimmed length is below 2 or above 500 is answered
    with status 400, an error message and no results, and the cache is not
    touched.  A query of trimmed length 2 to 500 is not rejected: the
    documents are loaded and the search runs on the trimmed query itself. *)
Theorem query_length_is_validated :
  forall (fs : FileSystem) (now : Z) (cache : option KnowledgeBaseIndex.t)
         (body : SearchRequest),
    let query := requestQuery body in
    let answer := handle fs now cache body in
    ((String.length query < 2)%nat ->
       answer = (mkSearchResponse [] 0 false
                   (Some "Query must be at least 2 characters long") 400, cache))
    /\ ((500 < String.length query)%nat ->
          answer = (mkSearchResponse [] 0 false
                      (Some "Query is too long (max 500 characters)") 400, cache))
    /\ ((2 <= String.length query <= 500)%nat ->
          status (fst answer) <> 400
          /\ answer =
               (match fst (load fs now cache) with
                | [] => failure "No documents available in knowledge base" 503
                | documents =>
                    mkSearchResponse
                      (map trimContent
                         (search (snd (load fs now cache)) query documents
                            (effectiveMaxResults (req_maxResults body))))
                      (List.length documents) true None 200
                end, snd (load fs now cache))).
Proof.
  intros fs now cache body query answer. subst query answer.
  split; [|split].
  - intros H. unfold POST. apply Nat.ltb_lt in H. now rewrite H.
  - intros H. unfold POST.
    destruct (String.length (requestQuery body) <? 2)%nat eqn:E1;
      [apply Nat.ltb_lt in E1; lia|].
    apply Nat.ltb_lt in H. now rewrite H.
  - intros H. rewrite (handle_valid fs now cache body H). split; [|reflexivity].
    simpl. destruct (fst (load fs now cache)); simpl; discriminate.
Qed.

(** C2.  For a query of valid length, when the loader returns no document
    the handler answers, without raising, with an empty result list,
    [totalDocuments = 0] and the error [No documents available in knowledge
    base] under status 503; with a document loaded it answers under status
    200 with no error, so the answer tells the empty corpus apart. *)
Theorem empty_corpus_is_reported :
  forall (fs : FileSystem) (now : Z) (cache : option KnowledgeBaseIndex.t)
         (body : SearchRequest),
    validLength (requestQuery body) ->
    (fst (load fs now cache) = [] ->
       fst (handle fs now cache body)
       = mkSearchResponse [] 0 false (Some "No documents available in knowledge base") 503)
    /\ (fst (load fs now cache) <> [] ->
          status (fst (handle fs now cache body)) = 200
          /\ error (fst (handle fs now cache body)) = None).
Proof.
  intros fs now cache body Hv. rewrite (handle_valid fs now cache body Hv). split.
  - intros ->. reflexivity.
  - intros Hne. simpl. destruct (fst (load fs now cache)); [congruence|]. now split.
Qed.

(** C1, amended.  When the cached index has expired and the rebuild fails
    because the directory is missing or cannot be listed, the loader returns
    no document and replaces the cached index by an empty index stamped with
    the current time; the handler then answers a valid query with the
    no-documents error under status 503. *)
Theorem failed_rebuild_installs_empty_index :
  forall (fs : FileSystem) (now : Z) (previous : KnowledgeBaseIndex.t),
    cacheExpired now previous ->
    existsSync fs = false \/ readdirSync fs = None ->
    load fs now (Some previous) = ([], Some (createEmptyIndex now))
    /\ forall body : SearchRequest,
         validLength (requestQuery body) ->
         handle fs now (Some previous) body
         = (mkSearchResponse [] 0 false (Some "No documents available in knowledge base") 503,
            Some (createEmptyIndex now)).
Proof.
  intros fs now previous Hexp Hfail.
  assert (Hload : load fs now (Some previous) = ([], Some (createEmptyIndex now))).
  { unfold loadKnowledgeBaseDocuments.
    unfold cacheExpired in Hexp.
    destruct (now - KnowledgeBaseIndex.lastIndexed previous <? CACHE_TTL) eqn:E;
      [apply Z.ltb_lt in E; lia|].
    destruct Hfail as [H|H]; rewrite H; simpl; [reflexivity|].
    destruct (negb (existsSync fs)); reflexivity. }
  split; [exact Hload|].
  intros body Hv. rewrite (handle_valid fs now (Some previous) body Hv).
  rewrite Hload. reflexivity.
Qed.

(** C9, amended.  A query of valid length that tokenizes to nothing, on a
    corpus with at least one document, is answered without raising by an
    empty result list with [success = true], no error and status 200. *)
Theorem no_searchable_terms_answer :
  forall (fs : FileSystem) (now : Z) (cache : option KnowledgeBaseIndex.t)
         (body : SearchRequest),
    validLength (requestQuery body) ->
    tokenizeAndNormalize (requestQuery body) = [] ->
    fst (load fs now cache) <> [] ->
    fst (handle fs now cache body)
    = mkSearchResponse [] (List.length (fst (load fs now cache))) true None 200.
Proof.
  intros fs now cache body Hv Htok Hne.
  rewrite (handle_valid fs now cache body Hv). simpl.
  destruct (fst (load fs now cache)) as [|d ds] eqn:Ed; [congruence|].
  pose proof (load_leaves_an_index fs now cache) as Hc.
  destruct (snd (load fs now cache)) as [index|]; [|congruence].
  unfold searchDocuments. rewrite Htok. reflexivity.
Qed.

End HandlerProperties.

Lemma query_length_is_validated_witness :
  let body := Samples.request "  learning  " in
  status (fst (POST Approx.log Approx.sqrt Samples.directory 0 None body)) = 200
  /\ requestQuery body = "learning".
Proof.
  split; [|reflexivity].
  pose proof (query_length_is_validated Approx.log Approx.sqrt
                Samples.directory 0 None (Samples.request "  learning  ")) as H.
  cbv zeta in H. destruct H as [_ [_ H]].
  destruct H as [_ H]; [vm_compute; lia|].
  rewrite H. vm_compute. reflexivity.
Defined.

Lemma empty_corpus_is_reported_witness :
  fst (POST Approx.log Approx.sqrt Samples.emptyDirectory 0 None
         (Samples.request "machine learning"))
  = mkSearchResponse [] 0 false (Some "No documents available in knowledge base") 503.
Proof.
  apply (empty_corpus_is_reported Approx.log Approx.sqrt
           Samples.emptyDirectory 0 None (Samples.request "machine learning")).
  - vm_compute. lia.
  - reflexivity.
Defined.

(** C1, as stated, on a cached index of three documents that has expired
    while the directory went missing: the failed rebuild does not leave the
    snapshot in place, it installs an empty index, and the query is answered
    with the no-documents error. *)
Lemma failed_rebuild_discards_snapshot :
  let now := 400000 in
  let previous := Some Samples.index in
  let answer :=
    POST Approx.log Approx.sqrt Samples.missingDirectory now previous
      (Samples.request "machine learning") in
  KnowledgeBaseIndex.totalDocuments Samples.index = 3%nat
  /\ snd answer = Some (createEmptyIndex now)
  /\ snd answer <> previous
  /\ fst answer
     = mkSearchResponse [] 0 false (Some "No documents available in knowledge base") 503.
Proof.
  cbv zeta. split; [reflexivity|]. split; [reflexivity|]. split; [|reflexivity].
  intros H. apply (f_equal (fun c => match c with
                                     | Some i => KnowledgeBaseIndex.totalDocuments i
                                     | None => 0%nat
                                     end)) in H.
  vm_compute in H. discriminate.
Qed.

Lemma failed_rebuild_installs_empty_index_witness :
  loadKnowledgeBaseDocuments Approx.log Samples.unreadableDirectory 400000
    (Some Samples.index)
  = ([], Some (createEmptyIndex 400000)).
Proof.
  apply (failed_rebuild_installs_empty_index Approx.log Approx.sqrt
           Samples.unreadableDirectory 400000 Samples.index).
  - vm_compute. discriminate.
  - right. reflexivity.
Defined.

(** C9, as stated: the answer to a query of stop words only is the answer
    to a query whose terms match no document, so the caller cannot tell the
    two apart. *)
Lemma stop_word_query_answer_is_not_distinguishable :
  let ask query :=
    fst (POST Approx.log Approx.sqrt Samples.directory 0 None
           (Samples.request query)) in
  tokenizeAndNormalize "the is a" = []
  /\ tokenizeAndNormalize "zebra crossing" = ["zebra"; "crossing"]
  /\ ask "the is a" = mkSearchResponse [] 3 true None 200
  /\ ask "the is a" = ask "zebra crossing".
Proof.
  cbv zeta. split; [vm_compute; reflexivity|]. split; [vm_compute; reflexivity|].
  split; vm_compute; reflexivity.
Qed.

Lemma no_searchable_terms_answer_witness :
  fst (POST Approx.log Approx.sqrt Samples.directory 0 None
         (Samples.request "the is a"))
  = mkSearchResponse [] 3 true None 200.
Proof.
  apply (no_searchable_terms_answer Approx.log Approx.sqrt
           Samples.directory 0 None (Samples.request "the is a")).
  - vm_compute. lia.
  - reflexivity.
  - vm_compute. discriminate.
Defined.

(** ** Dictionaries and sets as lists *)

Lemma mem_In (x : string) (l : list string) : Str.mem x l = true <-> In x l.
Proof.
  unfold Str.mem. rewrite existsb_exists. split.
  - intros [y [Hy E]]. apply String.eqb_eq in E. now subst.
  - intros H. exists x. split; [exact H | apply String.eqb_refl].
Qed.

Lemma mem_false (x : string) (l : list string) : Str.mem x l = false <-> ~ In x l.
Proof.
  rewrite <- mem_In. destruct (Str.mem x l); split; congruence.
Qed.

Lemma set_add_In (x y : string) (l : list string) :
  In x (Str.set_add y l) <-> x = y \/ In x l.
Proof.
  unfold Str.set_add. destruct (Str.mem y l) eqn:E.
  - apply mem_In in E. split; [now right | intros [->|H]; assumption].
  - rewrite in_app_iff. simpl. split; intros H.
    + destruct H as [H|[H|[]]]; [now right | now left].
    + destruct H as [H|H]; [right; left; congruence | now left].
Qed.

Lemma set_add_new (y : string) (l : list string) : ~ In y l -> Str.set_add y l = l ++ [y].
Proof. intros H. apply mem_false in H. unfold Str.set_add. now rewrite H. Qed.

Lemma set_add_old (y : string) (l : list string) : In y l -> Str.set_add y l = l.
Proof. intros H. apply mem_In in H. unfold Str.set_add. now rewrite H. Qed.

Section DictLemmas.
Context {V : Type}.
Implicit Types (d : list (string * V)) (k : string) (v : V).

Lemma get_set_same k v d : Dict.get k (Dict.set k v d) = Some v.
Proof.
  induction d as [|[k' v'] t IH]; simpl.
  - now rewrite String.eqb_refl.
  - destruct (String.eqb k k') eqn:E; simpl.
    + now rewrite String.eqb_refl.
    + now rewrite E.
Qed.

Lemma get_set_other k k' v d : k' <> k -> Dict.get k' (Dict.set k v d) = Dict.get k' d.
Proof.
  intros Hne. induction d as [|[k0 v0] t IH]; simpl.
  - apply String.eqb_neq in Hne. now rewrite Hne.
  - destruct (String.eqb k k0) eqn:E; simpl.
    + apply String.eqb_eq in E. subst k0.
      apply String.eqb_neq in Hne. now rewrite Hne.
    + destruct (String.eqb k' k0); [reflexivity | exact IH].
Qed.

Lemma get_In k v d : Dict.get k d = Some v -> In (k, v) d.
Proof.
  induction d as [|[k' v'] t IH]; simpl; [discriminate|].
  destruct (String.eqb k k') eqn:E.
  - apply String.eqb_eq in E. intros [= ->]. left. now subst.
  - intros H. right. now apply IH.
Qed.

Lemma get_keys k d : Dict.get k d <> None <-> In k (Dict.keys d).
Proof.
  induction d as [|[k' v'] t IH]; simpl.
  - split; [congruence | intros []].
  - destruct (String.eqb k k') eqn:E.
    + apply String.eqb_eq in E. split; [now left | discriminate].
    + apply String.eqb_neq in E. rewrite IH. split; [now right|].
      intros [H|H]; [congruence | exact H].
Qed.

Lemma set_keys_In k k' v d : In k' (Dict.keys (Dict.set k v d)) <-> k' = k \/ In k' (Dict.keys d).
Proof.
  induction d as [|[k0 v0] t IH]; simpl.
  - split; [intros [H|[]]; now left | intros [H|[]]; now left].
  - destruct (String.eqb k k0) eqn:E; simpl.
    + apply String.eqb_eq in E. subst k0. split.
      * intros [H|H]; [left; congruence | right; now right].
      * intros [H|[H|H]]; [left; congruence | now left | now right].
    + rewrite IH. split.
      * intros [H|[H|H]]; [right; now left | now left | right; now right].
      * intros [H|[H|H]]; [right; now left | now left | right; now right].
Qed.

Lemma set_keys_NoDup k v d : NoDup (Dict.keys d) -> NoDup (Dict.keys (Dict.set k v d)).
Proof.
  induction d as [|[k0 v0] t IH]; simpl; intros Hn.
  - constructor; [intros [] | constructor].
  - inversion Hn as [|? ? Hk0 Ht]; subst.
    destruct (String.eqb k k0) eqn:E; simpl.
    + apply String.eqb_eq in E. subst k0. now constructor.
    + apply String.eqb_neq in E. constructor; [|now apply IH].
      fold (Dict.keys (Dict.set k v t)). rewrite set_keys_In.
      intros [H|H]; [congruence | exact (Hk0 H)].
Qed.

End DictLemmas.

Lemma forEachM_app {S A : Type} (body : S -> A -> option S) (l1 l2 : list A) (st : S) :
  forEachM body (l1 ++ l2) st =
  match forEachM body l1 st with
  | Some st' => forEachM body l2 st'
  | None => None
  end.
Proof.
  revert st. induction l1 as [|x t IH]; intros st; simpl; [reflexivity|].
  destruct (body st x); [apply IH | reflexivity].
Qed.

Lemma docIndex_get_set_same k e di : DocumentIndex.get k (DocumentIndex.set k e di) = Some e.
Proof.
  unfold DocumentIndex.get, DocumentIndex.set.
  destruct (String.eqb k "__proto__") eqn:E; simpl; rewrite ?E.
  - reflexivity.
  - apply get_set_same.
Qed.

Lemma docIndex_get_set_other k k' e di :
  k' <> k -> DocumentIndex.get k' (DocumentIndex.set k e di) = DocumentIndex.get k' di.
Proof.
  intros Hne. unfold DocumentIndex.get, DocumentIndex.set.
  destruct (String.eqb k "__proto__") eqn:E; simpl.
  - apply String.eqb_eq in E. subst k.
    apply String.eqb_neq in Hne. now rewrite Hne.
  - destruct (String.eqb k' "__proto__"); [reflexivity | now apply get_set_other].
Qed.

(** ** The first pass of the index builder *)

Lemma postingsOf_set_same (inv : InvertedIndex) (t : string) (e : InvertedIndexEntry.t) :
  postingsOf (Dict.set t e inv) t = InvertedIndexEntry.documents e.
Proof. unfold postingsOf. now rewrite get_set_same. Qed.

Lemma postingsOf_set_other (inv : InvertedIndex) (t t' : string) (e : InvertedIndexEntry.t) :
  t' <> t -> postingsOf (Dict.set t e inv) t' = postingsOf inv t'.
Proof. intros H. unfold postingsOf. now rewrite get_set_other. Qed.

Lemma set_add_idempotent (x : string) (l : list string) :
  Str.set_add x (Str.set_add x l) = Str.set_add x l.
Proof. apply set_add_old. apply set_add_In. now left. Qed.

(** What one step of the word loop does to the three locals. *)
Lemma indexWord_step (docId : string) (st st' : WordState) (word : string) :
  indexWord docId st word = Some st' ->
  isInheritedKey word = false
  /\ ws_termFrequency st'
     = Dict.set word (S (countOf word (ws_termFrequency st))) (ws_termFrequency st)
  /\ ws_vocabulary st' = Str.set_add word (ws_vocabulary st)
  /\ postingsOf (ws_invertedIndex st') word
     = Str.set_add docId (postingsOf (ws_invertedIndex st) word)
  /\ (forall t, t <> word ->
        postingsOf (ws_invertedIndex st') t = postingsOf (ws_invertedIndex st) t)
  /\ (forall t, In t (Dict.keys (ws_invertedIndex st'))
                <-> t = word \/ In t (Dict.keys (ws_invertedIndex st))).
Proof.
  unfold indexWord. destruct (isInheritedKey word); [discriminate|].
  intros [= <-]. simpl. split; [reflexivity|]. split; [reflexivity|]. split; [reflexivity|].
  split; [|split].
  - rewrite postingsOf_set_same. simpl. unfold postingsOf.
    destruct (Dict.get word (ws_invertedIndex st)); reflexivity.
  - intros t Ht. now apply postingsOf_set_other.
  - intros t. apply set_keys_In.
Qed.

Lemma wordLoop (docId : string) (words : list string) :
  forall st st' : WordState,
    forEachM (indexWord docId) words st = Some st' ->
    ws_termFrequency st'
    = fold_left (fun m word => Dict.set word (S (countOf word m)) m) words (ws_termFrequency st)
    /\ (forall t, In t (ws_vocabulary st') <-> In t (ws_vocabulary st) \/ In t words)
    /\ (forall t, postingsOf (ws_invertedIndex st') t
                  = if Str.mem t words
                    then Str.set_add docId (postingsOf (ws_invertedIndex st) t)
                    else postingsOf (ws_invertedIndex st) t)
    /\ (forall t, In t (Dict.keys (ws_invertedIndex st'))
                  <-> In t (Dict.keys (ws_invertedIndex st)) \/ In t words).
Proof.
  induction words as [|w rest IH]; intros st st'; simpl.
  - intros [= <-]. repeat split; tauto.
  - destruct (indexWord docId st w) as [st1|] eqn:E1; [|discriminate].
    intros Hrest. apply indexWord_step in E1.
    destruct E1 as [_ [Htf [Hvoc [Hsame [Hother Hkeys]]]]].
    destruct (IH st1 st' Hrest) as [Htf' [Hvoc' [Hpost' Hkeys']]].
    split; [now rewrite Htf', Htf|]. split; [|split].
    + intros t. rewrite Hvoc', Hvoc, set_add_In. intuition.
    + intros t. rewrite Hpost'.
      destruct (String.eqb t w) eqn:E.
      * apply String.eqb_eq in E. subst t. simpl. rewrite Hsame.
        destruct (Str.mem w rest); [apply set_add_idempotent | reflexivity].
      * apply String.eqb_neq in E. simpl. now rewrite (Hother t E).
    + intros t. rewrite Hkeys', Hkeys. intuition.
Qed.

Lemma countWords_keys_NoDup (words : list string) (m : list (string * nat)) :
  NoDup (Dict.keys m) ->
  NoDup (Dict.keys (fold_left (fun m word => Dict.set word (S (countOf word m)) m) words m)).
Proof.
  revert m. induction words as [|w rest IH]; intros m Hm; simpl; [exact Hm|].
  apply IH. now apply set_keys_NoDup.
Qed.

Lemma firstPass_start : FirstPass [] (mkBuildState [] DocumentIndex.empty [] 0).
Proof.
  constructor; simpl.
  - reflexivity.
  - tauto.
  - intros k e. unfold DocumentIndex.get. simpl.
    destruct (String.eqb k "__proto__"); discriminate.
  - intros d [].
Qed.

Lemma firstPass_step (done : list KnowledgeDocument.t) (st st' : BuildState)
    (doc : KnowledgeDocument.t) :
  FirstPass done st ->
  ~ In (KnowledgeDocument.id doc) (map KnowledgeDocument.id done) ->
  indexDocument st doc = Some st' ->
  FirstPass (done ++ [doc]) st'.
Proof.
  intros [Hpost Hvoc Hent Hidx] Hfresh. unfold indexDocument.
  destruct (forEachM _ _ _) as [ws|] eqn:Eloop; [|discriminate].
  intros [= <-]. apply wordLoop in Eloop. simpl in Eloop.
  destruct Eloop as [Htf [Hv [Hp Hk]]].
  constructor; simpl.
  - intros t. rewrite Hp, Hpost, filter_app, map_app. simpl.
    replace (containsTerm t doc) with (Str.mem t (documentWords doc)) by reflexivity.
    destruct (Str.mem t (documentWords doc)); simpl; [|now rewrite app_nil_r].
    apply set_add_new. intros Hin. apply Hfresh.
    apply in_map_iff in Hin. destruct Hin as [d [Hd Hin]].
    apply filter_In in Hin. apply in_map_iff. exists d. tauto.
  - intros t. rewrite Hv, Hk, Hvoc. tauto.
  - intros k e.
    destruct (String.eqb k (KnowledgeDocument.id doc)) eqn:E.
    + apply String.eqb_eq in E. subst k. rewrite docIndex_get_set_same.
      intros [= <-]. simpl. split; [apply in_or_app; right; now left|].
      split; [reflexivity|]. split; [reflexivity|]. split; [exact Htf | reflexivity].
    + apply String.eqb_neq in E. rewrite docIndex_get_set_other by exact E.
      intros H. destruct (Hent k e H) as [H1 H2]. split; [|exact H2].
      apply in_or_app. now left.
  - intros d Hd. apply in_app_or in Hd. destruct Hd as [Hd|[<-|[]]].
    + rewrite docIndex_get_set_other; [now apply Hidx|].
      intros E. apply Hfresh. rewrite <- E. now apply in_map.
    + rewrite docIndex_get_set_same. eexists. split; reflexivity.
Qed.

Lemma firstPass_loop (rest : list KnowledgeDocument.t) :
  forall (done : list KnowledgeDocument.t) (st st' : BuildState),
    FirstPass done st ->
    NoDup (map KnowledgeDocument.id (done ++ rest)) ->
    forEachM indexDocument rest st = Some st' ->
    FirstPass (done ++ rest) st'.
Proof.
  induction rest as [|doc rest IH]; intros done st st' Hfp Hnd; simpl.
  - intros [= <-]. now rewrite app_nil_r.
  - destruct (indexDocument st doc) as [st1|] eqn:E1; [|discriminate].
    intros Hrest.
    replace (done ++ doc :: rest) with ((done ++ [doc]) ++ rest) in *
      by (now rewrite <- app_assoc).
    apply (IH (done ++ [doc]) st1 st'); [|exact Hnd | exact Hrest].
    apply (firstPass_step done st st1 doc Hfp); [|exact E1].
    rewrite !map_app in Hnd. apply NoDup_app_remove_r in Hnd.
    simpl in Hnd. apply NoDup_remove_2 in Hnd. now rewrite app_nil_r in Hnd.
Qed.

(** ** The second and third pass *)

Section BuilderProperties.
Variable Math_log : Q -> Q.

Local Abbreviation build := (buildKnowledgeBaseIndex Math_log).

Lemma idfPass (documentCount : nat) (terms : list string) :
  forall inv inv' : InvertedIndex,
    forEachM (setIdf Math_log documentCount) terms inv = Some inv' ->
    forall term,
      idfUpdated Math_log documentCount terms term (Dict.get term inv) (Dict.get term inv').
Proof.
  induction terms as [|t rest IH]; intros inv inv'; simpl.
  - intros [= <-] term. unfold idfUpdated.
    destruct (Dict.get term inv); [|exact I].
    split; [reflexivity|]. split; [intros [] | reflexivity].
  - unfold setIdf at 1. destruct (Dict.get t inv) as [e|] eqn:Et; [|discriminate].
    intros Hrest term. specialize (IH _ _ Hrest term). unfold idfUpdated in *.
    destruct (String.eqb term t) eqn:E.
    + apply String.eqb_eq in E. subst term.
      rewrite get_set_same in IH. rewrite Et.
      destruct (Dict.get t inv') as [e'|]; [|exact IH].
      simpl in IH. destruct IH as [Hdocs [Hin Hout]].
      split; [exact Hdocs|]. split.
      * intros _. destruct (in_dec string_dec t rest) as [H|H];
          [exact (Hin H) | exact (Hout H)].
      * intros H. exfalso. apply H. now left.
    + apply String.eqb_neq in E. rewrite get_set_other in IH by exact E.
      destruct (Dict.get term inv); destruct (Dict.get term inv'); try exact IH.
      destruct IH as [Hdocs [Hin Hout]]. split; [exact Hdocs|]. split.
      * intros [Heq|H]; [congruence | exact (Hin H)].
      * intros H. apply Hout. intros H'. apply H. now right.
Qed.

(** The third pass, on one entry. *)
Lemma tfidfPass_keeps (inv : InvertedIndex) (docLength : nat) (pairs : list (string * nat)) :
  forall (vector vector' : list (string * Q)) (term : string),
    forEachM (setTfidf inv docLength) pairs vector = Some vector' ->
    ~ In term (Dict.keys pairs) ->
    Dict.get term vector' = Dict.get term vector.
Proof.
  induction pairs as [|[t tf] rest IH]; intros vector vector' term; simpl.
  - now intros [= <-].
  - destruct (Dict.get t inv) as [e|]; [|discriminate].
    intros Hrest Hn. rewrite (IH _ _ _ Hrest) by tauto.
    apply get_set_other. intros ->. apply Hn. now left.
Qed.

Lemma tfidfPass (inv : InvertedIndex) (docLength : nat) (pairs : list (string * nat)) :
  forall (vector vector' : list (string * Q)),
    NoDup (Dict.keys pairs) ->
    forEachM (setTfidf inv docLength) pairs vector = Some vector' ->
    forall term tf,
      In (term, tf) pairs ->
      exists e, Dict.get term inv = Some e
                /\ Dict.get term vector'
                   = Some ((Qnat tf / Qnat docLength) * InvertedIndexEntry.idf e)%Q.
Proof.
  induction pairs as [|[t n] rest IH]; intros vector vector' Hnd; simpl.
  - intros _ term tf [].
  - inversion Hnd as [|? ? Ht Hrest']; subst.
    destruct (Dict.get t inv) as [e|] eqn:Et; [|discriminate].
    intros Hrest term tf [[= <- <-]|Hin].
    + exists e. split; [exact Et|].
      rewrite (tfidfPass_keeps inv docLength rest _ _ t Hrest Ht).
      apply get_set_same.
    + exact (IH _ _ Hrest' Hrest term tf Hin).
Qed.

Lemma fillTfidf_spec (inv : InvertedIndex) (e e' : DocumentIndexEntry.t) :
  fillTfidf inv e = Some e' ->
  DocumentIndexEntry.document e' = DocumentIndexEntry.document e
  /\ DocumentIndexEntry.termFrequency e' = DocumentIndexEntry.termFrequency e
  /\ DocumentIndexEntry.length e' = DocumentIndexEntry.length e
  /\ forEachM (setTfidf inv (DocumentIndexEntry.length e))
       (DocumentIndexEntry.termFrequency e) (DocumentIndexEntry.tfidfVector e)
     = Some (DocumentIndexEntry.tfidfVector e').
Proof.
  unfold fillTfidf. destruct (forEachM _ _ _) as [vector|]; [|discriminate].
  intros [= <-]. simpl. repeat split; reflexivity.
Qed.

Lemma fillTfidfAll_get (inv : InvertedIndex) (own : list (string * DocumentIndexEntry.t)) :
  forall own' k,
    fillTfidfAll inv own = Some own' ->
    match Dict.get k own, Dict.get k own' with
    | Some e, Some e' => fillTfidf inv e = Some e'
    | None, None => True
    | _, _ => False
    end.
Proof.
  induction own as [|[k0 e0] t IH]; intros own' k; simpl.
  - now intros [= <-].
  - destruct (fillTfidf inv e0) as [e0'|] eqn:E0; [|discriminate].
    destruct (fillTfidfAll inv t) as [t'|] eqn:Et; [|discriminate].
    intros [= <-]. simpl. destruct (String.eqb k k0); [exact E0 | now apply IH].
Qed.

Lemma build_passes (documents : list KnowledgeDocument.t) (now : Z)
    (index : KnowledgeBaseIndex.t) :
  build documents now = Some index ->
  exists st inv own,
    forEachM indexDocument documents (mkBuildState [] DocumentIndex.empty [] 0) = Some st
    /\ forEachM (setIdf Math_log (List.length documents)) (bs_vocabulary st)
         (bs_invertedIndex st) = Some inv
    /\ fillTfidfAll inv (DocumentIndex.own (bs_documentIndex st)) = Some own
    /\ KnowledgeBaseIndex.invertedIndex index = inv
    /\ KnowledgeBaseIndex.documentIndex index
       = DocumentIndex.mk own (DocumentIndex.proto (bs_documentIndex st))
    /\ KnowledgeBaseIndex.vocabulary index = bs_vocabulary st.
Proof.
  unfold buildKnowledgeBaseIndex.
  destruct (forEachM indexDocument _ _) as [st|] eqn:E1; [|discriminate].
  destruct (forEachM (setIdf _ _) _ _) as [inv|] eqn:E2; [|discriminate].
  destruct (fillTfidfAll _ _) as [own|] eqn:E3; [|discriminate].
  intros [= <-]. exists st, inv, own. simpl.
  split; [reflexivity|]. split; [exact E2|]. split; [exact E3|]. repeat split; reflexivity.
Qed.

(** The documents listed under a term of a built index are the ids of the
    documents that contain the term, in the order of the corpus. *)
Lemma built_postings (documents : list KnowledgeDocument.t) (now : Z)
    (index : KnowledgeBaseIndex.t) :
  NoDup (map KnowledgeDocument.id documents) ->
  build documents now = Some index ->
  forall term,
    postingsOf (KnowledgeBaseIndex.invertedIndex index) term
    = map KnowledgeDocument.id (filter (containsTerm term) documents).
Proof.
  intros Hnd Hb term. apply build_passes in Hb.
  destruct Hb as [st [inv [own [H1 [H2 [_ [Hinv _]]]]]]].
  apply (firstPass_loop documents [] _ st firstPass_start Hnd) in H1. simpl in H1.
  rewrite Hinv, <- (fp_postings _ _ H1 term).
  pose proof (idfPass _ _ _ _ H2 term) as Hu. unfold idfUpdated, postingsOf in *.
  destruct (Dict.get term (bs_invertedIndex st)); destruct (Dict.get term inv);
    try contradiction; [apply Hu | reflexivity].
Qed.

(** Every entry of a built document index is the entry of a document of the
    corpus, filed under that document's id. *)
Lemma built_entries (documents : list KnowledgeDocument.t) (now : Z)
    (index : KnowledgeBaseIndex.t) :
  NoDup (map KnowledgeDocument.id documents) ->
  build documents now = Some index ->
  forall docId docEntry,
    DocumentIndex.get docId (KnowledgeBaseIndex.documentIndex index) = Some docEntry ->
    In (DocumentIndexEntry.document docEntry) documents
    /\ KnowledgeDocument.id (DocumentIndexEntry.document docEntry) = docId.
Proof.
  intros Hnd Hb docId docEntry. apply build_passes in Hb.
  destruct Hb as [st [inv [own [H1 [_ [H3 [_ [Hdi _]]]]]]]].
  apply (firstPass_loop documents [] _ st firstPass_start Hnd) in H1. simpl in H1.
  rewrite Hdi. unfold DocumentIndex.get. simpl.
  destruct (String.eqb docId "__proto__") eqn:E.
  - intros Hp. destruct (fp_entries _ _ H1 docId docEntry) as [Ha [Hb _]]; [|tauto].
    unfold DocumentIndex.get. now rewrite E.
  - intros Hg. pose proof (fillTfidfAll_get _ _ _ docId H3) as Hf. rewrite Hg in Hf.
    destruct (Dict.get docId (DocumentIndex.own (bs_documentIndex st))) as [e|] eqn:Ee;
      [|contradiction].
    apply fillTfidf_spec in Hf. destruct Hf as [-> _].
    destruct (fp_entries _ _ H1 docId e) as [Ha [Hb _]]; [|tauto].
    unfold DocumentIndex.get. now rewrite E.
Qed.

End BuilderProperties.

(** The entries of a built index: the [idf] of every term of the vocabulary
    and the [tfidfVector] of every document. *)
Lemma built_index_formulas :
  forall (Math_log : Q -> Q) (documents : list KnowledgeDocument.t) (now : Z)
         (index : KnowledgeBaseIndex.t),
    NoDup (map KnowledgeDocument.id documents) ->
    ~ In "__proto__" (map KnowledgeDocument.id documents) ->
    buildKnowledgeBaseIndex Math_log documents now = Some index ->
    (forall term,
        In term (KnowledgeBaseIndex.vocabulary index) ->
        exists entry,
          Dict.get term (KnowledgeBaseIndex.invertedIndex index) = Some entry
          /\ List.length (InvertedIndexEntry.documents entry) = documentFrequency term documents
          /\ InvertedIndexEntry.idf entry
             = Math_log (Qnat (List.length documents)
                         / (1 + Qnat (documentFrequency term documents)))%Q)
    /\ (forall doc,
          In doc documents ->
          exists docEntry,
            DocumentIndex.get (KnowledgeDocument.id doc) (KnowledgeBaseIndex.documentIndex index)
            = Some docEntry
            /\ DocumentIndexEntry.document docEntry = doc
            /\ DocumentIndexEntry.length docEntry = List.length (documentWords doc)
            /\ DocumentIndexEntry.termFrequency docEntry = countWords (documentWords doc)
            /\ forall term tf,
                 Dict.get term (DocumentIndexEntry.termFrequency docEntry) = Some tf ->
                 exists entry,
                   Dict.get term (KnowledgeBaseIndex.invertedIndex index) = Some entry
                   /\ Dict.get term (DocumentIndexEntry.tfidfVector docEntry)
                      = Some ((Qnat tf / Qnat (DocumentIndexEntry.length docEntry))
                              * InvertedIndexEntry.idf entry)%Q).
Proof.
  intros Math_log documents now index Hnd Hproto Hb.
  pose proof (built_postings Math_log documents now index Hnd Hb) as Hpost.
  apply build_passes in Hb.
  destruct Hb as [st [inv [own [H1 [H2 [H3 [Hinv [Hdi Hvoc]]]]]]]].
  apply (firstPass_loop documents [] _ st firstPass_start Hnd) in H1. simpl in H1.
  split.
  - intros term Hterm.
    assert (HtermV : In term (bs_vocabulary st)) by (now rewrite <- Hvoc).
    assert (Hkey : Dict.get term (bs_invertedIndex st) <> None)
      by (apply get_keys, (fp_vocabulary _ _ H1), HtermV).
    pose proof (idfPass _ _ _ _ _ H2 term) as Hu. unfold idfUpdated in Hu.
    specialize (Hpost term). unfold postingsOf in Hpost. rewrite Hinv in Hpost |- *.
    destruct (Dict.get term (bs_invertedIndex st)) as [e|]; [|congruence].
    destruct (Dict.get term inv) as [e'|]; [|contradiction].
    destruct Hu as [Hdocs [Hidf _]].
    assert (Hlen : List.length (InvertedIndexEntry.documents e')
                   = documentFrequency term documents).
    { rewrite Hpost. unfold documentFrequency. apply length_map. }
    exists e'. split; [reflexivity|]. split; [exact Hlen|].
    rewrite (Hidf HtermV). unfold idfFormula. now rewrite <- Hdocs, Hlen.
  - intros doc Hdoc.
    destruct (fp_indexed _ _ H1 doc Hdoc) as [e [Hget Hdoce]].
    destruct (fp_entries _ _ H1 _ _ Hget) as [_ [_ [Hlen [Htf Hvec]]]].
    assert (Hid : KnowledgeDocument.id doc <> "__proto__").
    { intros E. apply Hproto. rewrite <- E. now apply in_map. }
    apply String.eqb_neq in Hid.
    unfold DocumentIndex.get in Hget. rewrite Hid in Hget.
    pose proof (fillTfidfAll_get _ _ _ (KnowledgeDocument.id doc) H3) as Hf.
    rewrite Hget in Hf.
    destruct (Dict.get (KnowledgeDocument.id doc) own) as [e'|] eqn:Ee'; [|contradiction].
    apply fillTfidf_spec in Hf. destruct Hf as [Hd' [Htf' [Hlen' Hloop]]].
    exists e'. rewrite Hdi. unfold DocumentIndex.get. simpl. rewrite Hid.
    split; [exact Ee'|]. rewrite Hd', Hlen', Htf', Hdoce in *.
    split; [reflexivity|]. split; [exact Hlen|]. split; [exact Htf|].
    intros term tf Hterm. rewrite Hinv.
    apply (tfidfPass _ _ _ _ _) with (term := term) (tf := tf) in Hloop.
    + exact Hloop.
    + rewrite Htf. unfold countWords. apply countWords_keys_NoDup. constructor.
    + now apply get_In.
Qed.

(** ** Candidates *)

Lemma dedup_onto_In (l seen : list string) (x : string) :
  In x (Str.dedup_onto seen l) -> In x l.
Proof.
  revert seen. induction l as [|y t IH]; intros seen; simpl; [tauto|].
  destruct (Str.mem y seen).
  - intros H. right. exact (IH _ H).
  - intros [H|H]; [now left | right; exact (IH _ H)].
Qed.

Lemma fold_set_add_In (items acc : list string) (x : string) :
  In x (fold_left (fun a y => Str.set_add y a) items acc) <-> In x acc \/ In x items.
Proof.
  revert acc. induction items as [|y t IH]; intros acc; simpl; [tauto|].
  rewrite IH, set_add_In. intuition.
Qed.

(** Every term of the expanded query is a token of the query or a synonym
    of one, and the expansion raises exactly on the inherited keys. *)
Lemma expansion_terms (words : list string) :
  forall (known expanded : list string) (acc : list string),
    forEachM addSynonyms words acc = Some expanded ->
    existsb isInheritedKey words = false
    /\ forall term,
         In term expanded ->
         In term acc
         \/ exists word synonyms,
              In word words /\ Dict.get word synonymMap = Some synonyms /\ In term synonyms.
Proof.
  induction words as [|w rest IH]; intros known expanded acc; cbn [forEachM existsb].
  - intros [= <-]. split; [reflexivity | tauto].
  - unfold addSynonyms at 1. destruct (isInheritedKey w); [discriminate|].
    cbn [orb].
    destruct (Dict.get w synonymMap) as [synonyms|] eqn:Ew; intros Hrest;
      destruct (IH known _ _ Hrest) as [Hk Hterms]; (split; [exact Hk|]);
      intros term Hterm; destruct (Hterms term Hterm) as [Hacc|[word [syns [H1 [H2 H3]]]]].
    + apply fold_set_add_In in Hacc. destruct Hacc as [Hacc|Hsyn]; [now left|].
      right. exists w, synonyms. split; [now left | split; assumption].
    + right. exists word, syns. split; [now right | split; assumption].
    + now left.
    + right. exists word, syns. split; [now right | split; assumption].
Qed.

Lemma expansion_defined (words : list string) :
  forall acc : list string,
    existsb isInheritedKey words = false ->
    exists expanded, forEachM addSynonyms words acc = Some expanded.
Proof.
  induction words as [|w rest IH]; intros acc; cbn [forEachM existsb].
  - intros _. now exists acc.
  - intros H. apply orb_false_iff in H. destruct H as [Hw Hrest].
    unfold addSynonyms at 1. rewrite Hw.
    destruct (Dict.get w synonymMap); now apply IH.
Qed.

Lemma expandQuery_terms (query : string) (index : KnowledgeBaseIndex.t)
    (expanded : list string) :
  expandQueryForSmallKb (tokenizeAndNormalize query) index = Some expanded ->
  forall term, In term expanded -> isQueryTerm query term.
Proof.
  unfold expandQueryForSmallKb. intros H term Hterm.
  destruct (expansion_terms _ [] _ _ H) as [_ Hterms].
  destruct (Hterms term Hterm) as [Hacc|Hsyn].
  - left. eapply dedup_onto_In. exact Hacc.
  - right. exact Hsyn.
Qed.

(** A candidate id is listed by the inverted index under an expanded term. *)
Lemma candidate_listed (index : KnowledgeBaseIndex.t) (expanded : list string) (docId : string) :
  In docId (candidateDocIds index expanded) ->
  exists term,
    In term expanded /\ In docId (postingsOf (KnowledgeBaseIndex.invertedIndex index) term).
Proof.
  unfold candidateDocIds.
  assert (H : forall acc,
             In docId
               (fold_left
                  (fun candidates term =>
                     match Dict.get term (KnowledgeBaseIndex.invertedIndex index) with
                     | Some termEntry =>
                         fold_left (fun a d => Str.set_add d a)
                           (InvertedIndexEntry.documents termEntry) candidates
                     | None => candidates
                     end) expanded acc) ->
             In docId acc
             \/ exists term,
                  In term expanded
                  /\ In docId (postingsOf (KnowledgeBaseIndex.invertedIndex index) term)).
  { induction expanded as [|t rest IH]; intros acc; simpl; [tauto|].
    intros Hin. destruct (IH _ Hin) as [Hacc|[term [H1 H2]]].
    - unfold postingsOf.
      destruct (Dict.get t (KnowledgeBaseIndex.invertedIndex index)) as [e|] eqn:Et.
      + apply fold_set_add_In in Hacc. destruct Hacc as [Hacc|Hd]; [now left|].
        right. exists t. rewrite Et. split; [now left | exact Hd].
      + now left.
    - right. exists term. split; [now right | exact H2]. }
  intros Hin. destruct (H [] Hin) as [[]|Hterm]. exact Hterm.
Qed.

Lemma scoreCandidate_doc Math_sqrt index query queryWords expandedQuery docEntry r :
  In r (scoreCandidate Math_sqrt index query queryWords expandedQuery docEntry) ->
  SearchResult.doc r = DocumentIndexEntry.document docEntry.
Proof.
  unfold scoreCandidate. destruct (Qgtb _ 8); [|intros []]. now intros [<-|[]].
Qed.

Lemma distinct_ids_identify (documents : list KnowledgeDocument.t)
    (d d' : KnowledgeDocument.t) :
  NoDup (map KnowledgeDocument.id documents) ->
  In d documents -> In d' documents ->
  KnowledgeDocument.id d = KnowledgeDocument.id d' -> d = d'.
Proof.
  induction documents as [|x t IH]; simpl; [intros _ []|].
  intros Hnd Hd Hd' Hid. inversion Hnd as [|? ? Hx Ht]; subst.
  destruct Hd as [->|Hd]; destruct Hd' as [->|Hd'].
  - reflexivity.
  - exfalso. apply Hx. rewrite Hid. now apply in_map.
  - exfalso. apply Hx. rewrite <- Hid. now apply in_map.
  - now apply IH.
Qed.

(** C5, amended.  On a corpus of documents with pairwise distinct ids and a
    query none of whose tokens is [constructor] or [__proto__], so that the
    indexed search runs to its end, every returned document is a document of
    the corpus that contains one of the query's terms, a token of the query
    or a synonym added by query expansion. *)
Theorem indexed_results_contain_a_query_term :
  forall (Math_log Math_sqrt : Q -> Q) (documents : list KnowledgeDocument.t) (now : Z)
         (index : KnowledgeBaseIndex.t) (query : string) (maxResults : Z),
    NoDup (map KnowledgeDocument.id documents) ->
    buildKnowledgeBaseIndex Math_log documents now = Some index ->
    hasInheritedKey query = false ->
    forall r,
      In r (searchDocuments Math_sqrt (Some index) query documents maxResults) ->
      In (SearchResult.doc r) documents
      /\ exists term,
           isQueryTerm query term /\ containsTerm term (SearchResult.doc r) = true.
Proof.
  intros Math_log Math_sqrt documents now index query maxResults Hnd Hb Hkeys r.
  unfold searchDocuments.
  destruct (tokenizeAndNormalize query) as [|w ws] eqn:Etok; [intros []|].
  unfold hasInheritedKey in Hkeys. rewrite Etok in Hkeys.
  destruct (expansion_defined (w :: ws) (Str.dedup (w :: ws)) Hkeys) as [expanded Hexp].
  unfold expandQueryForSmallKb at 1. rewrite Hexp.
  destruct (candidateDocIds index expanded) eqn:Ecand; [intros []|].
  intros Hr. apply ranking_In in Hr. unfold scoredCandidates in Hr.
  apply in_flat_map in Hr. destruct Hr as [docId [Hcand Hr]].
  destruct (DocumentIndex.get docId (KnowledgeBaseIndex.documentIndex index))
    as [docEntry|] eqn:Eentry; [|destruct Hr].
  apply scoreCandidate_doc in Hr. rewrite Hr.
  destruct (built_entries Math_log documents now index Hnd Hb docId docEntry Eentry)
    as [Hdoc Hid].
  split; [exact Hdoc|].
  apply candidate_listed in Hcand. destruct Hcand as [term [Hterm Hlisted]].
  exists term. split.
  - apply (expandQuery_terms query index expanded); [|exact Hterm].
    rewrite Etok. exact Hexp.
  - rewrite (built_postings Math_log documents now index Hnd Hb) in Hlisted.
    apply in_map_iff in Hlisted. destruct Hlisted as [d [Hdid Hd]].
    apply filter_In in Hd. destruct Hd as [Hd Hcontains].
    assert (d = DocumentIndexEntry.document docEntry) as <-; [|exact Hcontains].
    apply (distinct_ids_identify documents); try assumption. congruence.
Qed.

(** ** The exact match of the query in the title *)

Lemma floor_at_least (n : Z) (x : Q) : (inject_Z n <= x)%Q -> n <= Qfloor x.
Proof. intros H. rewrite <- (Qfloor_Z n). now apply Qfloor_resp_le. Qed.

Lemma filter_length_le {A : Type} (f g : A -> bool) (l : list A) :
  (forall x, In x l -> f x = true -> g x = true) ->
  (List.length (filter f l) <= List.length (filter g l))%nat.
Proof.
  induction l as [|x t IH]; intros H; simpl; [lia|].
  assert (Ht : (List.length (filter f t) <= List.length (filter g t))%nat)
    by (apply IH; intros y Hy; apply H; now right).
  destruct (f x) eqn:Ef.
  - rewrite (H x (or_introl eq_refl) Ef). simpl. lia.
  - destruct (g x); simpl; lia.
Qed.

Lemma Qcount_le (n m : nat) (bonus : Z) :
  (n <= m)%nat -> 0 <= bonus -> (Qcount n bonus <= Qcount m bonus)%Q.
Proof. intros Hnm Hb. unfold Qcount, Qle. simpl. nia. Qed.

(** The sum of the positive values of one family is at most that of a
    family that is not below it where the first is positive. *)
Lemma positive_sum_le {A : Type} (f g : A -> Q) (l : list A) :
  (forall x, In x l -> (0 < f x)%Q -> (f x <= g x)%Q) ->
  forall acc acc' : Q,
    (acc <= acc')%Q ->
    (fold_left Qplus (filter (fun x => Qgtb x 0) (map f l)) acc
     <= fold_left Qplus (filter (fun x => Qgtb x 0) (map g l)) acc')%Q.
Proof.
  induction l as [|x t IH]; intros H acc acc' Hacc; cbn [map filter fold_left]; [exact Hacc|].
  assert (Ht : forall y, In y t -> (0 < f y)%Q -> (f y <= g y)%Q)
    by (intros y Hy; apply H; now right).
  destruct (Qgtb (f x) 0) eqn:Ef.
  - apply Qgtb_spec in Ef. pose proof (H x (or_introl eq_refl) Ef) as Hfg.
    assert (Eg : Qgtb (g x) 0 = true) by (apply Qgtb_spec; lra).
    rewrite Eg. cbn [fold_left]. apply IH; [exact Ht | lra].
  - destruct (Qgtb (g x) 0) eqn:Eg; cbn [fold_left].
    + apply Qgtb_spec in Eg. apply IH; [exact Ht | lra].
    + apply IH; assumption.
Qed.

Lemma tfidfFactor_value (expandedQuery : list string) (docEntry : DocumentIndexEntry.t) :
  (tfidfFactor expandedQuery docEntry
   == Qsum (filter (fun x => Qgtb x 0) (map (tfidfOf docEntry) expandedQuery)) * 150)%Q.
Proof.
  unfold tfidfFactor. destruct (filter _ _); [reflexivity | reflexivity].
Qed.

(** Adding at least 73 to a raw score adds at least 3 to its normalized
    value, [Math.round((score / 2000) * 100)]. *)
Lemma round_of_73_more (s s' : Q) :
  (s + 73 <= s')%Q ->
  Math_round ((s / 2000) * 100)%Q + 3 <= Math_round ((s' / 2000) * 100)%Q.
Proof.
  intros Hs. unfold Math_round. apply floor_at_least.
  pose proof (Qfloor_le ((s / 2000) * 100 + (1 # 2))%Q) as Hf.
  rewrite inject_Z_plus. change (inject_Z 3) with 3%Q.
  generalize dependent (inject_Z (Qfloor (s / 2000 * 100 + (1 # 2)))). intros q Hq.
  unfold Qdiv in *. change (/ 2000)%Q with (1 # 2000)%Q in *. lra.
Qed.

Section TitleMatch.
Variable Math_sqrt : Q -> Q.
Variable index : KnowledgeBaseIndex.t.
Variable query : string.
Variables queryWords expandedQuery : list string.
Variables withMatch without : DocumentIndexEntry.t.
Hypothesis alike : AlikeButTitle Math_sqrt index queryWords expandedQuery withMatch without.

(** The factors that read neither the title nor what the index derives
    from it. *)
Lemma same_content_factors :
  topicFactor expandedQuery withMatch = topicFactor expandedQuery without
  /\ exactContentFactor query withMatch = exactContentFactor query without
  /\ phraseContentFactor queryWords withMatch = phraseContentFactor queryWords without
  /\ tagFactor expandedQuery withMatch = tagFactor expandedQuery without
  /\ coverageFactor queryWords withMatch = coverageFactor queryWords without
  /\ proximityFactor queryWords withMatch = proximityFactor queryWords without
  /\ headerFactor queryWords withMatch = headerFactor queryWords without
  /\ codeFactor queryWords withMatch = codeFactor queryWords without
  /\ listFactor queryWords withMatch = listFactor queryWords without
  /\ densityFactor withMatch = densityFactor without
  /\ lengthFactor withMatch = lengthFactor without
  /\ filenameFactor queryWords withMatch = filenameFactor queryWords without
  /\ crossRefFactor queryWords withMatch = crossRefFactor queryWords without
  /\ relevanceFactor withMatch = relevanceFactor without.
Proof.
  destruct alike as [Hc Ht Hs Hr Htop _ _ _ _].
  unfold topicFactor, exactContentFactor, phraseContentFactor, tagFactor,
    coverageFactor, proximityFactor, proximityCount, headerFactor, codeFactor, listFactor,
    densityFactor, lengthFactor, wordCount, filenameFactor, crossRefFactor, relevanceFactor.
  rewrite Hc, Ht, Hs, Hr, Htop. repeat split; reflexivity.
Qed.

Lemma tfidfFactor_le :
  (tfidfFactor expandedQuery without <= tfidfFactor expandedQuery withMatch)%Q.
Proof.
  rewrite !tfidfFactor_value. unfold Qsum.
  pose proof (positive_sum_le (tfidfOf without) (tfidfOf withMatch) expandedQuery
                (ab_tfidf _ _ _ _ _ _ alike) 0 0 (Qle_refl 0)) as H.
  lra.
Qed.

(** The similarity factor lies between 0 and 35 when the cosine is at most
    1. *)
Lemma similarityFactor_le :
  (similarityFactor Math_sqrt index expandedQuery without
   <= similarityFactor Math_sqrt index expandedQuery withMatch + 35)%Q.
Proof.
  pose proof (ab_cosine _ _ _ _ _ _ alike) as H.
  unfold similarityFactor, similarityOf in *.
  destruct (Qgtb (cosineSimilarity _ _ (DocumentIndexEntry.embeddings without)) _);
    destruct (Qgtb (cosineSimilarity _ _ (DocumentIndexEntry.embeddings withMatch)) _) eqn:Ea;
    try (apply Qgtb_spec in Ea); lra.
Qed.

(** The other factors that read the title.  The intent bonus reads the
    title in one test, worth 12. *)
Lemma title_factors_le :
  (phraseTitleFactor queryWords without <= phraseTitleFactor queryWords withMatch)%Q
  /\ (temporalFactor queryWords without <= temporalFactor queryWords withMatch)%Q
  /\ (intentFactor queryWords without <= intentFactor queryWords withMatch + 12)%Q.
Proof.
  destruct alike as [Hc Ht _ _ _ _ _ Hph Htmp]. unfold titleOf in *.
  split; [|split].
  - unfold phraseTitleFactor. apply Qcount_le; [|lia]. now apply filter_length_le.
  - unfold temporalFactor. destruct (hasTemporalQuery queryWords); [|apply Qle_refl].
    rewrite <- Zle_Qle. unfold temporalContentScore, temporalTitleScore. rewrite Hc.
    pose proof (filter_length_le _ _ temporalKeywords Htmp). lia.
  - unfold intentFactor. change 12%Q with (inject_Z 12). rewrite <- inject_Z_plus, <- Zle_Qle.
    unfold analyzeQueryIntent. rewrite Hc, Ht.
    destruct (someIn queryWords ["what"; "definition"; "meaning"; "explain"; "overview"]
              && (Str.includes (KnowledgeDocument.title (DocumentIndexEntry.document without))
                    "Fundamentals"
                  || Str.includes (KnowledgeDocument.title (DocumentIndexEntry.document without))
                       "Overview"
                  || Str.includes (KnowledgeDocument.content (DocumentIndexEntry.document without))
                       "## What"));
      destruct (someIn queryWords ["what"; "definition"; "meaning"; "explain"; "overview"]
                && (Str.includes
                      (KnowledgeDocument.title (DocumentIndexEntry.document withMatch))
                      "Fundamentals"
                    || Str.includes
                         (KnowledgeDocument.title (DocumentIndexEntry.document withMatch))
                         "Overview"
                    || Str.includes
                         (KnowledgeDocument.content (DocumentIndexEntry.document without))
                         "## What"));
      lia.
Qed.

Lemma exact_title_difference :
  hasExactTitle query withMatch = true ->
  hasExactTitle query without = false ->
  (rawScore Math_sqrt index query queryWords expandedQuery without + 73
   <= rawScore Math_sqrt index query queryWords expandedQuery withMatch)%Q.
Proof.
  intros Ha Hb. unfold rawScore.
  destruct same_content_factors
    as [-> [-> [-> [-> [-> [-> [-> [-> [-> [-> [-> [-> [-> ->]]]]]]]]]]]]].
  destruct title_factors_le as [Hphrase [Htemporal Hintent]].
  pose proof tfidfFactor_le as Htfidf. pose proof similarityFactor_le as Hsim.
  unfold exactTitleFactor. unfold hasExactTitle, titleOf in Ha, Hb. rewrite Ha, Hb.
  unfold Qsum. cbn [fold_left]. lra.
Qed.

End TitleMatch.


(** ** When the index builder returns *)

Lemma wordLoop_defined (docId : string) (words : list string) :
  forall st : WordState,
    existsb isInheritedKey words = false ->
    exists st', forEachM (indexWord docId) words st = Some st'.
Proof.
  induction words as [|w rest IH]; intros st; cbn [forEachM existsb].
  - intros _. now exists st.
  - intros H. apply orb_false_iff in H. destruct H as [Hw Hrest].
    unfold indexWord at 1. rewrite Hw. now apply IH.
Qed.

Lemma countWords_keys (words : list string) :
  forall (m : list (string * nat)) (t : string),
    In t (Dict.keys (fold_left (fun m word => Dict.set word (S (countOf word m)) m) words m))
    <-> In t (Dict.keys m) \/ In t words.
Proof.
  induction words as [|w rest IH]; intros m t; simpl; [tauto|].
  rewrite IH, set_keys_In. intuition.
Qed.

Lemma set_In {V : Type} (k k' : string) (v v' : V) (d : list (string * V)) :
  In (k', v') (Dict.set k v d) -> (k', v') = (k, v) \/ In (k', v') d.
Proof.
  induction d as [|[k0 v0] t IH]; simpl.
  - intros [H|[]]. left. now symmetry.
  - destruct (String.eqb k k0); simpl.
    + intros [H|H]; [left; now symmetry | right; now right].
    + intros [H|H]; [right; now left|].
      destruct (IH H) as [H'|H']; [now left | right; now right].
Qed.

Lemma firstPass_defined (documents : list KnowledgeDocument.t) :
  forall st : BuildState,
    termsIndexed st ->
    hasInheritedToken documents = false ->
    exists st', forEachM indexDocument documents st = Some st' /\ termsIndexed st'.
Proof.
  induction documents as [|doc rest IH]; intros st Hst; cbn [forEachM hasInheritedToken existsb].
  - intros _. now exists st.
  - intros H. apply orb_false_iff in H. destruct H as [Hdoc Hrest].
    unfold indexDocument at 1.
    destruct (wordLoop_defined (KnowledgeDocument.id doc) (documentWords doc)
                (mkWordState [] (bs_vocabulary st) (bs_invertedIndex st)) Hdoc) as [ws Hws].
    rewrite Hws. apply IH; [|exact Hrest].
    apply wordLoop in Hws. simpl in Hws. destruct Hws as [Htf [Hv [_ Hk]]].
    destruct Hst as [Hvoc Hown]. split; simpl.
    + intros t Ht. apply Hk. apply Hv in Ht. destruct Ht as [Ht|Ht]; [left; now apply Hvoc | now right].
    + intros k e t Hin Ht. apply Hk.
      unfold DocumentIndex.set in Hin.
      destruct (String.eqb (KnowledgeDocument.id doc) "__proto__"); simpl in Hin.
      * left. exact (Hown k e t Hin Ht).
      * apply set_In in Hin. destruct Hin as [[= -> ->]|Hin].
        -- simpl in Ht. rewrite Htf in Ht. apply countWords_keys in Ht.
           destruct Ht as [[]|Ht]. now right.
        -- left. exact (Hown k e t Hin Ht).
Qed.

Section BuilderReturns.
Variable Math_log : Q -> Q.

Lemma idfPass_defined (documentCount : nat) (terms : list string) :
  forall inv : InvertedIndex,
    (forall t, In t terms -> In t (Dict.keys inv)) ->
    exists inv',
      forEachM (setIdf Math_log documentCount) terms inv = Some inv'
      /\ forall t, In t (Dict.keys inv) -> In t (Dict.keys inv').
Proof.
  induction terms as [|t rest IH]; intros inv Hall; cbn [forEachM].
  - exists inv. split; [reflexivity | tauto].
  - unfold setIdf at 1.
    destruct (Dict.get t inv) as [e|] eqn:Et.
    + edestruct IH as [inv' [Hrun Hkeys]]; [|exists inv'; split; [exact Hrun|]].
      * intros x Hx. apply set_keys_In. right. apply Hall. now right.
      * intros x Hx. apply Hkeys, set_keys_In. now right.
    + exfalso. assert (Hin : In t (Dict.keys inv)) by (apply Hall; now left).
      apply get_keys in Hin. congruence.
Qed.

Lemma tfidfPass_defined (inv : InvertedIndex) (docLength : nat) (pairs : list (string * nat)) :
  forall vector : list (string * Q),
    (forall t, In t (Dict.keys pairs) -> In t (Dict.keys inv)) ->
    exists vector', forEachM (setTfidf inv docLength) pairs vector = Some vector'.
Proof.
  induction pairs as [|[t n] rest IH]; intros vector Hall; cbn [forEachM].
  - now exists vector.
  - unfold setTfidf at 1.
    destruct (Dict.get t inv) as [e|] eqn:Et.
    + apply IH. intros x Hx. apply Hall. now right.
    + exfalso. assert (Hin : In t (Dict.keys inv)) by (apply Hall; now left).
      apply get_keys in Hin. congruence.
Qed.

Lemma fillTfidfAll_defined (inv : InvertedIndex) (own : list (string * DocumentIndexEntry.t)) :
  (forall k e t, In (k, e) own ->
                 In t (Dict.keys (DocumentIndexEntry.termFrequency e)) ->
                 In t (Dict.keys inv)) ->
  exists own', fillTfidfAll inv own = Some own'.
Proof.
  induction own as [|[k e] rest IH]; intros Hall; cbn [fillTfidfAll].
  - now exists [].
  - destruct (tfidfPass_defined inv (DocumentIndexEntry.length e)
                (DocumentIndexEntry.termFrequency e) (DocumentIndexEntry.tfidfVector e))
      as [vector Hv].
    { intros t Ht. apply (Hall k e t); [now left | exact Ht]. }
    unfold fillTfidf. rewrite Hv.
    destruct IH as [rest' Hrest].
    { intros k' e' t Hin Ht. apply (Hall k' e' t); [now right | exact Ht]. }
    rewrite Hrest. eexists. reflexivity.
Qed.

(** The builder returns an index unless a token of a document is an
    inherited key. *)
Lemma build_defined (documents : list KnowledgeDocument.t) (now : Z) :
  hasInheritedToken documents = false ->
  exists index, buildKnowledgeBaseIndex Math_log documents now = Some index.
Proof.
  intros Hno. unfold buildKnowledgeBaseIndex.
  destruct (firstPass_defined documents (mkBuildState [] DocumentIndex.empty [] 0))
    as [st [Hst [Hvoc Hown]]]; [|exact Hno|].
  { split; simpl; [intros t [] | intros k e t []]. }
  rewrite Hst.
  destruct (idfPass_defined (List.length documents) (bs_vocabulary st) (bs_invertedIndex st) Hvoc)
    as [inv [Hinv Hkeys]].
  rewrite Hinv.
  destruct (fillTfidfAll_defined inv (DocumentIndex.own (bs_documentIndex st))) as [own Hfill].
  { intros k e t Hin Ht. apply Hkeys. exact (Hown k e t Hin Ht). }
  rewrite Hfill. eexists. reflexivity.
Qed.

End BuilderReturns.


(** ** The statements on the sample inputs *)

Ltac distinct_strings :=
  repeat (constructor; [simpl; intuition discriminate|]); constructor.

Example builder_raises_on_inherited_key :
  buildKnowledgeBaseIndex Approx.log
    [KnowledgeDocument.mk "oop" "Classes" "The constructor runs first." [] "oop.md" (1 # 2)] 0
  = None.
Proof. vm_compute. reflexivity. Qed.

Lemma sample_index_built :
  buildKnowledgeBaseIndex Approx.log Samples.corpus 0 = Some Samples.index.
Proof. vm_compute. reflexivity. Qed.



(** C5, as stated, on the directory of three files: the query [constructor
    cat] has the tokens [constructor] and [cat], which have no synonyms; the
    file [storage.md] holds neither token, and it is returned. *)
Lemma fallback_returns_document_without_query_term :
  let answer :=
    fst (POST Approx.log Approx.sqrt Samples.directory 0 None
           (Samples.request "constructor cat")) in
  tokenizeAndNormalize "constructor cat" = ["constructor"; "cat"]
  /\ Dict.get "constructor" synonymMap = None
  /\ Dict.get "cat" synonymMap = None
  /\ map (fun r => (KnowledgeDocument.source (SearchResult.doc r),
                    documentWords (SearchResult.doc r),
                    containsTerm "constructor" (SearchResult.doc r),
                    containsTerm "cat" (SearchResult.doc r)))
       (results answer)
     = [("storage.md",
         ["data"; "storage"; "relational"; "storage"; "one"; "category"; "many"],
         false, false)].
Proof.
  cbv zeta. split; [vm_compute; reflexivity|]. split; [vm_compute; reflexivity|].
  split; vm_compute; reflexivity.
Qed.

Lemma indexed_results_contain_a_query_term_witness :
  map (fun r => KnowledgeDocument.id (SearchResult.doc r))
    (searchDocuments Approx.sqrt (Some Samples.index) "cloud learning" Samples.corpus 5)
  = ["04_cloud_computing"; "02_machine_learning_algorithms"; "07_database_design"]
  /\ Forall
       (fun r =>
          In (SearchResult.doc r) Samples.corpus
          /\ exists term,
               isQueryTerm "cloud learning" term
               /\ containsTerm term (SearchResult.doc r) = true)
       (searchDocuments Approx.sqrt (Some Samples.index) "cloud learning" Samples.corpus 5).
Proof.
  split; [vm_compute; reflexivity|].
  apply Forall_forall. intros r Hr.
  apply (indexed_results_contain_a_query_term Approx.log Approx.sqrt Samples.corpus 0
           Samples.index "cloud learning" 5).
  - vm_compute. distinct_strings.
  - exact sample_index_built.
  - vm_compute. reflexivity.
  - exact Hr.
Defined.


Lemma plain_alike_but_title :
  AlikeButTitle Approx.sqrt Samples.plainIndex ["machine"; "learning"] ["machine"; "learning"]
    (Samples.entryOf Samples.plainIndex Samples.plainTitled)
    (Samples.entryOf Samples.plainIndex Samples.plainSwapped).
Proof.
  constructor; try (vm_compute; reflexivity).
  - intros term H. repeat (destruct H as [<-|H]; [vm_compute; discriminate|]). destruct H.
  - vm_compute. discriminate.
  - intros phrase H. repeat (destruct H as [<-|H]; [vm_compute; discriminate|]). destruct H.
  - intros keyword H. repeat (destruct H as [<-|H]; [vm_compute; discriminate|]). destruct H.
Qed.


Example plain_scores :
  tokenizeAndNormalize "machine learning" = ["machine"; "learning"]
  /\ expandQueryForSmallKb ["machine"; "learning"] Samples.plainIndex = Some ["machine"; "learning"]
  /\ map (fun r => (KnowledgeDocument.title (SearchResult.doc r), SearchResult.searchScore r))
       (searchDocuments Approx.sqrt (Some Samples.plainIndex) "machine learning" Samples.plainPair 5)
     = [("Machine Learning", 18); ("Learning Machine", 10)].
Proof. repeat split; vm_compute; reflexivity. Qed.

Example twins_scores :
  map (fun r => (KnowledgeDocument.title (SearchResult.doc r), SearchResult.searchScore r))
    (searchDocuments Approx.sqrt (Some Samples.twinsIndex) "machine-learning" Samples.twins 5)
  = [("Machine-Learning", 12); ("Learning-Machine", 6)].
Proof. vm_compute. reflexivity. Qed.

(** * Further properties of the module *)

(** ** The tokenizer *)

Lemma allChars_map (p : ascii -> bool) (f : ascii -> ascii) (s : string) :
  allChars p (Str.map_string f s) = allChars (fun c => p (f c)) s.
Proof. induction s as [|c t IH]; simpl; [reflexivity | now rewrite IH]. Qed.

Lemma allChars_impl (p q : ascii -> bool) (s : string) :
  (forall c, p c = true -> q c = true) -> allChars p s = true -> allChars q s = true.
Proof.
  intros H. induction s as [|c t IH]; simpl; [reflexivity|].
  intros Hs. apply andb_true_iff in Hs. destruct Hs as [Hc Ht].
  now rewrite (H c Hc), (IH Ht).
Qed.

Lemma allChars_all (p : ascii -> bool) (s : string) :
  (forall c, p c = true) -> allChars p s = true.
Proof. intros H. induction s as [|c t IH]; simpl; [reflexivity | now rewrite H, IH]. Qed.

Lemma map_string_id (f : ascii -> ascii) (p : ascii -> bool) (s : string) :
  (forall c, p c = true -> f c = c) -> allChars p s = true -> Str.map_string f s = s.
Proof.
  intros H. induction s as [|c t IH]; simpl; [reflexivity|].
  intros Hs. apply andb_true_iff in Hs. destruct Hs as [Hc Ht].
  now rewrite (H c Hc), (IH Ht).
Qed.

Lemma map_string_length (f : ascii -> ascii) (s : string) :
  String.length (Str.map_string f s) = String.length s.
Proof. induction s as [|c t IH]; simpl; [reflexivity | now rewrite IH]. Qed.

(** The pieces of a split hold characters of the string and no separator. *)
Lemma splitRuns_pieces (sep q : ascii -> bool) (s : string) :
  forall inRun : bool,
    allChars q s = true ->
    Forall (fun piece => allChars (fun c => q c && negb (sep c)) piece = true)
      (Str.splitRuns sep inRun s).
Proof.
  induction s as [|c t IH]; intros inRun; simpl.
  - intros _. now repeat constructor.
  - intros Hs. apply andb_true_iff in Hs. destruct Hs as [Hc Ht].
    destruct (sep c) eqn:Ec.
    + destruct inRun; [now apply IH|]. constructor; [reflexivity | now apply IH].
    + specialize (IH false Ht).
      destruct (Str.splitRuns sep false t) as [|p ps].
      * constructor; [|constructor]. simpl. now rewrite Hc, Ec.
      * inversion IH as [|? ? Hp Hps]; subst. constructor; [|exact Hps].
        simpl. now rewrite Hc, Ec, Hp.
Qed.

Lemma split_pieces (sep q : ascii -> bool) (s piece : string) :
  allChars q s = true ->
  In piece (Str.split sep s) ->
  allChars q piece = true /\ allChars (fun c => negb (sep c)) piece = true.
Proof.
  intros Hs Hin. pose proof (splitRuns_pieces sep q s false Hs) as H.
  rewrite Forall_forall in H. specialize (H piece Hin).
  split; (eapply allChars_impl; [|exact H]); intros c Hc;
    apply andb_true_iff in Hc; tauto.
Qed.

(** A string without a separator is its own single piece. *)
Lemma splitRuns_whole (sep : ascii -> bool) (s : string) :
  allChars (fun c => negb (sep c)) s = true -> Str.splitRuns sep false s = [s].
Proof.
  induction s as [|c t IH]; simpl; [reflexivity|].
  intros Hs. apply andb_true_iff in Hs. destruct Hs as [Hc Ht].
  apply negb_true_iff in Hc. now rewrite Hc, (IH Ht).
Qed.

(** Lowercasing and blanking leave token characters and whitespace. *)
Lemma normalized_char (c : ascii) :
  let d := blankPunctuation (Str.lowerChar c) in
  isTokenChar d || Str.isSpace d = true.
Proof. destruct c as [[] [] [] [] [] [] [] []]; reflexivity. Qed.

Lemma tokenChar_not_space (c : ascii) :
  (isTokenChar c || Str.isSpace c) && negb (Str.isSpace c) = true -> isTokenChar c = true.
Proof. destruct c as [[] [] [] [] [] [] [] []]; simpl; intros H; try reflexivity; discriminate. Qed.

Lemma tokenChar_fixed (c : ascii) :
  isTokenChar c = true ->
  Str.lowerChar c = c /\ blankPunctuation c = c /\ Str.isSpace c = false.
Proof.
  destruct c as [[] [] [] [] [] [] [] []]; intros H; try discriminate H; repeat split; reflexivity.
Qed.

Lemma lowerChar_notUpper (c : ascii) : notUpper (Str.lowerChar c) = true.
Proof. destruct c as [[] [] [] [] [] [] [] []]; reflexivity. Qed.

Lemma toLowerCase_notUpper (s : string) : allChars notUpper (Str.toLowerCase s) = true.
Proof.
  unfold Str.toLowerCase. rewrite allChars_map. apply allChars_all, lowerChar_notUpper.
Qed.

Lemma firstn_In {A : Type} (n : nat) (l : list A) (x : A) : In x (firstn n l) -> In x l.
Proof.
  intros H. rewrite <- (firstn_skipn n l). apply in_or_app. now left.
Qed.

Lemma firstn_NoDup {A : Type} (n : nat) (l : list A) : NoDup l -> NoDup (firstn n l).
Proof.
  intros H. rewrite <- (firstn_skipn n l) in H. now apply NoDup_app_remove_r in H.
Qed.

Lemma tokens_split (text : string) :
  Forall (fun piece => allChars isTokenChar piece = true)
    (Str.split Str.isSpace (Str.map_string blankPunctuation (Str.toLowerCase text))).
Proof.
  unfold Str.split.
  eapply Forall_impl;
    [|apply (splitRuns_pieces Str.isSpace (fun c => isTokenChar c || Str.isSpace c))].
  - intros piece H. eapply allChars_impl; [|exact H]. apply tokenChar_not_space.
  - unfold Str.toLowerCase. rewrite !allChars_map. apply allChars_all.
    intros c. apply normalized_char.
Qed.

Lemma token_In (text word : string) :
  In word (tokenizeAndNormalize text) -> isToken word.
Proof.
  unfold tokenizeAndNormalize. intros H. apply firstn_In in H.
  apply filter_In in H. destruct H as [Hin Hkeep].
  unfold keepWord in Hkeep. apply andb_true_iff in Hkeep. destruct Hkeep as [Hlen Hstop].
  apply Nat.ltb_lt in Hlen. apply negb_true_iff in Hstop.
  pose proof (tokens_split text) as Hall. rewrite Forall_forall in Hall.
  repeat split; [exact Hlen | exact Hstop | now apply Hall].
Qed.

Lemma token_tokenizes (word : string) : isToken word -> tokenizeAndNormalize word = [word].
Proof.
  intros [Hlen [Hstop Hchars]]. unfold tokenizeAndNormalize, Str.toLowerCase.
  rewrite (map_string_id Str.lowerChar isTokenChar word) by
    (try exact Hchars; intros c Hc; apply (tokenChar_fixed c Hc)).
  rewrite (map_string_id blankPunctuation isTokenChar word) by
    (try exact Hchars; intros c Hc; apply (tokenChar_fixed c Hc)).
  unfold Str.split. rewrite splitRuns_whole.
  - simpl. unfold keepWord. rewrite Hstop.
    apply Nat.ltb_lt in Hlen. rewrite Hlen. reflexivity.
  - eapply allChars_impl; [|exact Hchars].
    intros c Hc. apply negb_true_iff. apply (tokenChar_fixed c Hc).
Qed.

(** X1.  Whatever the text, the tokenizer returns at most 1000 tokens, and
    every token has more than two characters, all of them lowercase
    letters, digits or underscores, and is not a stop word.  In particular
    no token is one of the two-letter keys [ai] and [ml] of the synonym
    table or one of the cue words [how], [what] and [explain]. *)
Theorem tokens_are_normalized :
  forall text : string,
    (List.length (tokenizeAndNormalize text) <= 1000)%nat
    /\ Forall isToken (tokenizeAndNormalize text).
Proof.
  intros text. split.
  - unfold tokenizeAndNormalize. rewrite length_firstn. lia.
  - apply Forall_forall. intros word. apply token_In.
Qed.

(** X2.  A token is its own tokenization: a term the index holds for a
    document is, typed as a query, exactly that one term. *)
Theorem token_is_its_own_query :
  forall text word : string,
    In word (tokenizeAndNormalize text) -> tokenizeAndNormalize word = [word].
Proof. intros text word H. apply token_tokenizes. exact (token_In text word H). Qed.

Lemma token_is_its_own_query_witness : tokenizeAndNormalize "learning" = ["learning"].
Proof.
  apply (token_is_its_own_query "What is Machine-Learning?" "learning").
  vm_compute. tauto.
Defined.

(** ** Query expansion *)

Lemma set_add_NoDup (x : string) (l : list string) : NoDup l -> NoDup (Str.set_add x l).
Proof.
  intros Hl. unfold Str.set_add. destruct (Str.mem x l) eqn:E; [exact Hl|].
  apply mem_false in E. apply NoDup_app; [exact Hl | repeat constructor; intros [] |].
  intros y Hy [<-|[]]. contradiction.
Qed.

Lemma dedup_onto_NoDup (l : list string) :
  forall seen : list string,
    NoDup (Str.dedup_onto seen l)
    /\ forall x, In x (Str.dedup_onto seen l) -> Str.mem x seen = false.
Proof.
  induction l as [|y t IH]; intros seen; simpl; [split; [constructor | intros x []]|].
  destruct (Str.mem y seen) eqn:Ey; [apply IH|].
  destruct (IH (y :: seen)) as [Hnd Hout]. split.
  - constructor; [|exact Hnd]. intros Hin. apply Hout in Hin.
    simpl in Hin. now rewrite String.eqb_refl in Hin.
  - intros x [<-|Hx]; [exact Ey|]. apply Hout in Hx. simpl in Hx.
    apply orb_false_iff in Hx. tauto.
Qed.

Lemma dedup_NoDup (l : list string) : NoDup (Str.dedup l).
Proof. apply dedup_onto_NoDup. Qed.

Lemma dedup_onto_keeps (l seen : list string) (x : string) :
  In x l -> Str.mem x seen = true \/ In x (Str.dedup_onto seen l).
Proof.
  revert seen. induction l as [|y t IH]; intros seen; simpl; [intros []|].
  intros [->|Hx].
  - destruct (Str.mem x seen); [now left | right; now left].
  - destruct (Str.mem y seen) eqn:Ey; [now apply IH|].
    destruct (IH (y :: seen) Hx) as [H|H]; [|right; now right].
    simpl in H. apply orb_true_iff in H. destruct H as [H|H]; [|now left].
    apply String.eqb_eq in H. right. now left.
Qed.

Lemma dedup_In (l : list string) (x : string) : In x l -> In x (Str.dedup l).
Proof.
  intros H. destruct (dedup_onto_keeps l [] x H) as [H'|H']; [discriminate | exact H'].
Qed.

Lemma fold_set_add_extends (items : list string) :
  forall acc : list string,
    exists added,
      fold_left (fun a y => Str.set_add y a) items acc = acc ++ added
      /\ (forall x, In x added -> In x items)
      /\ (NoDup acc -> NoDup (acc ++ added)).
Proof.
  induction items as [|y t IH]; intros acc; cbn [fold_left].
  - exists []. rewrite app_nil_r. split; [reflexivity|]. split; [intros x [] | tauto].
  - destruct (IH (Str.set_add y acc)) as [added [Hfold [Hin Hnd]]].
    unfold Str.set_add in *. destruct (Str.mem y acc) eqn:E.
    + exists added. split; [exact Hfold|]. split; [|exact Hnd].
      intros x Hx. right. now apply Hin.
    + exists (y :: added). rewrite Hfold, <- app_assoc. split; [reflexivity|]. split.
      * intros x [<-|Hx]; [now left | right; now apply Hin].
      * intros Hacc. rewrite <- app_assoc in Hnd. apply Hnd.
        apply (set_add_NoDup y) in Hacc. unfold Str.set_add in Hacc. now rewrite E in Hacc.
Qed.

Lemma expansion_extends (words : list string) :
  forall acc expanded : list string,
    forEachM addSynonyms words acc = Some expanded ->
    exists added,
      expanded = acc ++ added
      /\ (forall term, In term added ->
            exists word synonyms,
              In word words /\ Dict.get word synonymMap = Some synonyms /\ In term synonyms)
      /\ (NoDup acc -> NoDup expanded).
Proof.
  induction words as [|w rest IH]; intros acc expanded; cbn [forEachM].
  - intros [= <-]. exists []. rewrite app_nil_r.
    split; [reflexivity|]. split; [intros term [] | tauto].
  - unfold addSynonyms at 1. destruct (isInheritedKey w); [discriminate|].
    destruct (Dict.get w synonymMap) as [synonyms|] eqn:Ew; intros Hrest.
    + destruct (fold_set_add_extends synonyms acc) as [first [Hfold [Hfirst Hnd1]]].
      rewrite Hfold in Hrest.
      destruct (IH _ _ Hrest) as [more [-> [Hmore Hnd2]]].
      exists (first ++ more). rewrite app_assoc. split; [reflexivity|]. split.
      * intros term Hterm. apply in_app_or in Hterm. destruct Hterm as [Hterm|Hterm].
        -- exists w, synonyms. split; [now left|]. split; [exact Ew | now apply Hfirst].
        -- destruct (Hmore term Hterm) as [word [syns [H1 [H2 H3]]]].
           exists word, syns. split; [now right | now split].
      * intros Hacc. apply Hnd2, Hnd1, Hacc.
    + destruct (IH _ _ Hrest) as [more [-> [Hmore Hnd2]]].
      exists more. split; [reflexivity|]. split; [|exact Hnd2].
      intros term Hterm. destruct (Hmore term Hterm) as [word [syns [H1 [H2 H3]]]].
      exists word, syns. split; [now right | now split].
Qed.

Lemma expansion_keeps (words : list string) :
  forall acc expanded : list string,
    forEachM addSynonyms words acc = Some expanded ->
    forall term, In term acc -> In term expanded.
Proof.
  intros acc expanded H term Hterm.
  destruct (expansion_extends words acc expanded H) as [added [-> _]].
  apply in_or_app. now left.
Qed.

(** X3.  When query expansion returns, the expanded query has no term
    twice; it starts with the query words in their order, each once; and
    what follows are synonyms the table lists for one of the query words. *)
Theorem expansion_appends_synonyms_to_the_query_words :
  forall (queryWords : list string) (index : KnowledgeBaseIndex.t) (expandedQuery : list string),
    expandQueryForSmallKb queryWords index = Some expandedQuery ->
    NoDup expandedQuery
    /\ exists added,
         expandedQuery = Str.dedup queryWords ++ added
         /\ forall term,
              In term added ->
              exists word synonyms,
                In word queryWords
                /\ Dict.get word synonymMap = Some synonyms
                /\ In term synonyms.
Proof.
  intros queryWords index expandedQuery Hexp. unfold expandQueryForSmallKb in Hexp.
  destruct (expansion_extends _ _ _ Hexp) as [added [Heq [Hadded Hnd]]].
  split; [apply Hnd, dedup_NoDup|]. exists added. now split.
Qed.

Lemma expansion_appends_synonyms_to_the_query_words_witness :
  NoDup ["cloud"; "storage"; "cloud computing"; "aws"; "azure"; "scalability"; "distributed"]
  /\ exists added,
       ["cloud"; "storage"; "cloud computing"; "aws"; "azure"; "scalability"; "distributed"]
       = Str.dedup ["cloud"; "storage"; "cloud"] ++ added
       /\ forall term,
            In term added ->
            exists word synonyms,
              In word ["cloud"; "storage"; "cloud"]
              /\ Dict.get word synonymMap = Some synonyms
              /\ In term synonyms.
Proof.
  apply (expansion_appends_synonyms_to_the_query_words ["cloud"; "storage"; "cloud"]
           Samples.index).
  vm_compute. reflexivity.
Defined.

(** ** What the index builder files *)

Section MoreDictLemmas.
Context {V : Type}.
Implicit Types (d : list (string * V)) (k : string) (v : V).

Lemma set_keys k v d : Dict.keys (Dict.set k v d) = Str.set_add k (Dict.keys d).
Proof.
  unfold Str.set_add. induction d as [|[k' v'] t IH]; simpl; [reflexivity|].
  destruct (String.eqb k k') eqn:E; simpl.
  - apply String.eqb_eq in E. now subst.
  - rewrite IH. destruct (Str.mem k (Dict.keys t)); reflexivity.
Qed.

Lemma set_fresh k v d : ~ In k (Dict.keys d) -> Dict.set k v d = d ++ [(k, v)].
Proof.
  induction d as [|[k' v'] t IH]; simpl; [reflexivity|].
  intros Hn. destruct (String.eqb k k') eqn:E.
  - apply String.eqb_eq in E. exfalso. apply Hn. now left.
  - rewrite IH; [reflexivity|]. intros H. apply Hn. now right.
Qed.

(** Without array-index keys, [Object.values] follows the insertion order. *)
Lemma values_named d :
  (forall k, In k (Dict.keys d) -> Dict.arrayIndex k = None) ->
  Dict.values d = map snd d.
Proof.
  unfold Dict.values. induction d as [|[k v] t IH]; simpl; [reflexivity|].
  intros H. rewrite (H k) by now left. simpl.
  assert (Ht : forall k', In k' (Dict.keys t) -> Dict.arrayIndex k' = None)
    by (intros k' Hk'; apply H; now right).
  specialize (IH Ht).
  assert (Hnone : Dict.indexedEntries t = []).
  { clear IH H. induction t as [|[k' v'] t' IH']; simpl; [reflexivity|].
    rewrite (Ht k') by now left. apply IH'. intros k'' Hk''. apply Ht. now right. }
  rewrite Hnone in *. simpl in *. now rewrite IH.
Qed.

Lemma insertIndexed_perm (n : N) v (l : list (N * V)) :
  Permutation ((n, v) :: l) (Dict.insertIndexed n v l).
Proof.
  induction l as [|[m w] t IH]; simpl; [apply Permutation_refl|].
  destruct (n <? m)%N; [apply Permutation_refl|].
  eapply perm_trans; [apply perm_swap|]. now apply perm_skip.
Qed.

(** [Object.values] lists every entry once. *)
Lemma values_perm d : Permutation (map snd d) (Dict.values d).
Proof.
  unfold Dict.values. induction d as [|[k v] t IH]; simpl; [constructor|].
  destruct (Dict.arrayIndex k) as [n|].
  - eapply perm_trans; [apply perm_skip, IH|].
    change (v :: map snd (Dict.indexedEntries t) ++ Dict.namedEntries t)
      with (map snd ((n, v) :: Dict.indexedEntries t) ++ Dict.namedEntries t).
    apply Permutation_app_tail, Permutation_map, insertIndexed_perm.
  - eapply perm_trans; [apply perm_skip, IH|]. apply Permutation_middle.
Qed.

End MoreDictLemmas.

(** The word loop: the vocabulary stays the list of keys of the inverted
    index, and every word adds one to the frequency of its entry. *)
Lemma wordLoop_terms (docId : string) (words : list string) :
  forall st st' : WordState,
    forEachM (indexWord docId) words st = Some st' ->
    ws_vocabulary st = Dict.keys (ws_invertedIndex st) ->
    ws_vocabulary st' = Dict.keys (ws_invertedIndex st')
    /\ (forall t, frequencyOf (ws_invertedIndex st') t
                  = (frequencyOf (ws_invertedIndex st) t + count_occ string_dec words t)%nat).
Proof.
  induction words as [|w rest IH]; intros st st'; cbn [forEachM].
  - intros [= <-] Hv. split; [exact Hv|]. intros t. simpl. lia.
  - unfold indexWord at 1. destruct (isInheritedKey w); [discriminate|].
    intros Hrest Hv. apply IH in Hrest.
    + destruct Hrest as [Hv' Hf']. split; [exact Hv'|].
      intros t. rewrite Hf'. cbn [ws_invertedIndex]. unfold frequencyOf.
      cbn [count_occ]. destruct (string_dec w t) as [->|Hne].
      * rewrite get_set_same. cbn [InvertedIndexEntry.frequency].
        destruct (Dict.get t (ws_invertedIndex st)); simpl; lia.
      * rewrite get_set_other by congruence. lia.
    + cbn [ws_vocabulary ws_invertedIndex]. rewrite set_keys. now rewrite Hv.
Qed.

Lemma wordLoop_NoDup (docId : string) (words : list string) :
  forall st st' : WordState,
    forEachM (indexWord docId) words st = Some st' ->
    NoDup (ws_vocabulary st) -> NoDup (ws_vocabulary st').
Proof.
  induction words as [|w rest IH]; intros st st'; cbn [forEachM].
  - now intros [= <-].
  - unfold indexWord at 1. destruct (isInheritedKey w); [discriminate|].
    intros Hrest Hn. apply (IH _ _ Hrest). cbn [ws_vocabulary].
    now apply set_add_NoDup.
Qed.

Lemma occurrences_cons (t : string) (doc : KnowledgeDocument.t)
    (rest : list KnowledgeDocument.t) :
  occurrences t (doc :: rest)
  = (count_occ string_dec (documentWords doc) t + occurrences t rest)%nat.
Proof. reflexivity. Qed.

Lemma totalLength_cons (doc : KnowledgeDocument.t) (rest : list KnowledgeDocument.t) :
  totalLength (doc :: rest) = (List.length (documentWords doc) + totalLength rest)%nat.
Proof. reflexivity. Qed.

(** The first pass: vocabulary, frequencies and the running length. *)
Lemma firstPass_terms (documents : list KnowledgeDocument.t) :
  forall st st' : BuildState,
    forEachM indexDocument documents st = Some st' ->
    bs_vocabulary st = Dict.keys (bs_invertedIndex st) ->
    bs_vocabulary st' = Dict.keys (bs_invertedIndex st')
    /\ (forall t, In t (bs_vocabulary st')
                  <-> In t (bs_vocabulary st)
                      \/ exists doc, In doc documents /\ containsTerm t doc = true)
    /\ (forall t, frequencyOf (bs_invertedIndex st') t
                  = (frequencyOf (bs_invertedIndex st) t + occurrences t documents)%nat)
    /\ bs_totalDocumentLength st'
       = (bs_totalDocumentLength st + totalLength documents)%nat.
Proof.
  induction documents as [|doc rest IH]; intros st st'; cbn [forEachM].
  - intros [= <-] Hv. split; [exact Hv|]. split; [|split].
    + intros t. split; [now left | intros [H|[d [[] _]]]; exact H].
    + intros t. unfold occurrences. simpl. lia.
    + unfold totalLength. simpl. lia.
  - unfold indexDocument at 1.
    destruct (forEachM (indexWord _) _ _) as [ws|] eqn:Eloop; [|discriminate].
    intros Hrest Hv.
    pose proof (wordLoop _ _ _ _ Eloop) as [_ [Hvoc _]].
    apply wordLoop_terms in Eloop; [|exact Hv]. destruct Eloop as [Hkeys Hfreq].
    apply IH in Hrest; [|exact Hkeys].
    cbn [bs_vocabulary bs_invertedIndex bs_totalDocumentLength] in Hrest.
    cbn [ws_vocabulary ws_invertedIndex] in Hfreq, Hvoc.
    destruct Hrest as [Hv' [Hin' [Hf' Hlen']]]. split; [exact Hv'|]. split; [|split].
    + intros t. rewrite Hin', Hvoc. unfold containsTerm. split.
      * intros [[H|H]|[d [Hd Hc]]].
        -- now left.
        -- right. exists doc. split; [now left | now apply mem_In].
        -- right. exists d. split; [now right | exact Hc].
      * intros [H|[d [[<-|Hd] Hc]]].
        -- left. now left.
        -- left. right. now apply mem_In.
        -- right. exists d. now split.
    + intros t. rewrite Hf', Hfreq, occurrences_cons. lia.
    + rewrite Hlen', totalLength_cons. lia.
Qed.

Lemma firstPass_NoDup (documents : list KnowledgeDocument.t) :
  forall st st' : BuildState,
    forEachM indexDocument documents st = Some st' ->
    NoDup (bs_vocabulary st) -> NoDup (bs_vocabulary st').
Proof.
  induction documents as [|doc rest IH]; intros st st'; cbn [forEachM].
  - now intros [= <-].
  - unfold indexDocument at 1.
    destruct (forEachM (indexWord _) _ _) as [ws|] eqn:Eloop; [|discriminate].
    intros Hrest Hnd. apply (IH _ _ Hrest). cbn [bs_vocabulary].
    apply (wordLoop_NoDup _ _ _ _ Eloop). exact Hnd.
Qed.

Section BuiltIndex.
Variable Math_log : Q -> Q.

(** The second pass changes no key and no frequency. *)
Lemma idfPass_keeps (documentCount : nat) (terms : list string) :
  forall inv inv' : InvertedIndex,
    forEachM (setIdf Math_log documentCount) terms inv = Some inv' ->
    Dict.keys inv' = Dict.keys inv
    /\ forall t, frequencyOf inv' t = frequencyOf inv t.
Proof.
  induction terms as [|term rest IH]; intros inv inv'; cbn [forEachM].
  - intros [= <-]. now split.
  - unfold setIdf at 1. destruct (Dict.get term inv) as [e|] eqn:Et; [|discriminate].
    intros Hrest. apply IH in Hrest. destruct Hrest as [Hk Hf]. split.
    + rewrite Hk, set_keys. apply set_add_old. apply get_keys. congruence.
    + intros t. rewrite Hf. unfold frequencyOf.
      destruct (string_dec term t) as [->|Hne].
      * rewrite get_set_same, Et. reflexivity.
      * now rewrite get_set_other by congruence.
Qed.

Lemma built_terms (documents : list KnowledgeDocument.t) (now : Z)
    (index : KnowledgeBaseIndex.t) :
  buildKnowledgeBaseIndex Math_log documents now = Some index ->
  KnowledgeBaseIndex.vocabulary index = Dict.keys (KnowledgeBaseIndex.invertedIndex index)
  /\ (forall t, In t (KnowledgeBaseIndex.vocabulary index)
                <-> exists doc, In doc documents /\ containsTerm t doc = true)
  /\ (forall t, frequencyOf (KnowledgeBaseIndex.invertedIndex index) t
                = occurrences t documents).
Proof.
  intros Hb. apply build_passes in Hb.
  destruct Hb as [st [inv [own [H1 [H2 [_ [Hinv [_ Hvoc]]]]]]]].
  apply firstPass_terms in H1; [|reflexivity].
  cbn [bs_vocabulary bs_invertedIndex bs_totalDocumentLength] in H1.
  destruct H1 as [Hkeys [Hin [Hfreq _]]].
  apply idfPass_keeps in H2. destruct H2 as [Hk Hf].
  rewrite Hinv, Hvoc. split; [now rewrite Hk|]. split.
  - intros t. rewrite Hin. split; [intros [[]|H]; exact H | now right].
  - intros t. now rewrite Hf, Hfreq.
Qed.

Lemma built_vocabulary_NoDup (documents : list KnowledgeDocument.t)
    (now : Z) (index : KnowledgeBaseIndex.t) :
  buildKnowledgeBaseIndex Math_log documents now = Some index ->
  NoDup (KnowledgeBaseIndex.vocabulary index).
Proof.
  intros Hb. apply build_passes in Hb.
  destruct Hb as [st [inv [own [H1 [_ [_ [_ [_ Hvoc]]]]]]]].
  rewrite Hvoc. apply (firstPass_NoDup _ _ _ H1). constructor.
Qed.

Lemma built_header (documents : list KnowledgeDocument.t) (now : Z)
    (index : KnowledgeBaseIndex.t) :
  buildKnowledgeBaseIndex Math_log documents now = Some index ->
  KnowledgeBaseIndex.totalDocuments index = List.length documents
  /\ KnowledgeBaseIndex.lastIndexed index = now
  /\ KnowledgeBaseIndex.averageDocumentLength index
     = match documents with
       | [] => None
       | _ => Some (Qnat (totalLength documents) / Qnat (List.length documents))%Q
       end.
Proof.
  unfold buildKnowledgeBaseIndex.
  destruct (forEachM indexDocument _ _) as [st|] eqn:E1; [|discriminate].
  destruct (forEachM (setIdf _ _) _ _) as [inv|]; [|discriminate].
  destruct (fillTfidfAll _ _) as [own|]; [|discriminate].
  intros [= <-]. cbn [KnowledgeBaseIndex.totalDocuments KnowledgeBaseIndex.lastIndexed
                      KnowledgeBaseIndex.averageDocumentLength].
  split; [reflexivity|]. split; [reflexivity|].
  apply firstPass_terms in E1; [|reflexivity].
  destruct E1 as [_ [_ [_ Hlen]]]. cbn [bs_totalDocumentLength] in Hlen.
  rewrite Hlen. reflexivity.
Qed.

Lemma indexed_terms_are_tokens (documents : list KnowledgeDocument.t) (now : Z)
    (index : KnowledgeBaseIndex.t) (term : string) :
  buildKnowledgeBaseIndex Math_log documents now = Some index ->
  In term (Dict.keys (KnowledgeBaseIndex.invertedIndex index)) ->
  isToken term.
Proof.
  intros Hb Hterm.
  destruct (built_terms documents now index Hb) as [Hkeys [Hin _]].
  rewrite <- Hkeys in Hterm. apply Hin in Hterm. destruct Hterm as [doc [_ Hc]].
  unfold containsTerm in Hc. apply mem_In in Hc.
  unfold documentWords in Hc. exact (token_In _ _ Hc).
Qed.

(** Every document of the corpus has its entry. *)
Lemma built_indexed (documents : list KnowledgeDocument.t) (now : Z)
    (index : KnowledgeBaseIndex.t) (doc : KnowledgeDocument.t) :
  NoDup (map KnowledgeDocument.id documents) ->
  buildKnowledgeBaseIndex Math_log documents now = Some index ->
  In doc documents ->
  exists docEntry,
    DocumentIndex.get (KnowledgeDocument.id doc) (KnowledgeBaseIndex.documentIndex index)
    = Some docEntry
    /\ DocumentIndexEntry.document docEntry = doc.
Proof.
  intros Hnd Hb Hdoc. apply build_passes in Hb.
  destruct Hb as [st [inv [own [H1 [_ [H3 [_ [Hdi _]]]]]]]].
  apply (firstPass_loop documents [] _ st firstPass_start Hnd) in H1. simpl in H1.
  destruct (fp_indexed _ _ H1 doc Hdoc) as [e [Hget He]].
  rewrite Hdi. unfold DocumentIndex.get in *. cbn [DocumentIndex.own DocumentIndex.proto].
  destruct (String.eqb (KnowledgeDocument.id doc) "__proto__").
  - exists e. now split.
  - pose proof (fillTfidfAll_get _ _ _ (KnowledgeDocument.id doc) H3) as Hf.
    rewrite Hget in Hf.
    destruct (Dict.get (KnowledgeDocument.id doc) own) as [e'|]; [|contradiction].
    apply fillTfidf_spec in Hf. destruct Hf as [Hd _].
    exists e'. split; [reflexivity | congruence].
Qed.

End BuiltIndex.

Lemma mem_ext (s1 s2 : list string) :
  (forall x, In x s1 <-> In x s2) -> forall x, Str.mem x s1 = Str.mem x s2.
Proof.
  intros H x. destruct (Str.mem x s2) eqn:E.
  - apply mem_In. apply H. now apply mem_In.
  - apply mem_false. intros Hin. apply H in Hin. apply mem_In in Hin. congruence.
Qed.

Lemma dedup_onto_ext (l : list string) :
  forall s1 s2 : list string,
    (forall x, In x s1 <-> In x s2) -> Str.dedup_onto s1 l = Str.dedup_onto s2 l.
Proof.
  induction l as [|y t IH]; intros s1 s2 H; cbn [Str.dedup_onto]; [reflexivity|].
  rewrite (mem_ext s1 s2 H y). destruct (Str.mem y s2); [now apply IH|].
  f_equal. apply IH. intros x. simpl. now rewrite H.
Qed.

Lemma dedup_onto_app (l1 : list string) :
  forall seen l2 : list string,
    Str.dedup_onto seen (l1 ++ l2)
    = Str.dedup_onto seen l1 ++ Str.dedup_onto (seen ++ l1) l2.
Proof.
  induction l1 as [|y t IH]; intros seen l2; cbn [app Str.dedup_onto].
  - now rewrite app_nil_r.
  - destruct (Str.mem y seen) eqn:Ey.
    + rewrite IH. f_equal. apply dedup_onto_ext. intros x.
      rewrite !in_app_iff. simpl. apply mem_In in Ey. split; [tauto|].
      intros [H|[<-|H]]; tauto.
    + cbn [app]. rewrite IH. do 2 f_equal. apply dedup_onto_ext. intros x.
      rewrite !in_app_iff. simpl. tauto.
Qed.

Lemma dedup_onto_members (l seen : list string) (x : string) :
  In x (seen ++ Str.dedup_onto seen l) <-> In x (seen ++ l).
Proof.
  rewrite !in_app_iff. split.
  - intros [H|H]; [now left | right; exact (dedup_onto_In _ _ _ H)].
  - intros [H|H]; [now left|].
    destruct (dedup_onto_keeps l seen x H) as [H'|H']; [left; now apply mem_In | now right].
Qed.

(** The loop over the words of a document appends its new words. *)
Lemma wordLoop_vocabulary (docId : string) (words : list string) :
  forall st st' : WordState,
    forEachM (indexWord docId) words st = Some st' ->
    ws_vocabulary st' = ws_vocabulary st ++ Str.dedup_onto (ws_vocabulary st) words.
Proof.
  induction words as [|w rest IH]; intros st st'; cbn [forEachM Str.dedup_onto].
  - intros [= <-]. now rewrite app_nil_r.
  - unfold indexWord at 1. destruct (isInheritedKey w); [discriminate|].
    intros Hrest. apply IH in Hrest. cbn [ws_vocabulary] in Hrest. rewrite Hrest.
    unfold Str.set_add. destruct (Str.mem w (ws_vocabulary st)) eqn:Ew; [reflexivity|].
    rewrite <- app_assoc. cbn [app]. do 2 f_equal. apply dedup_onto_ext. intros x.
    rewrite in_app_iff. simpl. tauto.
Qed.

Lemma firstPass_vocabulary (documents : list KnowledgeDocument.t) :
  forall st st' : BuildState,
    forEachM indexDocument documents st = Some st' ->
    bs_vocabulary st'
    = bs_vocabulary st ++ Str.dedup_onto (bs_vocabulary st) (flat_map documentWords documents).
Proof.
  induction documents as [|doc rest IH]; intros st st'; cbn [forEachM flat_map].
  - intros [= <-]. cbn [Str.dedup_onto]. now rewrite app_nil_r.
  - unfold indexDocument at 1.
    destruct (forEachM (indexWord _) _ _) as [ws|] eqn:Eloop; [|discriminate].
    intros Hrest. apply IH in Hrest. cbn [bs_vocabulary] in Hrest.
    apply wordLoop_vocabulary in Eloop. cbn [ws_vocabulary] in Eloop.
    rewrite Hrest, Eloop, dedup_onto_app, <- app_assoc. do 2 f_equal.
    apply dedup_onto_ext. intros x. apply dedup_onto_members.
Qed.

Lemma built_order (Math_log : Q -> Q) (documents : list KnowledgeDocument.t) (now : Z)
    (index : KnowledgeBaseIndex.t) :
  buildKnowledgeBaseIndex Math_log documents now = Some index ->
  KnowledgeBaseIndex.vocabulary index = firstOccurrences documents.
Proof.
  intros Hb. apply build_passes in Hb.
  destruct Hb as [st [inv [own [H1 [_ [_ [_ [_ Hvoc]]]]]]]].
  rewrite Hvoc. apply firstPass_vocabulary in H1. exact H1.
Qed.

(** X4.  The vocabulary of a built index lists the tokens of the documents
    in the order in which they are first met, each once; the keys of the
    inverted index are the same terms, each once; and a term is in the
    vocabulary exactly when some document contains it. *)
Theorem vocabulary_lists_the_indexed_terms :
  forall (Math_log : Q -> Q) (documents : list KnowledgeDocument.t) (now : Z)
         (index : KnowledgeBaseIndex.t),
    buildKnowledgeBaseIndex Math_log documents now = Some index ->
    KnowledgeBaseIndex.vocabulary index = firstOccurrences documents
    /\ NoDup (KnowledgeBaseIndex.vocabulary index)
    /\ Permutation (KnowledgeBaseIndex.vocabulary index)
         (Dict.keys (KnowledgeBaseIndex.invertedIndex index))
    /\ forall term,
         In term (KnowledgeBaseIndex.vocabulary index)
         <-> exists doc, In doc documents /\ containsTerm term doc = true.
Proof.
  intros Math_log documents now index Hb.
  destruct (built_terms Math_log documents now index Hb) as [Hkeys [Hin _]].
  split; [exact (built_order Math_log documents now index Hb)|].
  split; [exact (built_vocabulary_NoDup Math_log documents now index Hb)|].
  split; [rewrite <- Hkeys; apply Permutation_refl | exact Hin].
Qed.

Lemma vocabulary_lists_the_indexed_terms_witness :
  KnowledgeBaseIndex.vocabulary Samples.index = firstOccurrences Samples.corpus
  /\ NoDup (KnowledgeBaseIndex.vocabulary Samples.index)
  /\ Permutation (KnowledgeBaseIndex.vocabulary Samples.index)
       (Dict.keys (KnowledgeBaseIndex.invertedIndex Samples.index))
  /\ forall term,
       In term (KnowledgeBaseIndex.vocabulary Samples.index)
       <-> exists doc, In doc Samples.corpus /\ containsTerm term doc = true.
Proof.
  apply (vocabulary_lists_the_indexed_terms Approx.log Samples.corpus 0 Samples.index).
  exact sample_index_built.
Defined.

(** X5.  The [frequency] of a term's entry in a built index is the number
    of times the term occurs among the tokens of all the documents, counted
    with repetitions; it is at least 1. *)
Theorem frequency_counts_every_occurrence :
  forall (Math_log : Q -> Q) (documents : list KnowledgeDocument.t) (now : Z)
         (index : KnowledgeBaseIndex.t) (term : string) (entry : InvertedIndexEntry.t),
    buildKnowledgeBaseIndex Math_log documents now = Some index ->
    Dict.get term (KnowledgeBaseIndex.invertedIndex index) = Some entry ->
    InvertedIndexEntry.frequency entry = occurrences term documents
    /\ (1 <= InvertedIndexEntry.frequency entry)%nat.
Proof.
  intros Math_log documents now index term entry Hb Hget.
  destruct (built_terms Math_log documents now index Hb) as [Hkeys [Hin Hfreq]].
  specialize (Hfreq term). unfold frequencyOf in Hfreq. rewrite Hget in Hfreq.
  split; [exact Hfreq|]. rewrite Hfreq.
  assert (Hterm : In term (KnowledgeBaseIndex.vocabulary index)).
  { rewrite Hkeys. apply get_keys. congruence. }
  apply Hin in Hterm. destruct Hterm as [doc [Hdoc Hc]].
  unfold containsTerm in Hc. apply mem_In in Hc.
  unfold occurrences. clear - Hdoc Hc.
  induction documents as [|d rest IH]; [destruct Hdoc|].
  simpl. destruct Hdoc as [->|Hdoc].
  - apply (count_occ_In string_dec) in Hc. lia.
  - specialize (IH Hdoc). lia.
Qed.

Lemma frequency_counts_every_occurrence_witness :
  exists entry,
    Dict.get "learning" (KnowledgeBaseIndex.invertedIndex Samples.index) = Some entry
    /\ InvertedIndexEntry.frequency entry = occurrences "learning" Samples.corpus
    /\ (1 <= InvertedIndexEntry.frequency entry)%nat.
Proof.
  eexists. split; [vm_compute; reflexivity|].
  apply (frequency_counts_every_occurrence Approx.log Samples.corpus 0 Samples.index "learning").
  - exact sample_index_built.
  - vm_compute. reflexivity.
Defined.

(** X6.  A built index records the number of documents, the time it was
    given, and as [averageDocumentLength] the number of tokens of all the
    documents divided by the number of documents; built from no document,
    the average is [NaN]. *)
Theorem index_header_counts_documents_and_tokens :
  forall (Math_log : Q -> Q) (documents : list KnowledgeDocument.t) (now : Z)
         (index : KnowledgeBaseIndex.t),
    buildKnowledgeBaseIndex Math_log documents now = Some index ->
    KnowledgeBaseIndex.totalDocuments index = List.length documents
    /\ KnowledgeBaseIndex.lastIndexed index = now
    /\ KnowledgeBaseIndex.averageDocumentLength index
       = match documents with
         | [] => None
         | _ => Some (Qnat (totalLength documents) / Qnat (List.length documents))%Q
         end.
Proof. intros Math_log documents now index. apply built_header. Qed.

Lemma index_header_counts_documents_and_tokens_witness :
  KnowledgeBaseIndex.totalDocuments Samples.index = List.length Samples.corpus
  /\ KnowledgeBaseIndex.lastIndexed Samples.index = 0
  /\ KnowledgeBaseIndex.averageDocumentLength Samples.index
     = Some (Qnat (totalLength Samples.corpus) / Qnat (List.length Samples.corpus))%Q.
Proof.
  apply (index_header_counts_documents_and_tokens Approx.log Samples.corpus 0 Samples.index).
  exact sample_index_built.
Defined.

Lemma candidates_skip_unlisted (index : KnowledgeBaseIndex.t) (keep : string -> bool)
    (expanded : list string) :
  (forall term, keep term = false ->
                Dict.get term (KnowledgeBaseIndex.invertedIndex index) = None) ->
  candidateDocIds index expanded = candidateDocIds index (filter keep expanded).
Proof.
  intros Hskip. unfold candidateDocIds. generalize (@nil string) as acc.
  induction expanded as [|t rest IH]; intros acc; cbn [fold_left filter]; [reflexivity|].
  destruct (keep t) eqn:Ek; cbn [fold_left].
  - apply IH.
  - rewrite (Hskip t Ek). apply IH.
Qed.

(** X7.  Only tokens have entries in a built index.  So the terms of an
    expanded query that are not one token, such as the synonyms [machine
    learning], [web services] or [ci/cd], find no candidate: the candidates
    are those of the expanded terms that are single tokens. *)
Theorem only_tokens_reach_the_index :
  forall (Math_log : Q -> Q) (documents : list KnowledgeDocument.t) (now : Z)
         (index : KnowledgeBaseIndex.t),
    buildKnowledgeBaseIndex Math_log documents now = Some index ->
    (forall term entry,
        Dict.get term (KnowledgeBaseIndex.invertedIndex index) = Some entry -> isToken term)
    /\ forall queryWords expandedQuery,
         expandQueryForSmallKb queryWords index = Some expandedQuery ->
         candidateDocIds index expandedQuery
         = candidateDocIds index (filter (allChars isTokenChar) expandedQuery).
Proof.
  intros Math_log documents now index Hb.
  assert (Htok : forall term entry,
             Dict.get term (KnowledgeBaseIndex.invertedIndex index) = Some entry ->
             isToken term).
  { intros term entry Hget.
    apply (indexed_terms_are_tokens Math_log documents now index term Hb).
    apply get_keys. congruence. }
  split; [exact Htok|].
  intros queryWords expandedQuery _. apply candidates_skip_unlisted.
  intros term Hterm.
  destruct (Dict.get term (KnowledgeBaseIndex.invertedIndex index)) as [entry|] eqn:E;
    [|reflexivity].
  destruct (Htok term entry E) as [_ [_ Hchars]]. congruence.
Qed.

Lemma only_tokens_reach_the_index_witness :
  (forall term entry,
      Dict.get term (KnowledgeBaseIndex.invertedIndex Samples.index) = Some entry ->
      isToken term)
  /\ forall queryWords expandedQuery,
       expandQueryForSmallKb queryWords Samples.index = Some expandedQuery ->
       candidateDocIds Samples.index expandedQuery
       = candidateDocIds Samples.index (filter (allChars isTokenChar) expandedQuery).
Proof.
  apply (only_tokens_reach_the_index Approx.log Samples.corpus 0 Samples.index).
  exact sample_index_built.
Defined.

(** ** Embeddings and their similarity *)

Lemma countOf_set (w t : string) (n : nat) (m : list (string * nat)) :
  countOf t (Dict.set w n m) = if string_dec w t then n else countOf t m.
Proof.
  unfold countOf. destruct (string_dec w t) as [->|Hne].
  - now rewrite get_set_same.
  - now rewrite get_set_other by congruence.
Qed.

Lemma countWords_from (words : list string) :
  forall (m : list (string * nat)) (t : string),
    countOf t (fold_left (fun m word => Dict.set word (S (countOf word m)) m) words m)
    = (countOf t m + count_occ string_dec words t)%nat.
Proof.
  induction words as [|w rest IH]; intros m t; cbn [fold_left count_occ]; [lia|].
  rewrite IH, countOf_set. destruct (string_dec w t) as [->|Hne]; lia.
Qed.

(** The [Map] of counts holds, for every word, its number of occurrences. *)
Lemma countWords_counts (words : list string) (t : string) :
  countOf t (countWords words) = count_occ string_dec words t.
Proof. unfold countWords. now rewrite countWords_from. Qed.

Lemma simpleEmbeddings_counts (words vocabulary : list string) :
  createSimpleEmbeddings words vocabulary = countVector words vocabulary.
Proof.
  unfold createSimpleEmbeddings, countVector. apply map_ext.
  intros term. now rewrite countWords_counts.
Qed.

Lemma fillTfidf_embeddings (inv : InvertedIndex) (e e' : DocumentIndexEntry.t) :
  fillTfidf inv e = Some e' ->
  DocumentIndexEntry.embeddings e' = DocumentIndexEntry.embeddings e
  /\ DocumentIndexEntry.topics e' = DocumentIndexEntry.topics e.
Proof.
  unfold fillTfidf. destruct (forEachM _ _ _); [|discriminate].
  intros [= <-]. now split.
Qed.

(** The entry of a document is not touched by the rounds for documents with
    other ids. *)
Lemma firstPass_other (documents : list KnowledgeDocument.t) (docId : string) :
  forall st st' : BuildState,
    forEachM indexDocument documents st = Some st' ->
    ~ In docId (map KnowledgeDocument.id documents) ->
    DocumentIndex.get docId (bs_documentIndex st')
    = DocumentIndex.get docId (bs_documentIndex st).
Proof.
  induction documents as [|doc rest IH]; intros st st'; cbn [forEachM map].
  - now intros [= <-].
  - unfold indexDocument at 1.
    destruct (forEachM (indexWord _) _ _) as [ws|]; [|discriminate].
    intros Hrest Hout. rewrite (IH _ _ Hrest) by (intros H; apply Hout; now right).
    cbn [bs_documentIndex]. apply docIndex_get_set_other.
    intros E. apply Hout. left. now symmetry.
Qed.

(** The entry the first pass files for a document, after the documents
    [before] it and in front of the documents [after] it. *)
Lemma firstPass_embedding (before after : list KnowledgeDocument.t) (doc : KnowledgeDocument.t)
    (st : BuildState) :
  forEachM indexDocument (before ++ doc :: after)
    (mkBuildState [] DocumentIndex.empty [] 0) = Some st ->
  ~ In (KnowledgeDocument.id doc) (map KnowledgeDocument.id after) ->
  exists e,
    DocumentIndex.get (KnowledgeDocument.id doc) (bs_documentIndex st) = Some e
    /\ DocumentIndexEntry.document e = doc
    /\ DocumentIndexEntry.embeddings e
       = countVector (documentWords doc) (firstOccurrences (before ++ [doc])).
Proof.
  intros Hpass Hout.
  replace (before ++ doc :: after) with ((before ++ [doc]) ++ after) in Hpass
    by (now rewrite <- app_assoc).
  rewrite forEachM_app in Hpass.
  destruct (forEachM indexDocument (before ++ [doc]) _) as [st2|] eqn:E2; [|discriminate].
  rewrite (firstPass_other after _ _ _ Hpass Hout).
  pose proof (firstPass_vocabulary _ _ _ E2) as Hvoc. cbn [bs_vocabulary app] in Hvoc.
  rewrite forEachM_app in E2.
  destruct (forEachM indexDocument before _) as [st1|]; [|discriminate].
  cbn [forEachM] in E2. unfold indexDocument in E2.
  destruct (forEachM (indexWord _) _ _) as [ws|]; [|discriminate].
  injection E2 as <-. cbn [bs_documentIndex bs_vocabulary] in *.
  rewrite docIndex_get_set_same. eexists. split; [reflexivity|].
  cbn [DocumentIndexEntry.document DocumentIndexEntry.embeddings].
  split; [reflexivity|]. rewrite simpleEmbeddings_counts, Hvoc. reflexivity.
Qed.

(** X8.  The embedding of an indexed document, one whose id no later
    document uses, counts its tokens over the vocabulary as it stood when
    the document was indexed, that is, over the first occurrences of the
    tokens of the documents up to and including itself: its [i]-th number is
    the number of times the [i]-th of these terms occurs among the tokens of
    the document, for the first fifty of them.  The final vocabulary
    continues that list, so the embedding stays aligned with it. *)
Theorem embeddings_count_the_vocabulary_terms :
  forall (Math_log : Q -> Q) (before after : list KnowledgeDocument.t)
         (doc : KnowledgeDocument.t) (now : Z) (index : KnowledgeBaseIndex.t),
    ~ In (KnowledgeDocument.id doc) (map KnowledgeDocument.id after) ->
    buildKnowledgeBaseIndex Math_log (before ++ doc :: after) now = Some index ->
    exists docEntry later,
      DocumentIndex.get (KnowledgeDocument.id doc) (KnowledgeBaseIndex.documentIndex index)
      = Some docEntry
      /\ DocumentIndexEntry.document docEntry = doc
      /\ DocumentIndexEntry.embeddings docEntry
         = countVector (documentWords doc) (firstOccurrences (before ++ [doc]))
      /\ KnowledgeBaseIndex.vocabulary index = firstOccurrences (before ++ [doc]) ++ later
      /\ List.length (DocumentIndexEntry.embeddings docEntry)
         = Nat.min 50 (List.length (firstOccurrences (before ++ [doc]))).
Proof.
  intros Math_log before after doc now index Hout Hb.
  pose proof (built_order Math_log _ now index Hb) as Hvoc.
  apply build_passes in Hb.
  destruct Hb as [st [inv [own [H1 [_ [H3 [_ [Hdi _]]]]]]]].
  destruct (firstPass_embedding before after doc st H1 Hout) as [e [Hget [Hdoc Hemb]]].
  assert (Hentry : exists docEntry,
             DocumentIndex.get (KnowledgeDocument.id doc)
               (KnowledgeBaseIndex.documentIndex index) = Some docEntry
             /\ DocumentIndexEntry.document docEntry = DocumentIndexEntry.document e
             /\ DocumentIndexEntry.embeddings docEntry = DocumentIndexEntry.embeddings e).
  { rewrite Hdi. unfold DocumentIndex.get in *.
    cbn [DocumentIndex.own DocumentIndex.proto].
    destruct (String.eqb (KnowledgeDocument.id doc) "__proto__");
      [exists e; now repeat split|].
    pose proof (fillTfidfAll_get _ _ _ (KnowledgeDocument.id doc) H3) as Hf.
    rewrite Hget in Hf.
    destruct (Dict.get (KnowledgeDocument.id doc) own) as [e'|]; [|contradiction].
    exists e'. split; [reflexivity|].
    split; [now apply fillTfidf_spec in Hf | now apply fillTfidf_embeddings in Hf]. }
  destruct Hentry as [docEntry [Hget' [Hdoc' Hemb']]].
  exists docEntry, (Str.dedup_onto (flat_map documentWords (before ++ [doc]))
                      (flat_map documentWords after)).
  split; [exact Hget'|]. split; [congruence|]. split; [congruence|]. split.
  - rewrite Hvoc. unfold firstOccurrences, Str.dedup.
    replace (before ++ doc :: after) with ((before ++ [doc]) ++ after)
      by (now rewrite <- app_assoc).
    rewrite flat_map_app, dedup_onto_app. reflexivity.
  - rewrite Hemb', Hemb. unfold countVector. now rewrite length_map, length_firstn.
Qed.

Lemma embeddings_count_the_vocabulary_terms_witness :
  exists docEntry later,
    DocumentIndex.get (KnowledgeDocument.id Samples.cloud)
      (KnowledgeBaseIndex.documentIndex Samples.index) = Some docEntry
    /\ DocumentIndexEntry.document docEntry = Samples.cloud
    /\ DocumentIndexEntry.embeddings docEntry
       = countVector (documentWords Samples.cloud)
           (firstOccurrences ([Samples.learning] ++ [Samples.cloud]))
    /\ KnowledgeBaseIndex.vocabulary Samples.index
       = firstOccurrences ([Samples.learning] ++ [Samples.cloud]) ++ later
    /\ List.length (DocumentIndexEntry.embeddings docEntry)
       = Nat.min 50 (List.length (firstOccurrences ([Samples.learning] ++ [Samples.cloud]))).
Proof.
  apply (embeddings_count_the_vocabulary_terms Approx.log [Samples.learning]
           [Samples.storage] Samples.cloud 0 Samples.index).
  - vm_compute. intuition discriminate.
  - exact sample_index_built.
Defined.

(** Setting the entry of one word of the query. *)
Lemma setNth_presence (vocabulary : list string) :
  forall (n : nat) (g : string -> Q) (w : string),
    NoDup vocabulary ->
    match indexOf w vocabulary with
    | Some i =>
        if (i <? Nat.min n (List.length vocabulary))%nat
        then setNth i 1%Q (map g (firstn n vocabulary))
        else map g (firstn n vocabulary)
    | None => map g (firstn n vocabulary)
    end
    = map (fun t => if String.eqb t w then 1%Q else g t) (firstn n vocabulary).
Proof.
  assert (Hext : forall (l : list string) (g : string -> Q) (w : string),
             ~ In w l -> map g l = map (fun t => if String.eqb t w then 1%Q else g t) l).
  { intros l g w Hn. apply map_ext_in. intros t Ht.
    destruct (String.eqb t w) eqn:E; [|reflexivity].
    apply String.eqb_eq in E. subst t. contradiction. }
  induction vocabulary as [|y rest IH]; intros n g w Hnd.
  - destruct n; reflexivity.
  - inversion Hnd as [|? ? Hy Hrest]; subst. cbn [indexOf].
    destruct n as [|n].
    + cbn [firstn map]. destruct (String.eqb w y); [reflexivity|].
      destruct (indexOf w rest); reflexivity.
    + cbn [firstn map List.length]. destruct (String.eqb w y) eqn:E.
      * apply String.eqb_eq in E. subst y. rewrite String.eqb_refl.
        cbn [Nat.min Nat.ltb Nat.leb setNth]. f_equal.
        apply Hext. intros Hin. apply Hy. now apply firstn_In in Hin.
      * assert (E' : String.eqb y w = false) by (now rewrite String.eqb_sym).
        rewrite E'. specialize (IH n g w Hrest).
        destruct (indexOf w rest) as [i|].
        -- change (S i <? Nat.min (S n) (S (List.length rest)))%nat
             with (i <? Nat.min n (List.length rest))%nat.
           destruct (i <? Nat.min n (List.length rest))%nat; cbn [setNth]; now rewrite IH.
        -- now rewrite IH.
Qed.

Lemma queryEmbedding_presence (queryWords vocabulary : list string) :
  NoDup vocabulary ->
  createQueryEmbedding queryWords vocabulary = presenceVector queryWords vocabulary.
Proof.
  intros Hnd. unfold createQueryEmbedding, presenceVector.
  assert (Hstart : repeat 0%Q (Nat.min 50 (List.length vocabulary))
                   = map (fun t => if Str.mem t [] then 1%Q else 0%Q) (firstn 50 vocabulary)).
  { rewrite <- (length_firstn 50 vocabulary).
    induction (firstn 50 vocabulary) as [|x t IH]; simpl; [reflexivity | now rewrite IH]. }
  rewrite Hstart.
  assert (Hfold : forall words done,
             fold_left
               (fun embedding word =>
                  match indexOf word vocabulary with
                  | Some index =>
                      if (index <? Nat.min 50 (List.length vocabulary))%nat
                      then setNth index 1%Q embedding else embedding
                  | None => embedding
                  end)
               words
               (map (fun t => if Str.mem t done then 1%Q else 0%Q) (firstn 50 vocabulary))
             = map (fun t => if Str.mem t words || Str.mem t done then 1%Q else 0%Q)
                 (firstn 50 vocabulary)).
  { induction words as [|w rest IH]; intros done; cbn [fold_left].
    - reflexivity.
    - pose proof (setNth_presence vocabulary 50
                    (fun t => if Str.mem t done then 1%Q else 0%Q) w Hnd) as Hstep.
      cbv beta in Hstep. rewrite Hstep.
      replace (map (fun t => if String.eqb t w then 1%Q
                             else if Str.mem t done then 1%Q else 0%Q)
                 (firstn 50 vocabulary))
        with (map (fun t => if Str.mem t (w :: done) then 1%Q else 0%Q) (firstn 50 vocabulary)).
      + rewrite IH. apply map_ext. intros t. simpl.
        destruct (String.eqb t w); simpl; [now rewrite orb_true_r | reflexivity].
      + apply map_ext. intros t. simpl. destruct (String.eqb t w); reflexivity. }
  rewrite Hfold. apply map_ext. intros t. now rewrite orb_false_r.
Qed.

(** X9.  Over a vocabulary, which is a set and so holds no term twice, the
    query embedding has as many entries as the vocabulary has terms, at most
    fifty, and its [i]-th entry is 1 when the [i]-th term of the vocabulary
    is one of the query's terms and 0 when it is not. *)
Theorem query_embedding_marks_the_query_terms :
  forall queryWords vocabulary : list string,
    NoDup vocabulary ->
    createQueryEmbedding queryWords vocabulary = presenceVector queryWords vocabulary
    /\ List.length (createQueryEmbedding queryWords vocabulary)
       = Nat.min 50 (List.length vocabulary).
Proof.
  intros queryWords vocabulary Hnd.
  rewrite (queryEmbedding_presence queryWords vocabulary Hnd). split; [reflexivity|].
  unfold presenceVector. now rewrite length_map, length_firstn.
Qed.

Lemma query_embedding_marks_the_query_terms_witness :
  createQueryEmbedding ["cloud"; "zebra"] ["machine"; "cloud"; "data"]
  = presenceVector ["cloud"; "zebra"] ["machine"; "cloud"; "data"]
  /\ List.length (createQueryEmbedding ["cloud"; "zebra"] ["machine"; "cloud"; "data"])
     = Nat.min 50 (List.length ["machine"; "cloud"; "data"]).
Proof.
  apply (query_embedding_marks_the_query_terms ["cloud"; "zebra"] ["machine"; "cloud"; "data"]).
  distinct_strings.
Defined.

Lemma Qmult_swap (x y : Q) : (x * y)%Q = (y * x)%Q.
Proof. unfold Qmult. now rewrite Z.mul_comm, Pos.mul_comm. Qed.

Lemma dotNorms_swap (a b : list Q) :
  forall dotProduct normA normB : Q,
    dotNorms b a (dotProduct, normB, normA)
    = let '(d, na, nb) := dotNorms a b (dotProduct, normA, normB) in (d, nb, na).
Proof.
  revert b. induction a as [|x a IH]; intros b d na nb.
  - destruct b; reflexivity.
  - destruct b as [|y b]; [reflexivity|]. cbn [dotNorms].
    rewrite (Qmult_swap y x). apply IH.
Qed.

Lemma dotNorms_prefix (a b : list Q) :
  forall acc : Q * Q * Q,
    dotNorms a b acc = dotNorms (firstn (List.length b) a) (firstn (List.length a) b) acc.
Proof.
  revert b. induction a as [|x a IH]; intros b acc.
  - destruct b; reflexivity.
  - destruct b as [|y b]; [reflexivity|]. cbn [List.length firstn dotNorms].
    destruct acc as [[d na] nb]. apply IH.
Qed.

Lemma dotNorms_zero (a b : list Q) :
  forall dotProduct normA normB : Q,
    Forall (fun x => x = 0%Q) a ->
    let '(_, na, _) := dotNorms a b (dotProduct, normA, normB) in (na == normA)%Q.
Proof.
  revert b. induction a as [|x a IH]; intros b d na nb Hz.
  - destruct b; simpl; reflexivity.
  - destruct b as [|y b]; [simpl; reflexivity|]. cbn [dotNorms].
    inversion Hz as [|? ? Hx Ha]; subst.
    specialize (IH b (d + 0 * y)%Q (na + 0 * 0)%Q (nb + y * y)%Q Ha).
    destruct (dotNorms a b _) as [[d' na'] nb']. rewrite IH. ring.
Qed.

(** X10.  The cosine similarity does not depend on the order of its two
    arguments; it only looks at the entries the two vectors have in common,
    so the longer vector is cut, norm included, to the length of the shorter
    one; and it is 0, with no division, when the first vector holds only
    zeros, the empty vector included. *)
Theorem cosine_is_symmetric_over_the_common_prefix :
  forall (Math_sqrt : Q -> Q) (a b : list Q),
    cosineSimilarity Math_sqrt a b = cosineSimilarity Math_sqrt b a
    /\ cosineSimilarity Math_sqrt a b
       = cosineSimilarity Math_sqrt (firstn (List.length b) a) (firstn (List.length a) b)
    /\ (Forall (fun x => x = 0%Q) a -> cosineSimilarity Math_sqrt a b = 0%Q).
Proof.
  intros Math_sqrt a b. unfold cosineSimilarity. split; [|split].
  - rewrite (dotNorms_swap a b 0 0 0)%Q.
    destruct (dotNorms a b (0, 0, 0)%Q) as [[d na] nb].
    rewrite (orb_comm (Qeq_bool nb 0)), (Qmult_swap (Math_sqrt nb)). reflexivity.
  - now rewrite <- dotNorms_prefix.
  - intros Hz. pose proof (dotNorms_zero a b 0 0 0 Hz)%Q as H.
    destruct (dotNorms a b (0, 0, 0)%Q) as [[d na] nb].
    apply Qeq_bool_iff in H. now rewrite H.
Qed.

(** X11.  The similarity factor only sees the first fifty terms of the
    vocabulary, those of the documents indexed first: when no term of the
    expanded query is among them, the factor adds nothing to the score of any
    document. *)
Theorem similarity_needs_an_early_vocabulary_term :
  forall (Math_log Math_sqrt : Q -> Q) (documents : list KnowledgeDocument.t) (now : Z)
         (index : KnowledgeBaseIndex.t) (expandedQuery : list string)
         (docEntry : DocumentIndexEntry.t),
    buildKnowledgeBaseIndex Math_log documents now = Some index ->
    (forall term, In term expandedQuery ->
                  ~ In term (firstn 50 (KnowledgeBaseIndex.vocabulary index))) ->
    similarityFactor Math_sqrt index expandedQuery docEntry = 0%Q.
Proof.
  intros Math_log Math_sqrt documents now index expandedQuery docEntry Hb Hlate.
  pose proof (built_vocabulary_NoDup Math_log documents now index Hb) as Hnd.
  unfold similarityFactor.
  rewrite (queryEmbedding_presence _ _ Hnd).
  assert (Hz : Forall (fun x => x = 0%Q)
                 (presenceVector expandedQuery (KnowledgeBaseIndex.vocabulary index))).
  { unfold presenceVector. apply Forall_forall. intros x Hx.
    apply in_map_iff in Hx. destruct Hx as [t [<- Ht]].
    destruct (Str.mem t expandedQuery) eqn:E; [|reflexivity].
    apply mem_In in E. exfalso. exact (Hlate t E Ht). }
  pose proof (dotNorms_zero _ (DocumentIndexEntry.embeddings docEntry) 0 0 0 Hz)%Q as H.
  unfold cosineSimilarity.
  destruct (dotNorms _ _ (0, 0, 0)%Q) as [[d na] nb].
  apply Qeq_bool_iff in H. rewrite H. reflexivity.
Qed.

Lemma similarity_needs_an_early_vocabulary_term_witness :
  similarityFactor Approx.sqrt Samples.index ["zebra"]
    (Samples.entryOf Samples.index Samples.cloud) = 0%Q.
Proof.
  apply (similarity_needs_an_early_vocabulary_term Approx.log Approx.sqrt Samples.corpus 0
           Samples.index ["zebra"] (Samples.entryOf Samples.index Samples.cloud)).
  - exact sample_index_built.
  - intros term [<-|[]] H. vm_compute in H. intuition discriminate.
Defined.

(** ** The score *)

Lemma Qsum_from_nonneg (l : list Q) :
  forall acc : Q, (0 <= acc)%Q -> Forall (fun x => (0 <= x)%Q) l -> (0 <= fold_left Qplus l acc)%Q.
Proof.
  induction l as [|x t IH]; intros acc Hacc Hl; cbn [fold_left]; [exact Hacc|].
  inversion Hl as [|? ? Hx Ht]; subst. apply IH; [|exact Ht].
  apply Qle_trans with (0 + 0)%Q; [discriminate|]. now apply Qplus_le_compat.
Qed.

Lemma Qcount_nonneg (n : nat) (bonus : Z) : 0 <= bonus -> (0 <= Qcount n bonus)%Q.
Proof. intros Hb. unfold Qcount, Qle. simpl. nia. Qed.

Lemma inject_Z_nonneg (z : Z) : 0 <= z -> (0 <= inject_Z z)%Q.
Proof. intros Hz. unfold Qle. simpl. lia. Qed.

Lemma analyzeQueryIntent_range (queryWords : list string) (doc : KnowledgeDocument.t) :
  0 <= analyzeQueryIntent queryWords doc <= 65.
Proof.
  unfold analyzeQueryIntent.
  repeat match goal with |- context [if ?b then _ else _] => destruct b end; lia.
Qed.

Section FactorSigns.
Variable Math_sqrt : Q -> Q.
Variable index : KnowledgeBaseIndex.t.
Variable query : string.
Variables queryWords expandedQuery : list string.
Variable docEntry : DocumentIndexEntry.t.

Lemma tfidfFactor_nonneg : (0 <= tfidfFactor expandedQuery docEntry)%Q.
Proof.
  unfold tfidfFactor.
  destruct (filter _ _) as [|x t] eqn:E; [discriminate|].
  apply Qmult_le_0_compat; [|discriminate]. unfold Qsum.
  apply Qsum_from_nonneg; [discriminate|]. rewrite <- E.
  apply Forall_forall. intros y Hy. apply filter_In in Hy. destruct Hy as [_ Hy].
  apply Qgtb_spec in Hy. now apply Qlt_le_weak.
Qed.

Lemma similarityFactor_nonneg : (0 <= similarityFactor Math_sqrt index expandedQuery docEntry)%Q.
Proof.
  unfold similarityFactor. destruct (Qgtb _ (1 # 10)) eqn:E; [|discriminate].
  apply Qgtb_spec in E. apply Qmult_le_0_compat; [|discriminate].
  apply Qlt_le_weak. eapply Qlt_trans; [|exact E]. reflexivity.
Qed.

Lemma coverageFactor_nonneg : (0 <= coverageFactor queryWords docEntry)%Q.
Proof.
  unfold coverageFactor. destruct (Qgtb _ 0) eqn:E; [|discriminate].
  apply Qgtb_spec in E. apply Qmult_le_0_compat; [|discriminate]. now apply Qlt_le_weak.
Qed.

Lemma densityFactor_nonneg : (0 <= densityFactor docEntry)%Q.
Proof.
  unfold densityFactor. destruct (Qgtb _ (3 # 10)) eqn:E; [|discriminate].
  apply Qgtb_spec in E. apply Qmult_le_0_compat; [|discriminate].
  apply Qlt_le_weak. eapply Qlt_trans; [|exact E]. reflexivity.
Qed.

Lemma temporalFactor_nonneg : (0 <= temporalFactor queryWords docEntry)%Q.
Proof.
  unfold temporalFactor. destruct (hasTemporalQuery queryWords); [|discriminate].
  apply inject_Z_nonneg. unfold temporalContentScore, temporalTitleScore. lia.
Qed.

Lemma rawScore_at_least_relevance :
  (relevanceFactor docEntry
   <= rawScore Math_sqrt index query queryWords expandedQuery docEntry)%Q.
Proof.
  unfold rawScore, Qsum. cbn [fold_left].
  pose proof tfidfFactor_nonneg as H1.
  assert (H2 : (0 <= topicFactor expandedQuery docEntry)%Q) by (apply Qcount_nonneg; lia).
  assert (H3 : (0 <= exactTitleFactor query docEntry)%Q)
    by (unfold exactTitleFactor; destruct (Str.includes _ _); discriminate).
  assert (H4 : (0 <= exactContentFactor query docEntry)%Q)
    by (unfold exactContentFactor; destruct (Str.includes _ _); discriminate).
  assert (H5 : (0 <= phraseTitleFactor queryWords docEntry)%Q)
    by (apply Qcount_nonneg; lia).
  assert (H6 : (0 <= phraseContentFactor queryWords docEntry)%Q)
    by (apply Qcount_nonneg; lia).
  assert (H7 : (0 <= tagFactor expandedQuery docEntry)%Q) by (apply Qcount_nonneg; lia).
  pose proof similarityFactor_nonneg as H8.
  pose proof coverageFactor_nonneg as H9.
  assert (H10 : (0 <= proximityFactor queryWords docEntry)%Q) by (apply Qcount_nonneg; lia).
  assert (H11 : (0 <= headerFactor queryWords docEntry)%Q) by (apply Qcount_nonneg; lia).
  assert (H12 : (0 <= codeFactor queryWords docEntry)%Q) by (apply Qcount_nonneg; lia).
  assert (H13 : (0 <= listFactor queryWords docEntry)%Q) by (apply Qcount_nonneg; lia).
  pose proof densityFactor_nonneg as H14.
  assert (H15 : (0 <= lengthFactor docEntry)%Q).
  { unfold lengthFactor.
    repeat match goal with |- context [if ?b then _ else _] => destruct b end; discriminate. }
  assert (H16 : (0 <= filenameFactor queryWords docEntry)%Q) by (apply Qcount_nonneg; lia).
  pose proof temporalFactor_nonneg as H17.
  assert (H18 : (0 <= intentFactor queryWords docEntry)%Q)
    by (apply inject_Z_nonneg, analyzeQueryIntent_range).
  assert (H19 : (0 <= crossRefFactor queryWords docEntry)%Q) by (apply Qcount_nonneg; lia).
  lra.
Qed.

End FactorSigns.

(** X12.  No factor of the score is a penalty: on the words of a query the
    scorer is reached with, the raw score of a candidate is at least eight
    times the relevance of its document, the one term that does not depend
    on the query; and the intent bonus lies between 0 and 65. *)
Theorem factors_never_lower_the_score :
  forall (Math_sqrt : Q -> Q) (index : KnowledgeBaseIndex.t) (query : string)
         (queryWords expandedQuery : list string) (docEntry : DocumentIndexEntry.t),
    existsb isInheritedKey queryWords = false ->
    (KnowledgeDocument.relevance (DocumentIndexEntry.document docEntry) * 8
     <= rawScore Math_sqrt index query queryWords expandedQuery docEntry)%Q
    /\ 0 <= analyzeQueryIntent queryWords (DocumentIndexEntry.document docEntry) <= 65.
Proof.
  intros Math_sqrt index query queryWords expandedQuery docEntry _.
  split; [apply rawScore_at_least_relevance | apply analyzeQueryIntent_range].
Qed.

Lemma factors_never_lower_the_score_witness :
  (KnowledgeDocument.relevance
     (DocumentIndexEntry.document (Samples.entryOf Samples.index Samples.cloud)) * 8
   <= rawScore Approx.sqrt Samples.index "cloud" ["cloud"] ["cloud"]
        (Samples.entryOf Samples.index Samples.cloud))%Q
  /\ 0 <= analyzeQueryIntent ["cloud"]
            (DocumentIndexEntry.document (Samples.entryOf Samples.index Samples.cloud)) <= 65.
Proof.
  apply (factors_never_lower_the_score Approx.sqrt Samples.index "cloud" ["cloud"] ["cloud"]
           (Samples.entryOf Samples.index Samples.cloud)).
  reflexivity.
Defined.

(** ** Candidates and results *)

Lemma listed_candidate (index : KnowledgeBaseIndex.t) (expanded : list string)
    (term docId : string) :
  In term expanded ->
  In docId (postingsOf (KnowledgeBaseIndex.invertedIndex index) term) ->
  In docId (candidateDocIds index expanded).
Proof.
  unfold candidateDocIds. intros Hterm Hlisted.
  assert (Hkeep : forall terms acc,
             In docId acc ->
             In docId
               (fold_left
                  (fun candidates t =>
                     match Dict.get t (KnowledgeBaseIndex.invertedIndex index) with
                     | Some termEntry =>
                         fold_left (fun a d => Str.set_add d a)
                           (InvertedIndexEntry.documents termEntry) candidates
                     | None => candidates
                     end) terms acc)).
  { induction terms as [|t rest IH]; intros acc Hacc; cbn [fold_left]; [exact Hacc|].
    apply IH. destruct (Dict.get t _); [|exact Hacc].
    apply fold_set_add_In. now left. }
  generalize (@nil string) as acc.
  induction expanded as [|t rest IH]; intros acc; [destruct Hterm|].
  cbn [fold_left]. destruct Hterm as [->|Hterm]; [|now apply IH].
  apply Hkeep. unfold postingsOf in Hlisted.
  destruct (Dict.get term _); [|destruct Hlisted].
  apply fold_set_add_In. now right.
Qed.

Lemma candidates_NoDup (index : KnowledgeBaseIndex.t) (expanded : list string) :
  NoDup (candidateDocIds index expanded).
Proof.
  unfold candidateDocIds.
  assert (Hadd : forall items acc,
             NoDup acc -> NoDup (fold_left (fun a d => Str.set_add d a) items acc)).
  { induction items as [|d rest IH]; intros acc Hacc; cbn [fold_left]; [exact Hacc|].
    apply IH. now apply set_add_NoDup. }
  assert (H : forall terms acc,
             NoDup acc ->
             NoDup
               (fold_left
                  (fun candidates t =>
                     match Dict.get t (KnowledgeBaseIndex.invertedIndex index) with
                     | Some termEntry =>
                         fold_left (fun a d => Str.set_add d a)
                           (InvertedIndexEntry.documents termEntry) candidates
                     | None => candidates
                     end) terms acc)).
  { induction terms as [|t rest IH]; intros acc Hacc; cbn [fold_left]; [exact Hacc|].
    apply IH. destruct (Dict.get t _); [now apply Hadd | exact Hacc]. }
  apply H. constructor.
Qed.

(** X13.  On a corpus of documents with distinct ids and a query the
    indexed search runs to its end on, every document that contains a token
    of the query is a candidate and is scored; it is among the passing
    candidates, with its normalized score, as soon as its raw score exceeds
    the threshold of 8. *)
Theorem documents_with_a_query_token_are_scored :
  forall (Math_log Math_sqrt : Q -> Q) (documents : list KnowledgeDocument.t) (now : Z)
         (index : KnowledgeBaseIndex.t) (query word : string) (doc : KnowledgeDocument.t),
    NoDup (map KnowledgeDocument.id documents) ->
    buildKnowledgeBaseIndex Math_log documents now = Some index ->
    hasInheritedKey query = false ->
    In word (tokenizeAndNormalize query) ->
    In doc documents ->
    containsTerm word doc = true ->
    exists expandedQuery docEntry,
      expandQueryForSmallKb (tokenizeAndNormalize query) index = Some expandedQuery
      /\ In (KnowledgeDocument.id doc) (candidateDocIds index expandedQuery)
      /\ DocumentIndex.get (KnowledgeDocument.id doc) (KnowledgeBaseIndex.documentIndex index)
         = Some docEntry
      /\ DocumentIndexEntry.document docEntry = doc
      /\ let score :=
           rawScore Math_sqrt index query (tokenizeAndNormalize query) expandedQuery docEntry in
         (Qgtb score 8 = true ->
          In (SearchResult.mk doc (normalizeScore score))
            (passingCandidates Math_sqrt (Some index) query documents)).
Proof.
  intros Math_log Math_sqrt documents now index query word doc Hnd Hb Hkeys Hword Hdoc Hc.
  unfold hasInheritedKey in Hkeys.
  destruct (expansion_defined _ (Str.dedup (tokenizeAndNormalize query)) Hkeys)
    as [expanded Hexp].
  destruct (built_indexed Math_log documents now index doc Hnd Hb Hdoc) as [docEntry [Hget He]].
  exists expanded, docEntry.
  assert (Hcand : In (KnowledgeDocument.id doc) (candidateDocIds index expanded)).
  { apply (listed_candidate index expanded word).
    - apply (expansion_keeps _ _ _ Hexp). now apply dedup_In.
    - rewrite (built_postings Math_log documents now index Hnd Hb).
      apply in_map, filter_In. now split. }
  split; [exact Hexp|]. split; [exact Hcand|]. split; [exact Hget|]. split; [exact He|].
  intros score Hpass. unfold passingCandidates.
  destruct (tokenizeAndNormalize query) as [|w ws] eqn:Etok; [destruct Hword|].
  unfold expandQueryForSmallKb in *. rewrite Hexp.
  unfold scoredCandidates. apply in_flat_map.
  exists (KnowledgeDocument.id doc). split; [exact Hcand|].
  rewrite Hget. unfold scoreCandidate. fold score. rewrite Hpass, He. now left.
Qed.

Lemma documents_with_a_query_token_are_scored_witness :
  exists expandedQuery docEntry,
    expandQueryForSmallKb (tokenizeAndNormalize "cloud learning") Samples.index
    = Some expandedQuery
    /\ In (KnowledgeDocument.id Samples.cloud) (candidateDocIds Samples.index expandedQuery)
    /\ DocumentIndex.get (KnowledgeDocument.id Samples.cloud)
         (KnowledgeBaseIndex.documentIndex Samples.index) = Some docEntry
    /\ DocumentIndexEntry.document docEntry = Samples.cloud
    /\ let score :=
         rawScore Approx.sqrt Samples.index "cloud learning"
           (tokenizeAndNormalize "cloud learning") expandedQuery docEntry in
       (Qgtb score 8 = true ->
        In (SearchResult.mk Samples.cloud (normalizeScore score))
          (passingCandidates Approx.sqrt (Some Samples.index) "cloud learning" Samples.corpus)).
Proof.
  apply (documents_with_a_query_token_are_scored Approx.log Approx.sqrt Samples.corpus 0
           Samples.index "cloud learning" "cloud" Samples.cloud).
  - vm_compute. distinct_strings.
  - exact sample_index_built.
  - vm_compute. reflexivity.
  - vm_compute. tauto.
  - vm_compute. tauto.
  - vm_compute. reflexivity.
Defined.

Lemma flat_map_NoDup {A B : Type} (key : A -> string) (name : B -> string)
    (f : A -> list B) (l : list A) :
  NoDup (map key l) ->
  (forall x r, In r (f x) -> name r = key x) ->
  (forall x, (List.length (f x) <= 1)%nat) ->
  NoDup (map name (flat_map f l)).
Proof.
  intros Hnd Hname Hone. induction l as [|x t IH]; simpl; [constructor|].
  inversion Hnd as [|? ? Hx Ht]; subst. specialize (IH Ht).
  rewrite map_app. specialize (Hone x). pose proof (Hname x) as Hn.
  destruct (f x) as [|r [|r' rest]]; simpl in *; [exact IH| |lia].
  constructor; [|exact IH].
  rewrite (Hn r) by now left. intros Hin. apply Hx.
  apply in_map_iff in Hin. destruct Hin as [r0 [Hr0 Hin]].
  apply in_flat_map in Hin. destruct Hin as [y [Hy Hr]].
  rewrite (Hname y r0 Hr) in Hr0. rewrite <- Hr0. now apply in_map.
Qed.

Lemma ranking_NoDup (k : Z) (l : list SearchResult.t) :
  NoDup (map resultId l) -> NoDup (map resultId (slice0 k (sortByScore l))).
Proof.
  intros H. destruct (slice0_firstn k (sortByScore l)) as [n ->].
  rewrite <- firstn_map. apply firstn_NoDup.
  eapply Permutation_NoDup; [|exact H].
  apply Permutation_map, sortByScore_perm.
Qed.

Lemma basicCandidate_one (queryWords : list string) (doc : KnowledgeDocument.t) :
  (List.length (basicCandidate queryWords doc) <= 1)%nat
  /\ forall r, In r (basicCandidate queryWords doc) -> SearchResult.doc r = doc.
Proof.
  unfold basicCandidate. destruct (0 <? basicScore queryWords doc); simpl.
  - split; [lia | now intros r [<-|[]]].
  - split; [lia | intros r []].
Qed.

Lemma scoreCandidate_one Math_sqrt index query queryWords expandedQuery docEntry :
  (List.length (scoreCandidate Math_sqrt index query queryWords expandedQuery docEntry) <= 1)%nat.
Proof. unfold scoreCandidate. destruct (Qgtb _ 8); simpl; lia. Qed.

Lemma basicPassing_NoDup (query : string) (documents : list KnowledgeDocument.t) :
  NoDup (map KnowledgeDocument.id documents) ->
  NoDup (map resultId (basicPassing query documents)).
Proof.
  intros Hnd. unfold basicPassing.
  destruct (basicQueryWords query) as [|w ws]; [constructor|].
  apply (flat_map_NoDup KnowledgeDocument.id resultId); [exact Hnd | |].
  - intros doc r Hr. unfold resultId.
    now rewrite (proj2 (basicCandidate_one (w :: ws) doc) r Hr).
  - intros doc. apply basicCandidate_one.
Qed.

(** X14.  On a corpus of documents with distinct ids no document is
    returned twice, by the indexed search, by the fallback it takes when
    query expansion raises, or by the search without an index. *)
Theorem search_returns_each_document_once :
  forall (Math_log Math_sqrt : Q -> Q) (documents : list KnowledgeDocument.t) (now : Z)
         (index : KnowledgeBaseIndex.t) (query : string) (maxResults : Z),
    NoDup (map KnowledgeDocument.id documents) ->
    buildKnowledgeBaseIndex Math_log documents now = Some index ->
    NoDup (map resultId (searchDocuments Math_sqrt (Some index) query documents maxResults))
    /\ NoDup (map resultId (searchDocuments Math_sqrt None query documents maxResults)).
Proof.
  intros Math_log Math_sqrt documents now index query maxResults Hnd Hb.
  rewrite !searchDocuments_ranking. split; apply ranking_NoDup.
  - unfold passingCandidates.
    destruct (tokenizeAndNormalize query) as [|w ws]; [constructor|].
    destruct (expandQueryForSmallKb (w :: ws) index) as [expanded|];
      [|now apply basicPassing_NoDup].
    unfold scoredCandidates.
    apply (flat_map_NoDup (fun docId => docId) resultId).
    + rewrite map_id. apply candidates_NoDup.
    + intros docId r Hr.
      destruct (DocumentIndex.get docId _) as [docEntry|] eqn:Eentry; [|destruct Hr].
      apply scoreCandidate_doc in Hr. unfold resultId. rewrite Hr.
      now destruct (built_entries Math_log documents now index Hnd Hb docId docEntry Eentry).
    + intros docId. destruct (DocumentIndex.get docId _); [apply scoreCandidate_one | simpl; lia].
  - now apply basicPassing_NoDup.
Qed.

Lemma search_returns_each_document_once_witness :
  NoDup (map resultId (searchDocuments Approx.sqrt (Some Samples.index) "learning" Samples.corpus 5))
  /\ NoDup (map resultId (searchDocuments Approx.sqrt None "learning" Samples.corpus 5)).
Proof.
  apply (search_returns_each_document_once Approx.log Approx.sqrt Samples.corpus 0
           Samples.index "learning" 5).
  - vm_compute. distinct_strings.
  - exact sample_index_built.
Defined.

Lemma insertByScore_filter (keep : SearchResult.t -> bool) (r : SearchResult.t)
    (l : list SearchResult.t) :
  filter keep (insertByScore r l) = filter keep (r :: l)
  \/ exists x, In x l /\ keep x = true /\ keep r = true
               /\ SearchResult.searchScore r < SearchResult.searchScore x.
Proof.
  induction l as [|x t IH]; cbn [insertByScore]; [now left|].
  destruct (SearchResult.searchScore x <=? SearchResult.searchScore r) eqn:E; [now left|].
  apply Z.leb_gt in E.
  destruct IH as [IH|[y [Hy [Hky [Hkr Hlt]]]]].
  - cbn [filter] in *. destruct (keep x) eqn:Ex; destruct (keep r) eqn:Er.
    + right. exists x. repeat split; try assumption. now left.
    + left. now rewrite IH.
    + left. exact IH.
    + left. exact IH.
  - right. exists y. repeat split; try assumption. now right.
Qed.

(** X15.  The sort by score is stable: the results with one and the same
    score stay in the order in which the candidates were scored. *)
Theorem equal_scores_keep_their_order :
  forall (l : list SearchResult.t) (score : Z),
    filter (fun r => SearchResult.searchScore r =? score) (sortByScore l)
    = filter (fun r => SearchResult.searchScore r =? score) l.
Proof.
  intros l score. induction l as [|r t IH]; [reflexivity|].
  cbn [sortByScore fold_right]. fold (sortByScore t).
  destruct (insertByScore_filter (fun r => SearchResult.searchScore r =? score) r (sortByScore t))
    as [H|[x [_ [Hx [Hr Hlt]]]]].
  - rewrite H. cbn [filter]. now rewrite IH.
  - apply Z.eqb_eq in Hx, Hr. lia.
Qed.

(** X16.  A negative [maxResults] does not bound the list: [slice(0, n)]
    then drops the last [-n] elements of the sorted list of the passing
    candidates and keeps all the others. *)
Theorem negative_maxResults_drops_the_last_results :
  forall (Math_sqrt : Q -> Q) (knowledgeBaseIndex : option KnowledgeBaseIndex.t)
         (query : string) (documents : list KnowledgeDocument.t) (maxResults : Z),
    maxResults < 0 ->
    let passing := passingCandidates Math_sqrt knowledgeBaseIndex query documents in
    let found := searchDocuments Math_sqrt knowledgeBaseIndex query documents maxResults in
    found = firstn (List.length passing - Z.to_nat (- maxResults)) (sortByScore passing)
    /\ List.length found = (List.length passing - Z.to_nat (- maxResults))%nat.
Proof.
  intros Math_sqrt kbi query documents maxResults Hneg passing found. subst found.
  rewrite searchDocuments_ranking. fold passing.
  assert (Hlen : List.length (sortByScore passing) = List.length passing)
    by (symmetry; apply Permutation_length, sortByScore_perm).
  assert (Hcut : slice0 maxResults (sortByScore passing)
                 = firstn (List.length passing - Z.to_nat (- maxResults)) (sortByScore passing)).
  { unfold slice0. apply Z.ltb_lt in Hneg. rewrite Hneg. apply Z.ltb_lt in Hneg.
    rewrite Hlen. f_equal. lia. }
  rewrite Hcut. split; [reflexivity|]. rewrite length_firstn, Hlen. lia.
Qed.

Lemma negative_maxResults_drops_the_last_results_witness :
  let passing := passingCandidates Approx.sqrt (Some Samples.index) "learning" Samples.corpus in
  let found := searchDocuments Approx.sqrt (Some Samples.index) "learning" Samples.corpus (-1) in
  found = firstn (List.length passing - Z.to_nat (- (-1))) (sortByScore passing)
  /\ List.length found = (List.length passing - Z.to_nat (- (-1)))%nat.
Proof.
  apply (negative_maxResults_drops_the_last_results Approx.sqrt (Some Samples.index)
           "learning" Samples.corpus (-1)).
  lia.
Defined.

(** ** The fallback search *)

Lemma round_of_double (n : Z) : Math_round ((inject_Z n / 50) * 100)%Q = 2 * n.
Proof.
  unfold Math_round.
  assert (H : ((inject_Z n / 50) * 100 + (1 # 2) == inject_Z (2 * n) + (1 # 2))%Q).
  { rewrite inject_Z_mult. change (inject_Z 2) with 2%Q. field. }
  rewrite H.
  assert (Hlo : (inject_Z (2 * n) <= inject_Z (2 * n) + (1 # 2))%Q) by lra.
  assert (Hhi : (inject_Z (2 * n) + (1 # 2) < inject_Z (2 * n + 1))%Q).
  { rewrite inject_Z_plus. change (inject_Z 1) with 1%Q. lra. }
  apply Qfloor_resp_le in Hlo. rewrite Qfloor_Z in Hlo.
  assert (Hup : Qfloor (inject_Z (2 * n) + (1 # 2)) < 2 * n + 1).
  { rewrite Zlt_Qlt. eapply Qle_lt_trans; [apply Qfloor_le | exact Hhi]. }
  lia.
Qed.

Lemma basicScore_steps (queryWords : list string) (doc : KnowledgeDocument.t) :
  forall start : Z,
    let score :=
      fold_left
        (fun score word =>
           score
           + (if Str.includes (Str.toLowerCase (KnowledgeDocument.title doc)) word then 10 else 0)
           + (if Str.includes (Str.toLowerCase (KnowledgeDocument.content doc)) word then 5 else 0))
        queryWords start in
    (exists k, 0 <= k /\ score = start + 5 * k)
    /\ (start < score -> exists word, In word queryWords /\ mentions word doc = true).
Proof.
  induction queryWords as [|w rest IH]; intros start; cbn [fold_left].
  - split; [exists 0; lia | lia].
  - set (next := start + _ + _).
    destruct (IH next) as [[k [Hk Hscore]] Hfound]. cbv zeta in Hscore, Hfound.
    fold next. rewrite Hscore. unfold mentions.
    subst next.
    destruct (Str.includes (Str.toLowerCase (KnowledgeDocument.title doc)) w) eqn:Et;
      destruct (Str.includes (Str.toLowerCase (KnowledgeDocument.content doc)) w) eqn:Ec;
      (split;
       [ first [ exists (k + 3); lia | exists (k + 2); lia | exists (k + 1); lia | exists k; lia ]
       | intros Hlt ]);
      try (exists w; split; [now left | rewrite Et, Ec; reflexivity]).
    destruct Hfound as [word [Hin Hm]]; [lia|].
    exists word. split; [now right | exact Hm].
Qed.

(** X17.  Every result of the fallback search is a document of the list it
    was given whose lowercased title or content includes one of the query's
    words as a substring; its score is twice the points it earned, 10 for a
    word in the title and 5 for a word in the content, cut at 100, and so is
    at least 10. *)
Theorem basic_search_returns_mentioning_documents :
  forall (query : string) (documents : list KnowledgeDocument.t) (maxResults : Z),
    Forall
      (fun r =>
         In (SearchResult.doc r) documents
         /\ (exists word,
               In word (basicQueryWords query) /\ mentions word (SearchResult.doc r) = true)
         /\ SearchResult.searchScore r
            = Z.min (2 * basicScore (basicQueryWords query) (SearchResult.doc r)) 100
         /\ 10 <= SearchResult.searchScore r)
      (searchDocumentsBasic query documents maxResults).
Proof.
  intros query documents maxResults. apply Forall_forall. intros r Hr.
  unfold searchDocumentsBasic in Hr.
  destruct (basicQueryWords query) as [|w ws] eqn:Ewords; [destruct Hr|].
  apply ranking_In in Hr. apply in_flat_map in Hr. destruct Hr as [doc [Hdoc Hr]].
  unfold basicCandidate in Hr.
  destruct (0 <? basicScore (w :: ws) doc) eqn:Epos; [|destruct Hr].
  apply Z.ltb_lt in Epos. destruct Hr as [<-|[]]. cbn [SearchResult.doc SearchResult.searchScore].
  destruct (basicScore_steps (w :: ws) doc 0) as [[k [Hk Hscore]] Hfound].
  cbv zeta in Hscore, Hfound. fold (basicScore (w :: ws) doc) in Hscore, Hfound.
  split; [exact Hdoc|]. split; [now apply Hfound|].
  rewrite round_of_double. split; [reflexivity | lia].
Qed.

(** ** The Markdown parser *)

Lemma calculateRelevance_range (title content : string) (tags : list string) :
  ((1 # 2) <= calculateRelevance title content tags <= 1)%Q.
Proof.
  unfold calculateRelevance. split; [|apply Q.le_min_r].
  apply Q.min_glb; [|discriminate].
  assert (Htags : (0 <= Qmin (inject_Z (Z.of_nat (List.length tags)) * (2 # 100)) (2 # 10))%Q).
  { apply Q.min_glb; [|discriminate].
    apply Qmult_le_0_compat; [apply inject_Z_nonneg; lia | discriminate]. }
  revert Htags. generalize (Qmin (inject_Z (Z.of_nat (List.length tags)) * (2 # 100)) (2 # 10)).
  intros q Hq.
  repeat match goal with |- context [if ?b then _ else _] => destruct b end; lra.
Qed.

Lemma allChars_dropChars (p : ascii -> bool) (n : nat) (s : string) :
  allChars p s = true -> allChars p (Str.dropChars n s) = true.
Proof.
  revert s. induction n as [|n IH]; intros s; [now destruct s|].
  destruct s as [|c t]; simpl; [reflexivity|].
  intros H. apply andb_true_iff in H. now apply IH.
Qed.

Lemma allChars_removeFirst (p : ascii -> bool) (pat s : string) :
  allChars p s = true -> allChars p (Str.removeFirst pat s) = true.
Proof.
  induction s as [|c t IH]; intros H.
  - cbn [Str.removeFirst]. destruct (prefix pat ""); [now apply allChars_dropChars | reflexivity].
  - cbn [Str.removeFirst]. destruct (prefix pat (String c t)); [now apply allChars_dropChars|].
    cbn [allChars] in *. apply andb_true_iff in H. destruct H as [Hc Ht]. now rewrite Hc, IH.
Qed.

Lemma extractTags_tags (title content filename tag : string) :
  In tag (extractTags title content filename) ->
  (2 <= String.length tag)%nat /\ allChars notUpper tag = true.
Proof.
  unfold extractTags. intros H. apply firstn_In in H. apply dedup_onto_In in H.
  apply in_app_or in H. destruct H as [H|H]; [|apply in_app_or in H; destruct H as [H|H]].
  - apply filter_In in H. destruct H as [Hin Hlen]. apply Nat.ltb_lt in Hlen.
    split; [lia|].
    apply (split_pieces isNameSeparator notUpper _ _
             (allChars_removeFirst _ _ _ (toLowerCase_notUpper filename)) Hin).
  - apply filter_In in H. destruct H as [Hin Hlen]. apply Nat.ltb_lt in Hlen.
    split; [lia|].
    apply (split_pieces Str.isSpace notUpper _ _ (toLowerCase_notUpper title) Hin).
  - apply filter_In in H. destruct H as [Hin _].
    assert (Hall : forallb (fun k => (2 <=? String.length k)%nat && allChars notUpper k)
                     techKeywords = true) by reflexivity.
    rewrite forallb_forall in Hall. specialize (Hall tag Hin).
    apply andb_true_iff in Hall. destruct Hall as [Hlen Hlow].
    apply Nat.leb_le in Hlen. now split.
Qed.

Lemma extractTags_few (title content filename : string) :
  (List.length (extractTags title content filename) <= 10)%nat
  /\ NoDup (extractTags title content filename).
Proof.
  unfold extractTags. split; [rewrite length_firstn; lia | apply firstn_NoDup, dedup_NoDup].
Qed.

(** X18.  A document gets at most ten tags, no tag twice; every tag has at
    least two characters and no uppercase letter. *)
Theorem tags_are_few_distinct_and_lowercase :
  forall title content filename : string,
    let tags := extractTags title content filename in
    (List.length tags <= 10)%nat
    /\ NoDup tags
    /\ Forall (fun tag => (2 <= String.length tag)%nat /\ allChars notUpper tag = true) tags.
Proof.
  intros title content filename tags. subst tags.
  destruct (extractTags_few title content filename) as [Hlen Hnd].
  split; [exact Hlen|]. split; [exact Hnd|].
  apply Forall_forall. intros tag. apply extractTags_tags.
Qed.

Lemma idChar_tokenChar (c : ascii) : isTokenChar (idChar c) = true.
Proof. destruct c as [[] [] [] [] [] [] [] []]; reflexivity. Qed.

(** X19.  The parser does not fail, whatever the text and the name of the
    file.  The document's source is the file name; its id has the length of
    the file name without its first [.md] and holds lowercase letters,
    digits and underscores only; its relevance lies between 0.5 and 1; and
    it carries at most ten tags, no tag twice. *)
Theorem parsed_document_metadata :
  forall content filename : string,
    exists doc,
      parseMarkdownDocument content filename = Some doc
      /\ KnowledgeDocument.source doc = filename
      /\ allChars isTokenChar (KnowledgeDocument.id doc) = true
      /\ String.length (KnowledgeDocument.id doc)
         = String.length (Str.removeFirst ".md" filename)
      /\ ((1 # 2) <= KnowledgeDocument.relevance doc <= 1)%Q
      /\ (List.length (KnowledgeDocument.tags doc) <= 10)%nat
      /\ NoDup (KnowledgeDocument.tags doc).
Proof.
  intros content filename. unfold parseMarkdownDocument. eexists. split; [reflexivity|].
  cbn [KnowledgeDocument.source KnowledgeDocument.id KnowledgeDocument.tags
       KnowledgeDocument.relevance KnowledgeDocument.title KnowledgeDocument.content].
  split; [reflexivity|]. split; [|split; [|split; [|apply extractTags_few]]].
  - rewrite allChars_map. apply allChars_all. intros c. apply idChar_tokenChar.
  - unfold Str.toLowerCase. now rewrite !map_string_length.
  - apply calculateRelevance_range.
Qed.

(** X20.  The topics of a file name are parts of the lowercased name
    without its first [.md]: each has more than three characters, no
    uppercase letter, and no hyphen, underscore or white space. *)
Theorem topics_are_long_lowercase_name_parts :
  forall filename : string,
    Forall
      (fun topic =>
         (3 < String.length topic)%nat
         /\ allChars notUpper topic = true
         /\ allChars (fun c => negb (isNameSeparator c)) topic = true)
      (extractTopicsFromFilename filename).
Proof.
  intros filename. apply Forall_forall. intros topic H.
  unfold extractTopicsFromFilename in H. apply filter_In in H. destruct H as [Hin Hlen].
  apply Nat.ltb_lt in Hlen. split; [exact Hlen|].
  apply (split_pieces isNameSeparator notUpper _ _
           (allChars_removeFirst _ _ _ (toLowerCase_notUpper filename)) Hin).
Qed.

(** ** The loader *)

Lemma leb_trans (a b c : string) : nameLe a b -> nameLe b c -> nameLe a c.
Proof.
  unfold nameLe, String.leb. revert b c.
  induction a as [|x a IH]; intros [|y b] [|z c]; simpl; try easy.
  unfold Ascii.compare.
  destruct (N.compare_spec (N_of_ascii x) (N_of_ascii y)) as [Hxy|Hxy|Hxy];
    destruct (N.compare_spec (N_of_ascii y) (N_of_ascii z)) as [Hyz|Hyz|Hyz];
    destruct (N.compare_spec (N_of_ascii x) (N_of_ascii z)) as [Hxz|Hxz|Hxz];
    try easy; try lia.
  apply IH.
Qed.

Lemma insertName_perm (x : string) (l : list string) : Permutation (x :: l) (insertName x l).
Proof.
  induction l as [|y t IH]; simpl; [apply Permutation_refl|].
  destruct (String.leb x y); [apply Permutation_refl|].
  eapply perm_trans; [apply perm_swap|]. now apply perm_skip.
Qed.

Lemma sortNames_perm (l : list string) : Permutation l (sortNames l).
Proof.
  induction l as [|x t IH]; simpl; [constructor|].
  eapply perm_trans; [apply perm_skip, IH | apply insertName_perm].
Qed.

Lemma insertName_sorted (x : string) (l : list string) :
  StronglySorted nameLe l -> StronglySorted nameLe (insertName x l).
Proof.
  induction l as [|y t IH]; simpl; intros Hs; [repeat constructor|].
  inversion Hs as [|? ? Ht Hy]; subst.
  destruct (String.leb x y) eqn:E.
  - constructor; [exact Hs|]. constructor; [exact E|].
    eapply Forall_impl; [|exact Hy]. intros z Hz. now apply (leb_trans x y z).
  - constructor; [now apply IH|].
    eapply Permutation_Forall; [apply insertName_perm|].
    constructor; [|exact Hy].
    destruct (String.leb_total x y) as [H|H]; [congruence | exact H].
Qed.

Lemma sortNames_sorted (l : list string) : StronglySorted nameLe (sortNames l).
Proof. induction l; simpl; [constructor | now apply insertName_sorted]. Qed.

Lemma sorted_unique (l1 l2 : list string) :
  StronglySorted nameLe l1 -> StronglySorted nameLe l2 -> Permutation l1 l2 -> l1 = l2.
Proof.
  revert l2. induction l1 as [|x t1 IH]; intros l2 H1 H2 Hp.
  - apply Permutation_nil in Hp. now subst.
  - destruct l2 as [|y t2]; [apply Permutation_sym, Permutation_nil in Hp; discriminate|].
    inversion H1 as [|? ? Ht1 Hx]; inversion H2 as [|? ? Ht2 Hy]; subst.
    assert (x = y) as <-.
    { assert (Hxin : In x (y :: t2)) by (eapply Permutation_in; [exact Hp | now left]).
      assert (Hyin : In y (x :: t1))
        by (eapply Permutation_in; [apply Permutation_sym, Hp | now left]).
      rewrite Forall_forall in Hx, Hy.
      destruct Hxin as [->|Hxin]; [reflexivity|].
      destruct Hyin as [->|Hyin]; [reflexivity|].
      apply String.leb_antisym; [now apply Hx | now apply Hy]. }
    f_equal. apply IH; try assumption. now apply Permutation_cons_inv in Hp.
Qed.

Lemma filter_perm {A : Type} (p : A -> bool) (l l' : list A) :
  Permutation l l' -> Permutation (filter p l) (filter p l').
Proof.
  induction 1 as [|x l l' _ IH|x y l|l l' l'' _ IH1 _ IH2]; simpl.
  - constructor.
  - destruct (p x); [now constructor | exact IH].
  - destruct (p x), (p y); try apply Permutation_refl. apply perm_swap.
  - eapply perm_trans; eassumption.
Qed.

Lemma markdownFiles_perm (names names' : list string) :
  Permutation names names' -> markdownFiles names = markdownFiles names'.
Proof.
  intros Hp. unfold markdownFiles.
  apply sorted_unique; try apply sortNames_sorted.
  eapply perm_trans; [apply Permutation_sym, sortNames_perm|].
  eapply perm_trans; [|apply sortNames_perm]. now apply filter_perm.
Qed.

Lemma parse_source (content filename : string) :
  exists doc,
    parseMarkdownDocument content filename = Some doc
    /\ KnowledgeDocument.source doc = filename.
Proof. unfold parseMarkdownDocument. eexists. split; reflexivity. Qed.

Lemma parsed_sources (fs : FileSystem) (files : list string) :
  map KnowledgeDocument.source (flat_map (loadFile fs) files) = filter (readable fs) files.
Proof.
  induction files as [|f t IH]; simpl; [reflexivity|].
  rewrite map_app, IH. unfold loadFile, readable.
  destruct (readFileSync fs f) as [content|]; [|reflexivity].
  destruct (parse_source content f) as [doc [-> Hsrc]].
  simpl. now rewrite Hsrc.
Qed.

Lemma filter_sorted {A : Type} (R : A -> A -> Prop) (p : A -> bool) (l : list A) :
  StronglySorted R l -> StronglySorted R (filter p l).
Proof.
  induction 1 as [|x t Ht IH Hx]; simpl; [constructor|].
  destruct (p x); [|exact IH]. constructor; [exact IH|].
  apply Forall_forall. intros y Hy. apply filter_In in Hy.
  rewrite Forall_forall in Hx. now apply Hx.
Qed.

Lemma wordLoop_raises (docId : string) (words : list string) :
  existsb isInheritedKey words = true ->
  forall st : WordState, forEachM (indexWord docId) words st = None.
Proof.
  induction words as [|w rest IH]; cbn [existsb forEachM]; [discriminate|].
  intros H st. unfold indexWord at 1.
  destruct (isInheritedKey w); [reflexivity|]. now apply IH.
Qed.

Lemma firstPass_raises (documents : list KnowledgeDocument.t) :
  hasInheritedToken documents = true ->
  forall st : BuildState, forEachM indexDocument documents st = None.
Proof.
  unfold hasInheritedToken.
  induction documents as [|doc rest IH]; cbn [existsb forEachM]; [discriminate|].
  intros H st. unfold indexDocument at 1.
  destruct (existsb isInheritedKey (documentWords doc)) eqn:Edoc.
  - now rewrite wordLoop_raises.
  - destruct (forEachM (indexWord _) _ _); [|reflexivity]. now apply IH.
Qed.

Lemma build_raises (Math_log : Q -> Q) (documents : list KnowledgeDocument.t) (now : Z) :
  hasInheritedToken documents = true ->
  buildKnowledgeBaseIndex Math_log documents now = None.
Proof.
  intros H. unfold buildKnowledgeBaseIndex. now rewrite firstPass_raises.
Qed.

Lemma firstPass_order (documents : list KnowledgeDocument.t) :
  forall st st' : BuildState,
    forEachM indexDocument documents st = Some st' ->
    NoDup (Dict.keys (DocumentIndex.own (bs_documentIndex st))
           ++ map KnowledgeDocument.id documents) ->
    ~ In "__proto__" (map KnowledgeDocument.id documents) ->
    filedDocuments (DocumentIndex.own (bs_documentIndex st'))
    = filedDocuments (DocumentIndex.own (bs_documentIndex st))
      ++ map (fun doc => (KnowledgeDocument.id doc, doc)) documents.
Proof.
  induction documents as [|doc rest IH]; intros st st'; cbn [forEachM map].
  - intros [= <-] _ _. now rewrite app_nil_r.
  - unfold indexDocument at 1.
    destruct (forEachM (indexWord _) _ _) as [ws|]; [|discriminate].
    intros Hrest Hnd Hproto. apply IH in Hrest.
    + rewrite Hrest. cbn [bs_documentIndex]. unfold DocumentIndex.set.
      destruct (String.eqb (KnowledgeDocument.id doc) "__proto__") eqn:E.
      { apply String.eqb_eq in E. exfalso. apply Hproto. now left. }
      cbn [DocumentIndex.own]. rewrite set_fresh.
      * unfold filedDocuments. rewrite map_app, <- app_assoc. reflexivity.
      * intros Hin. apply NoDup_remove_2 in Hnd. apply Hnd, in_or_app. now left.
    + cbn [bs_documentIndex]. unfold DocumentIndex.set.
      destruct (String.eqb (KnowledgeDocument.id doc) "__proto__") eqn:E.
      { apply String.eqb_eq in E. exfalso. apply Hproto. now left. }
      cbn [DocumentIndex.own]. rewrite set_keys, set_add_new.
      * now rewrite <- app_assoc.
      * intros Hin. apply NoDup_remove_2 in Hnd. apply Hnd, in_or_app. now left.
    + intros Hin. apply Hproto. now right.
Qed.

Lemma fillTfidfAll_documents (inv : InvertedIndex) (own : list (string * DocumentIndexEntry.t)) :
  forall own', fillTfidfAll inv own = Some own' -> filedDocuments own' = filedDocuments own.
Proof.
  induction own as [|[k e] t IH]; intros own'; cbn [fillTfidfAll].
  - now intros [= <-].
  - destruct (fillTfidf inv e) as [e'|] eqn:Ee; [|discriminate].
    destruct (fillTfidfAll inv t) as [t'|]; [|discriminate].
    intros [= <-]. unfold filedDocuments in *. cbn [map fst snd].
    apply fillTfidf_spec in Ee. destruct Ee as [-> _]. now rewrite (IH t').
Qed.

Lemma filed_keys (own : list (string * DocumentIndexEntry.t)) :
  map fst (filedDocuments own) = Dict.keys own.
Proof. unfold filedDocuments, Dict.keys. rewrite map_map. reflexivity. Qed.

Lemma filed_docs (own : list (string * DocumentIndexEntry.t)) :
  map snd (filedDocuments own) = map DocumentIndexEntry.document (map snd own).
Proof. unfold filedDocuments. rewrite !map_map. reflexivity. Qed.

Lemma built_documents (Math_log : Q -> Q) (documents : list KnowledgeDocument.t) (now : Z)
    (index : KnowledgeBaseIndex.t) :
  NoDup (map KnowledgeDocument.id documents) ->
  ~ In "__proto__" (map KnowledgeDocument.id documents) ->
  buildKnowledgeBaseIndex Math_log documents now = Some index ->
  filedDocuments (DocumentIndex.own (KnowledgeBaseIndex.documentIndex index))
  = map (fun doc => (KnowledgeDocument.id doc, doc)) documents.
Proof.
  intros Hnd Hproto Hb. apply build_passes in Hb.
  destruct Hb as [st [inv [own [H1 [_ [H3 [_ [Hdi _]]]]]]]].
  rewrite Hdi. cbn [DocumentIndex.own].
  rewrite (fillTfidfAll_documents _ _ _ H3).
  now rewrite (firstPass_order documents _ _ H1 Hnd Hproto).
Qed.

Lemma insertName_length (x : string) (l : list string) :
  List.length (insertName x l) = S (List.length l).
Proof.
  induction l as [|y t IH]; simpl; [reflexivity|].
  destruct (String.leb x y); simpl; [reflexivity | now rewrite IH].
Qed.

Lemma sortNames_length (l : list string) : List.length (sortNames l) = List.length l.
Proof.
  induction l as [|x t IH]; simpl; [reflexivity|].
  now rewrite insertName_length, IH.
Qed.

Lemma loaded_at_most_files (fs : FileSystem) (files : list string) :
  (List.length (flat_map (loadFile fs) files) <= List.length files)%nat.
Proof.
  induction files as [|f t IH]; simpl; [lia|].
  rewrite length_app. unfold loadFile at 1.
  destruct (readFileSync fs f) as [content|]; [|simpl; lia].
  destruct (parseMarkdownDocument content f); simpl; lia.
Qed.

Section Loader.
Variable Math_log : Q -> Q.

Lemma load_rebuild (fs : FileSystem) (now : Z) (names : list string) :
  existsSync fs = true ->
  readdirSync fs = Some names ->
  loadKnowledgeBaseDocuments Math_log fs now None
  = match markdownFiles names with
    | [] => ([], Some (createEmptyIndex now))
    | _ =>
        match buildKnowledgeBaseIndex Math_log (parsedDocuments fs names) now with
        | Some index => (parsedDocuments fs names, Some index)
        | None => ([], Some (createEmptyIndex now))
        end
    end.
Proof.
  intros He Hr. unfold loadKnowledgeBaseDocuments, parsedDocuments, markdownFiles.
  rewrite He, Hr. reflexivity.
Qed.

(** A rebuild that returns documents has built its index from them. *)
Lemma load_built (fs : FileSystem) (now : Z) (documents : list KnowledgeDocument.t)
    (index : KnowledgeBaseIndex.t) :
  loadKnowledgeBaseDocuments Math_log fs now None = (documents, Some index) ->
  documents <> [] ->
  buildKnowledgeBaseIndex Math_log documents now = Some index.
Proof.
  unfold loadKnowledgeBaseDocuments.
  destruct (negb (existsSync fs)); [intros [= <- _]; congruence|].
  destruct (readdirSync fs) as [names|]; [|intros [= <- _]; congruence].
  destruct (sortNames _) as [|f files]; [intros [= <- _]; congruence|].
  destruct (buildKnowledgeBaseIndex _ _ _) as [built|] eqn:Eb;
    [|intros [= <- _]; congruence].
  intros [= <- <-] _. exact Eb.
Qed.

(** Within the time to live, the loader answers from the index it is given. *)
Lemma load_hit (fs : FileSystem) (now : Z) (index : KnowledgeBaseIndex.t) :
  now - KnowledgeBaseIndex.lastIndexed index < CACHE_TTL ->
  loadKnowledgeBaseDocuments Math_log fs now (Some index)
  = (map DocumentIndexEntry.document
       (DocumentIndex.values (KnowledgeBaseIndex.documentIndex index)),
     Some index).
Proof.
  intros H. apply Z.ltb_lt in H. unfold loadKnowledgeBaseDocuments. now rewrite H.
Qed.

(** A load that returns no document leaves an index without documents. *)
Lemma load_nothing (fs : FileSystem) (now : Z) (cache : option KnowledgeBaseIndex.t)
    (index : KnowledgeBaseIndex.t) :
  loadKnowledgeBaseDocuments Math_log fs now cache = ([], Some index) ->
  map DocumentIndexEntry.document
    (DocumentIndex.values (KnowledgeBaseIndex.documentIndex index)) = [].
Proof.
  assert (Hrebuild :
            loadKnowledgeBaseDocuments Math_log fs now None = ([], Some index) ->
            map DocumentIndexEntry.document
              (DocumentIndex.values (KnowledgeBaseIndex.documentIndex index)) = []).
  { unfold loadKnowledgeBaseDocuments.
    destruct (negb (existsSync fs)); [now intros [= <-]|].
    destruct (readdirSync fs) as [names|]; [|now intros [= <-]].
    destruct (sortNames _) as [|f files]; [now intros [= <-]|].
    destruct (flat_map (loadFile fs) (f :: files)) as [|d ds].
    - unfold buildKnowledgeBaseIndex. cbn. now intros [= <-].
    - destruct (buildKnowledgeBaseIndex _ _ _); [discriminate | now intros [= <-]]. }
  destruct cache as [cached|]; [|exact Hrebuild].
  destruct (now - KnowledgeBaseIndex.lastIndexed cached <? CACHE_TTL) eqn:E.
  - unfold loadKnowledgeBaseDocuments. rewrite E. intros [= H <-]. exact H.
  - intros H. apply Hrebuild. rewrite <- H.
    unfold loadKnowledgeBaseDocuments. now rewrite E.
Qed.

End Loader.

(** X21.  A rebuild that returns documents returns one document for each
    readable [.md] file of the directory, in the order of the sorted file
    names: the sources of the documents are the names of these files, in
    ascending order of their code units; a file that cannot be read is left
    out and does not stop the load. *)
Theorem loaded_documents_follow_the_file_names :
  forall (Math_log : Q -> Q) (fs : FileSystem) (now : Z) (names : list string)
         (documents : list KnowledgeDocument.t) (index : KnowledgeBaseIndex.t),
    readdirSync fs = Some names ->
    loadKnowledgeBaseDocuments Math_log fs now None = (documents, Some index) ->
    documents <> [] ->
    map KnowledgeDocument.source documents = filter (readable fs) (markdownFiles names)
    /\ StronglySorted nameLe (map KnowledgeDocument.source documents)
    /\ forall file,
         In file (map KnowledgeDocument.source documents)
         <-> In file names /\ Str.endsWith file ".md" = true /\ readable fs file = true.
Proof.
  intros Math_log fs now names documents index Hr Hload Hne.
  assert (Hdocs : documents = parsedDocuments fs names).
  { destruct (existsSync fs) eqn:He.
    - rewrite (load_rebuild Math_log fs now names He Hr) in Hload.
      destruct (markdownFiles names); [injection Hload as <- _; congruence|].
      destruct (buildKnowledgeBaseIndex _ _ _); injection Hload as <- _; congruence.
    - unfold loadKnowledgeBaseDocuments in Hload. rewrite He in Hload.
      injection Hload as <- _. congruence. }
  rewrite Hdocs. unfold parsedDocuments. rewrite parsed_sources.
  split; [reflexivity|]. split.
  - apply filter_sorted, sortNames_sorted.
  - intros file. rewrite filter_In. unfold markdownFiles. split.
    + intros [Hin Hread].
      apply (Permutation_in _ (Permutation_sym (sortNames_perm _))) in Hin.
      apply filter_In in Hin. tauto.
    + intros [Hin [Hmd Hread]]. split; [|exact Hread].
      apply (Permutation_in _ (sortNames_perm _)). apply filter_In. now split.
Qed.

Lemma directory_loaded :
  loadKnowledgeBaseDocuments Approx.log Samples.directory 0 None
  = (Samples.directoryDocuments, Some Samples.directoryIndex).
Proof. vm_compute. reflexivity. Qed.

Lemma loaded_documents_follow_the_file_names_witness :
  let names := ["storage.md"; "notes.txt"; "learning.md"; "cloud.md"] in
  map KnowledgeDocument.source Samples.directoryDocuments
  = filter (readable Samples.directory) (markdownFiles names)
  /\ StronglySorted nameLe (map KnowledgeDocument.source Samples.directoryDocuments)
  /\ forall file,
       In file (map KnowledgeDocument.source Samples.directoryDocuments)
       <-> In file names /\ Str.endsWith file ".md" = true
           /\ readable Samples.directory file = true.
Proof.
  apply (loaded_documents_follow_the_file_names Approx.log Samples.directory 0
           ["storage.md"; "notes.txt"; "learning.md"; "cloud.md"]
           Samples.directoryDocuments Samples.directoryIndex).
  - reflexivity.
  - exact directory_loaded.
  - discriminate.
Defined.

(** X22.  The loader sorts the names of the directory before it reads the
    files: two listings of the same names in different orders give the same
    documents, in the same order, and the same index. *)
Theorem loader_ignores_the_listing_order :
  forall (Math_log : Q -> Q) (present : bool) (read : string -> option string)
         (names names' : list string) (now : Z) (cache : option KnowledgeBaseIndex.t),
    Permutation names names' ->
    loadKnowledgeBaseDocuments Math_log (mkFileSystem present (Some names) read) now cache
    = loadKnowledgeBaseDocuments Math_log (mkFileSystem present (Some names') read) now cache.
Proof.
  intros Math_log present read names names' now cache Hp.
  unfold loadKnowledgeBaseDocuments. cbn [existsSync readdirSync readFileSync].
  fold (markdownFiles names). fold (markdownFiles names').
  rewrite (markdownFiles_perm names names' Hp).
  unfold loadFile. cbn [readFileSync]. reflexivity.
Qed.

Lemma loader_ignores_the_listing_order_witness :
  loadKnowledgeBaseDocuments Approx.log
    (mkFileSystem true (Some ["storage.md"; "cloud.md"]) (readFileSync Samples.directory)) 0 None
  = loadKnowledgeBaseDocuments Approx.log
      (mkFileSystem true (Some ["cloud.md"; "storage.md"]) (readFileSync Samples.directory)) 0 None.
Proof.
  apply (loader_ignores_the_listing_order Approx.log true (readFileSync Samples.directory)
           ["storage.md"; "cloud.md"] ["cloud.md"; "storage.md"] 0 None).
  apply perm_swap.
Defined.

(** X23.  One file that uses the word [constructor] or [__proto__] as a
    token makes the index builder raise; the loader catches the exception
    and returns no document at all, with an empty index, and every request
    with a query of valid length is then answered with status 503. *)
Theorem inherited_token_empties_the_knowledge_base :
  forall (Math_log Math_sqrt : Q -> Q) (fs : FileSystem) (now : Z) (names : list string),
    existsSync fs = true ->
    readdirSync fs = Some names ->
    hasInheritedToken (parsedDocuments fs names) = true ->
    loadKnowledgeBaseDocuments Math_log fs now None = ([], Some (createEmptyIndex now))
    /\ forall body,
         validLength (requestQuery body) ->
         fst (POST Math_log Math_sqrt fs now None body)
         = failure "No documents available in knowledge base" 503.
Proof.
  intros Math_log Math_sqrt fs now names He Hr Htok.
  assert (Hload : loadKnowledgeBaseDocuments Math_log fs now None
                  = ([], Some (createEmptyIndex now))).
  { rewrite (load_rebuild Math_log fs now names He Hr).
    rewrite (build_raises Math_log _ now Htok).
    destruct (markdownFiles names); reflexivity. }
  split; [exact Hload|].
  intros body Hv. rewrite (handle_valid Math_log Math_sqrt fs now None body Hv).
  rewrite Hload. reflexivity.
Qed.

Lemma inherited_token_empties_the_knowledge_base_witness :
  loadKnowledgeBaseDocuments Approx.log Samples.classesDirectory 0 None
  = ([], Some (createEmptyIndex 0))
  /\ forall body,
       validLength (requestQuery body) ->
       fst (POST Approx.log Approx.sqrt Samples.classesDirectory 0 None body)
       = failure "No documents available in knowledge base" 503.
Proof.
  apply (inherited_token_empties_the_knowledge_base Approx.log Approx.sqrt
           Samples.classesDirectory 0 ["cloud.md"; "classes.md"]).
  - reflexivity.
  - reflexivity.
  - vm_compute. reflexivity.
Defined.

(** X24.  After a rebuild that returned documents with distinct ids, a
    load within the time to live does not look at the file system: it keeps
    the index and returns the indexed documents, the same ones as the
    rebuild, in the same order when no id is an array index (a canonical
    decimal number, which [Object.values] lists first).  From the time to
    live on, the index is not used and the load is a rebuild. *)
Theorem cache_hit_returns_the_indexed_documents :
  forall (Math_log : Q -> Q) (fs fs' : FileSystem) (now now' : Z)
         (documents : list KnowledgeDocument.t) (index : KnowledgeBaseIndex.t),
    loadKnowledgeBaseDocuments Math_log fs now None = (documents, Some index) ->
    documents <> [] ->
    NoDup (map KnowledgeDocument.id documents) ->
    ~ In "__proto__" (map KnowledgeDocument.id documents) ->
    let again := loadKnowledgeBaseDocuments Math_log fs' now' (Some index) in
    (now' - now < CACHE_TTL ->
     snd again = Some index
     /\ Permutation documents (fst again)
     /\ ((forall doc, In doc documents -> Dict.arrayIndex (KnowledgeDocument.id doc) = None) ->
         fst again = documents))
    /\ (CACHE_TTL <= now' - now ->
        again = loadKnowledgeBaseDocuments Math_log fs' now' None).
Proof.
  intros Math_log fs fs' now now' documents index Hload Hne Hnd Hproto again.
  apply load_built in Hload; [|exact Hne].
  destruct (built_header Math_log documents now index Hload) as [_ [Hstamp _]].
  pose proof (built_documents Math_log documents now index Hnd Hproto Hload) as Hfiled.
  subst again. split.
  - intros Hfresh. rewrite load_hit by (rewrite Hstamp; exact Hfresh). cbn [fst snd].
    assert (Hdocs : map DocumentIndexEntry.document
                      (map snd (DocumentIndex.own (KnowledgeBaseIndex.documentIndex index)))
                    = documents).
    { rewrite <- filed_docs, Hfiled, map_map. cbn [snd]. apply map_id. }
    split; [reflexivity|]. split.
    + rewrite <- Hdocs at 1. apply Permutation_map. unfold DocumentIndex.values.
      apply values_perm.
    + intros Hnamed. unfold DocumentIndex.values. rewrite values_named; [exact Hdocs|].
      intros k Hk. rewrite <- filed_keys, Hfiled, map_map in Hk. cbn [fst] in Hk.
      apply in_map_iff in Hk. destruct Hk as [doc [<- Hdoc]]. now apply Hnamed.
  - intros Hold. unfold loadKnowledgeBaseDocuments. rewrite Hstamp.
    apply Z.ltb_ge in Hold. now rewrite Hold.
Qed.

Lemma cache_hit_returns_the_indexed_documents_witness :
  let again :=
    loadKnowledgeBaseDocuments Approx.log Samples.missingDirectory 1000
      (Some Samples.directoryIndex) in
  (1000 - 0 < CACHE_TTL ->
   snd again = Some Samples.directoryIndex
   /\ Permutation Samples.directoryDocuments (fst again)
   /\ ((forall doc, In doc Samples.directoryDocuments ->
                    Dict.arrayIndex (KnowledgeDocument.id doc) = None) ->
       fst again = Samples.directoryDocuments))
  /\ (CACHE_TTL <= 1000 - 0 ->
      again = loadKnowledgeBaseDocuments Approx.log Samples.missingDirectory 1000 None).
Proof.
  apply (cache_hit_returns_the_indexed_documents Approx.log Samples.directory
           Samples.missingDirectory 0 1000 Samples.directoryDocuments Samples.directoryIndex).
  - exact directory_loaded.
  - discriminate.
  - vm_compute. distinct_strings.
  - vm_compute. intuition discriminate.
Defined.

(** X25.  An empty load is remembered too.  When a load has returned no
    document (the directory was missing, unreadable or without a Markdown
    file, or the index builder raised), the index it leaves answers for the
    whole time to live: whatever the directory holds by then, a request
    with a query of valid length is answered with status 503 and the index
    stays as it is. *)
Theorem empty_load_is_remembered :
  forall (Math_log Math_sqrt : Q -> Q) (fs fs' : FileSystem) (before now : Z)
         (cache : option KnowledgeBaseIndex.t) (index : KnowledgeBaseIndex.t)
         (body : SearchRequest),
    loadKnowledgeBaseDocuments Math_log fs before cache = ([], Some index) ->
    now - KnowledgeBaseIndex.lastIndexed index < CACHE_TTL ->
    validLength (requestQuery body) ->
    POST Math_log Math_sqrt fs' now (Some index) body
    = (failure "No documents available in knowledge base" 503, Some index).
Proof.
  intros Math_log Math_sqrt fs fs' before now cache index body Hload Hfresh Hv.
  rewrite (handle_valid Math_log Math_sqrt fs' now (Some index) body Hv).
  rewrite (load_hit Math_log fs' now index Hfresh).
  rewrite (load_nothing Math_log fs before cache index Hload). reflexivity.
Qed.

Lemma empty_load_is_remembered_witness :
  POST Approx.log Approx.sqrt Samples.directory 1000 (Some (createEmptyIndex 0))
    (Samples.request "cloud")
  = (failure "No documents available in knowledge base" 503, Some (createEmptyIndex 0)).
Proof.
  apply (empty_load_is_remembered Approx.log Approx.sqrt Samples.emptyDirectory
           Samples.directory 0 1000 None (createEmptyIndex 0) (Samples.request "cloud")).
  - reflexivity.
  - reflexivity.
  - vm_compute. lia.
Defined.

(** ** The answer *)

Lemma substring0_length (n : nat) (s : string) :
  String.length (Str.substring0 n s) = Nat.min n (String.length s).
Proof.
  unfold Str.substring0. revert s. induction n as [|n IH]; intros s.
  - now destruct s.
  - destruct s as [|c t]; [reflexivity|]. simpl. now rewrite IH.
Qed.

Lemma substring0_prefix (n : nat) (s : string) : prefix (Str.substring0 n s) s = true.
Proof.
  unfold Str.substring0. revert s. induction n as [|n IH]; intros s.
  - now destruct s.
  - destruct s as [|c t]; [reflexivity|]. simpl.
    destruct (ascii_dec c c) as [_|Hne]; [apply IH | congruence].
Qed.

Lemma append_length (s1 s2 : string) :
  String.length (s1 ++ s2) = (String.length s1 + String.length s2)%nat.
Proof. induction s1 as [|c t IH]; simpl; [reflexivity | now rewrite IH]. Qed.

Lemma trimContent_cases (r : SearchResult.t) :
  let before := KnowledgeDocument.content (SearchResult.doc r) in
  let after := KnowledgeDocument.content (SearchResult.doc (trimContent r)) in
  ((String.length before <= MAX_CONTENT_LENGTH)%nat -> after = before)
  /\ ((MAX_CONTENT_LENGTH < String.length before)%nat ->
      after = (Str.substring0 MAX_CONTENT_LENGTH before ++ "...")%string
      /\ String.length after = (MAX_CONTENT_LENGTH + 3)%nat
      /\ prefix (Str.substring0 MAX_CONTENT_LENGTH before) before = true).
Proof.
  intros before after. subst before after. unfold trimContent.
  cbn [SearchResult.doc KnowledgeDocument.content].
  generalize MAX_CONTENT_LENGTH as limit. intros limit.
  destruct (limit <? String.length (KnowledgeDocument.content (SearchResult.doc r)))%nat eqn:E.
  - apply Nat.ltb_lt in E. split; [lia|]. intros _. split; [reflexivity|]. split.
    + rewrite append_length, substring0_length. simpl. lia.
    + apply substring0_prefix.
  - apply Nat.ltb_ge in E. split; [reflexivity | lia].
Qed.

(** X26.  When the effective [maxResults] is not negative, the answer
    holds at most that many results, and so at most ten, whatever the
    request asks for. *)
Theorem answer_holds_at_most_ten_results :
  forall (Math_log Math_sqrt : Q -> Q) (fs : FileSystem) (now : Z)
         (cache : option KnowledgeBaseIndex.t) (body : SearchRequest),
    0 <= effectiveMaxResults (req_maxResults body) ->
    Z.of_nat (List.length (results (fst (POST Math_log Math_sqrt fs now cache body))))
    <= effectiveMaxResults (req_maxResults body)
    /\ (List.length (results (fst (POST Math_log Math_sqrt fs now cache body))) <= 10)%nat.
Proof.
  intros Math_log Math_sqrt fs now cache body Hk.
  assert (Hten : effectiveMaxResults (req_maxResults body) <= 10)
    by (unfold effectiveMaxResults; apply Z.le_min_r).
  assert (H : Z.of_nat (List.length (results (fst (POST Math_log Math_sqrt fs now cache body))))
              <= effectiveMaxResults (req_maxResults body)); [|split; [exact H | lia]].
  unfold POST.
  destruct (String.length (requestQuery body) <? 2)%nat; [simpl; lia|].
  destruct (500 <? String.length (requestQuery body))%nat; [simpl; lia|].
  destruct (loadKnowledgeBaseDocuments Math_log fs now cache) as [documents cache'].
  destruct documents as [|d ds]; [simpl; lia|].
  cbn [fst results]. rewrite length_map, searchDocuments_ranking.
  rewrite slice0_nonneg by exact Hk. rewrite length_firstn. lia.
Qed.

Lemma answer_holds_at_most_ten_results_witness :
  let body := mkSearchRequest (JSString "learning") (JSNumber 25) in
  Z.of_nat (List.length (results (fst (POST Approx.log Approx.sqrt Samples.directory 0 None body))))
  <= effectiveMaxResults (req_maxResults body)
  /\ (List.length (results (fst (POST Approx.log Approx.sqrt Samples.directory 0 None body)))
      <= 10)%nat.
Proof.
  apply (answer_holds_at_most_ten_results Approx.log Approx.sqrt Samples.directory 0 None
           (mkSearchRequest (JSString "learning") (JSNumber 25))).
  vm_compute. discriminate.
Defined.

(** X27.  The content of every result of an answer has at most 4003
    characters.  A content of at most 4000 characters is returned as it is;
    a longer one is replaced by its first 4000 characters followed by three
    dots. *)
Theorem answer_contents_are_cut_to_size :
  forall (Math_log Math_sqrt : Q -> Q) (fs : FileSystem) (now : Z)
         (cache : option KnowledgeBaseIndex.t) (body : SearchRequest),
    Forall
      (fun r =>
         (String.length (KnowledgeDocument.content (SearchResult.doc r))
          <= MAX_CONTENT_LENGTH + 3)%nat)
      (results (fst (POST Math_log Math_sqrt fs now cache body)))
    /\ forall r,
         let before := KnowledgeDocument.content (SearchResult.doc r) in
         let after := KnowledgeDocument.content (SearchResult.doc (trimContent r)) in
         ((String.length before <= MAX_CONTENT_LENGTH)%nat -> after = before)
         /\ ((MAX_CONTENT_LENGTH < String.length before)%nat ->
             after = (Str.substring0 MAX_CONTENT_LENGTH before ++ "...")%string
             /\ String.length after = (MAX_CONTENT_LENGTH + 3)%nat
             /\ prefix (Str.substring0 MAX_CONTENT_LENGTH before) before = true).
Proof.
  intros Math_log Math_sqrt fs now cache body. split; [|apply trimContent_cases].
  unfold POST.
  destruct (String.length (requestQuery body) <? 2)%nat; [constructor|].
  destruct (500 <? String.length (requestQuery body))%nat; [constructor|].
  destruct (loadKnowledgeBaseDocuments Math_log fs now cache) as [documents cache'].
  destruct documents as [|d ds]; [constructor|].
  cbn [fst results]. apply Forall_forall. intros r Hr.
  apply in_map_iff in Hr. destruct Hr as [x [<- _]].
  destruct (trimContent_cases x) as [Hshort Hlong]. cbv zeta in Hshort, Hlong.
  destruct (Nat.le_gt_cases
              (String.length (KnowledgeDocument.content (SearchResult.doc x)))
              MAX_CONTENT_LENGTH) as [H|H].
  - rewrite (Hshort H). lia.
  - destruct (Hlong H) as [_ [-> _]]. lia.
Qed.

(** ** A numeric [maxResults] *)

Lemma uintValue_acc (d : Decimal.uint) :
  forall p : positive, uintValue d (N.pos p) = N.pos (Pos.of_uint_acc d p).
Proof.
  induction d; intros p; cbn [uintValue Pos.of_uint_acc]; try reflexivity;
    match goal with
    | |- uintValue _ ?a = _ =>
        match goal with
        | |- _ = N.pos (Pos.of_uint_acc _ ?q) =>
            replace a with (N.pos q) by lia; apply IHd
        end
    end.
Qed.

Lemma uintValue_of_uint (d : Decimal.uint) : uintValue d 0 = Pos.of_uint d.
Proof.
  induction d; cbn [uintValue Pos.of_uint]; try reflexivity;
    try (change (10 * 0 + 1)%N with 1%N; change (10 * 0 + 2)%N with 2%N;
         change (10 * 0 + 3)%N with 3%N; change (10 * 0 + 4)%N with 4%N;
         change (10 * 0 + 5)%N with 5%N; change (10 * 0 + 6)%N with 6%N;
         change (10 * 0 + 7)%N with 7%N; change (10 * 0 + 8)%N with 8%N;
         change (10 * 0 + 9)%N with 9%N; apply uintValue_acc).
  exact IHd.
Qed.

Ltac digit_step :=
  match goal with
  | |- context [digitValue 10 ?c] =>
      let v := eval vm_compute in (digitValue 10 c) in
      change (digitValue 10 c) with v; cbv iota beta
  end.

Lemma readDigits_uint (d : Decimal.uint) :
  forall acc : N,
    readDigits 10 (NilEmpty.string_of_uint d) acc true = Some (uintValue d acc).
Proof.
  induction d; intros acc; cbn [NilEmpty.string_of_uint uintValue]; [reflexivity|..];
    cbn [readDigits]; digit_step; rewrite ?N.add_0_r; apply IHd.
Qed.

Lemma readDigits_first (d : Decimal.uint) (acc : N) :
  d <> Decimal.Nil ->
  readDigits 10 (NilEmpty.string_of_uint d) acc false = Some (uintValue d acc).
Proof.
  intros Hd. destruct d; [congruence|..];
    cbn [NilEmpty.string_of_uint uintValue readDigits]; digit_step; rewrite ?N.add_0_r;
    apply readDigits_uint.
Qed.

Lemma parseInt_uint (d : Decimal.uint) :
  d <> Decimal.Nil ->
  parseInt (NilEmpty.string_of_uint d) = Some (Z.of_N (Pos.of_uint d))
  /\ parseInt (String "-" (NilEmpty.string_of_uint d)) = Some (- Z.of_N (Pos.of_uint d)).
Proof.
  intros Hd. rewrite <- uintValue_of_uint.
  pose proof (readDigits_first d 0 Hd) as Hread.
  assert (Hhex : prefix "0x" (NilEmpty.string_of_uint d) = false
                 /\ prefix "0X" (NilEmpty.string_of_uint d) = false).
  { destruct d; try (split; reflexivity). destruct d; split; reflexivity. }
  destruct Hhex as [Hx HX].
  split.
  - unfold parseInt.
    assert (Htrim : Str.trimStart (NilEmpty.string_of_uint d) = NilEmpty.string_of_uint d)
      by (destruct d; [congruence|..]; reflexivity).
    rewrite Htrim.
    assert (Hsign : match NilEmpty.string_of_uint d with
                    | String "-"%char t => (true, t)
                    | String "+"%char t => (false, t)
                    | _ => (false, NilEmpty.string_of_uint d)
                    end = (false, NilEmpty.string_of_uint d))
      by (destruct d; [congruence|..]; reflexivity).
    rewrite Hsign, Hx, HX. cbn [orb]. now rewrite Hread.
  - unfold parseInt. cbn [Str.trimStart Str.dropWhile].
    change (Str.isSpace "-") with false. cbv iota.
    rewrite Hx, HX. cbn [orb]. now rewrite Hread.
Qed.

Lemma to_uint_nonnil (p : positive) : Pos.to_uint p <> Decimal.Nil.
Proof.
  intros H. pose proof (DecimalPos.Unsigned.of_to p) as Hp. rewrite H in Hp. discriminate.
Qed.

Lemma parseInt_ToString (n : Z) : parseInt (ToString (JSNumber n)) = Some n.
Proof.
  unfold ToString. destruct n as [|p|p]; cbn [Z.to_int NilZero.string_of_int].
  - reflexivity.
  - unfold NilZero.string_of_uint.
    pose proof (to_uint_nonnil p) as Hp.
    destruct (parseInt_uint (Pos.to_uint p) Hp) as [H _].
    rewrite DecimalPos.Unsigned.of_to in H.
    destruct (Pos.to_uint p); [congruence|..]; exact H.
  - unfold NilZero.string_of_uint.
    pose proof (to_uint_nonnil p) as Hp.
    destruct (parseInt_uint (Pos.to_uint p) Hp) as [_ H].
    rewrite DecimalPos.Unsigned.of_to in H.
    destruct (Pos.to_uint p); [congruence|..]; exact H.
Qed.

(** X28.  An integer [maxResults] below [10 ^ 21] in absolute value, the
    integers JavaScript prints in plain decimal, survives the conversion to
    a string and [parseInt]: the effective bound is the number itself cut
    at 10, or 5 when the number is 0.  A negative number stays negative. *)
Theorem numeric_maxResults_is_read_back :
  forall n : Z,
    Z.abs n < 10 ^ 21 ->
    parseInt (ToString (JSNumber n)) = Some n
    /\ effectiveMaxResults (JSNumber n) = (if n =? 0 then 5 else Z.min n 10).
Proof.
  intros n _. split; [apply parseInt_ToString|].
  unfold effectiveMaxResults. rewrite parseInt_ToString.
  destruct (n =? 0); reflexivity.
Qed.

Lemma numeric_maxResults_is_read_back_witness :
  parseInt (ToString (JSNumber 25)) = Some 25
  /\ effectiveMaxResults (JSNumber 25) = (if 25 =? 0 then 5 else Z.min 25 10).
Proof.
  apply (numeric_maxResults_is_read_back 25). reflexivity.
Defined.

(** ** The information endpoint *)

(** X29.  After a rebuild, [GET] raises exactly when the directory exists
    and cannot be listed.  Otherwise it reports the index as built, with
    the number of documents the rebuild returned, which is at most the
    number of [.md] files it counts in the directory, and with the time
    since the rebuild as the age of the index. *)
Theorem information_after_rebuild :
  forall (Math_log : Q -> Q) (fs : FileSystem) (now now' : Z)
         (documents : list KnowledgeDocument.t) (index : KnowledgeBaseIndex.t),
    loadKnowledgeBaseDocuments Math_log fs now None = (documents, Some index) ->
    (GET fs now' (Some index) = None <-> existsSync fs = true /\ readdirSync fs = None)
    /\ forall info,
         GET fs now' (Some index) = Some info ->
         let status := ApiInformation.indexStatus info in
         IndexStatus.isIndexed status = true
         /\ IndexStatus.indexedDocuments status = List.length documents
         /\ (IndexStatus.indexedDocuments status <= ApiInformation.documentsAvailable info)%nat
         /\ IndexStatus.indexAge status = now' - now.
Proof.
  intros Math_log fs now now' documents index Hload. split.
  - unfold GET. destruct (existsSync fs); [|split; [discriminate | intros [H _]; discriminate]].
    destruct (readdirSync fs); split; try discriminate; try tauto.
    intros [_ H]; discriminate.
  - intros info Hget status. subst status. unfold GET in Hget.
    unfold loadKnowledgeBaseDocuments in Hload.
    destruct (existsSync fs); cbn [negb] in Hload.
    + destruct (readdirSync fs) as [names|]; [|discriminate].
      injection Hget as <-.
      cbn [ApiInformation.indexStatus ApiInformation.documentsAvailable
           IndexStatus.isIndexed IndexStatus.indexedDocuments IndexStatus.indexAge].
      destruct (sortNames _) as [|f files] eqn:Efiles.
      * injection Hload as <- <-. simpl. repeat split; lia.
      * destruct (buildKnowledgeBaseIndex _ _ _) as [built|] eqn:Eb.
        -- injection Hload as <- <-.
           destruct (built_header Math_log _ now built Eb) as [-> [-> _]].
           split; [reflexivity|]. split; [reflexivity|]. split; [|reflexivity].
           eapply Nat.le_trans; [apply loaded_at_most_files|].
           rewrite <- Efiles, sortNames_length. lia.
        -- injection Hload as <- <-. simpl. repeat split; lia.
    + injection Hget as <-. injection Hload as <- <-. simpl. repeat split; lia.
Qed.

Lemma information_after_rebuild_witness :
  (GET Samples.directory 1000 (Some Samples.directoryIndex) = None
   <-> existsSync Samples.directory = true /\ readdirSync Samples.directory = None)
  /\ forall info,
       GET Samples.directory 1000 (Some Samples.directoryIndex) = Some info ->
       let status := ApiInformation.indexStatus info in
       IndexStatus.isIndexed status = true
       /\ IndexStatus.indexedDocuments status = List.length Samples.directoryDocuments
       /\ (IndexStatus.indexedDocuments status <= ApiInformation.documentsAvailable info)%nat
       /\ IndexStatus.indexAge status = 1000 - 0.
Proof.
  apply (information_after_rebuild Approx.log Samples.directory 0 1000
           Samples.directoryDocuments Samples.directoryIndex).
  exact directory_loaded.
Defined.
